(** * capablanca-api: the Elo rating update and the game models of [api/models.py]

    The Django models of [src/api/models.py] are embedded as records, the
    database as finite maps from primary keys to rows, and the one method with
    numeric content, [Elo.update_rating], as a function in an error monad over
    Python's numbers: unbounded integers ([Z]) and binary64 floats (the
    Standard Library's [spec_float] at precision 53). *)

From stdpp Require Import gmap.
From Stdlib Require Import ZArith Lia Bool List String Ascii.
From Stdlib Require Import Floats.SpecFloat.

Local Open Scope Z_scope.

(* ===================================================================== *)
(** ** Python exceptions as an error monad *)
(* ===================================================================== *)

Inductive exn : Type :=
  | OverflowError
  | ZeroDivisionError
  | ValueError.

Inductive result (A : Type) : Type :=
  | Ok (a : A)
  | Raise (e : exn).
Arguments Ok {A} a.
Arguments Raise {A} e.

#[global] Instance result_ret : MRet result := fun A a => Ok a.

#[global] Instance result_bind : MBind result := fun A B k r =>
  match r with
  | Ok a => k a
  | Raise e => Raise e
  end.

Definition succeeds {A : Type} (r : result A) : Prop := exists a, r = Ok a.

(* ===================================================================== *)
(** ** Python floats: IEEE 754 binary64 *)
(* ===================================================================== *)

Module Py.

Definition prec : Z := 53.
Definition emax : Z := 1024.

Definition float : Type := spec_float.

Definition fadd : float -> float -> float := SFadd prec emax.
Definition fsub : float -> float -> float := SFsub prec emax.
Definition fmul : float -> float -> float := SFmul prec emax.
Definition fdiv : float -> float -> float := SFdiv prec emax.

(** The integer [z] rounded to the nearest binary64, ties to even. *)
Definition Z2F (z : Z) : float := binary_normalize prec emax z 0 false.

Definition pinf : float := S754_infinity false.
Definition pzero : float := S754_zero false.
Definition one : float := S754_finite false 4503599627370496 (-52).
Definition half : float := S754_finite false 4503599627370496 (-53).
Definition ten : float := S754_finite false 5629499534213120 (-49).

Definition is_finite (f : float) : bool :=
  match f with
  | S754_zero _ | S754_finite _ _ _ => true
  | S754_infinity _ | S754_nan => false
  end.

Definition is_zero (f : float) : bool :=
  match f with
  | S754_zero _ => true
  | _ => false
  end.

Definition is_inf (f : float) : bool :=
  match f with
  | S754_infinity _ => true
  | _ => false
  end.

Definition is_nan (f : float) : bool :=
  match f with
  | S754_nan => true
  | _ => false
  end.

(** [float(z)], the conversion Python applies to the [int] operand of a mixed
    [int]/[float] operation: correctly rounded, [OverflowError] ("int too
    large to convert to float") beyond the binary64 range. *)
Definition float_of_int (z : Z) : result float :=
  let f := Z2F z in
  if is_inf f then Raise OverflowError else Ok f.

(** [a / b] on two [int]s (true division): the correctly rounded quotient,
    [ZeroDivisionError] for [b = 0], [OverflowError] ("integer division
    result too large for a float") beyond the binary64 range. *)
Definition int_truediv (a b : Z) : result float :=
  if b =? 0 then Raise ZeroDivisionError
  else
    let negate := xorb (a <? 0) (b <? 0) in
    if a =? 0 then Ok (S754_zero negate)
    else
      let '(q, e, l) := SFdiv_core_binary prec emax (Z.abs a) 0 (Z.abs b) 0 in
      let f := binary_round_aux prec emax negate q e l in
      if is_inf f then Raise OverflowError else Ok f.

(** [x / y] on floats: [ZeroDivisionError] ("float division by zero") when
    the divisor is a zero. *)
Definition float_truediv (x y : float) : result float :=
  if is_zero y then Raise ZeroDivisionError else Ok (fdiv x y).

(** The exponent of the last place of a binary64 of magnitude [k], and the
    magnitude of [m * 2^e]: the [k] with [2^(k-1) <= m * 2^e < 2^k]. *)
Definition fexp64 (k : Z) : Z := Z.max (k - 53) (-1074).

Definition mag (m : positive) (e : Z) : Z := Z.pos (digits2_pos m) + e.

(** [f] is a well-formed binary64: canonical mantissa, exponent in range. *)
Definition valid (f : float) : bool := valid_binary prec emax f.

(** [f] is a well-formed finite binary64 with [|f| < 2^k]. *)
Definition bounded_by (k : Z) (f : float) : Prop :=
  valid f = true /\
  match f with
  | S754_zero _ => True
  | S754_finite _ m e => mag m e <= k
  | _ => False
  end.

Definition sign_of (f : float) : bool :=
  match f with
  | S754_zero s | S754_infinity s | S754_finite s _ _ => s
  | S754_nan => false
  end.

Definition nonneg (f : float) : bool :=
  match f with
  | S754_zero false | S754_infinity false | S754_finite false _ _ => true
  | _ => false
  end.

(** [0 <= f < 2^-54]: less than a quarter of the last place of 1.0. *)
Definition tiny (f : float) : bool :=
  match f with
  | S754_zero false => true
  | S754_finite false m e => mag m e <=? -54
  | _ => false
  end.

(** The platform's C library supplies [pow]; CPython's [float_pow] calls it
    only after its own special cases, and nothing else of libm is used.  The
    laws are what C11 Annex F and any implementation with an error below one
    unit in the last place guarantee for the base 10:
    - the result is never negative and never a NaN;
    - for [|y| < 256] it is a finite binary64 below [2^1000]
      ([10^256 < 2^851]);
    - for [y >= 309] it is [+inf] ([10^309 > 2^1024]);
    - for [y <= -20] it is below [2^-54] ([10^-20 < 2^-66]). *)
Record Libm : Type := {
  pow : float -> float -> float;
  pow_nonneg : forall y, is_finite y = true -> nonneg (pow ten y) = true;
  pow_moderate : forall y, bounded_by 8 y -> bounded_by 1000 (pow ten y);
  pow_overflow : forall y, is_finite y = true ->
    SFleb (Z2F 309) y = true -> pow ten y = pinf;
  pow_tiny : forall y, is_finite y = true ->
    SFleb y (Z2F (-20)) = true -> tiny (pow ten y) = true
}.

(** [x ** y] on floats as CPython's [float_pow] computes it for a finite
    base above one (the only base the models use is 10): [y == 0] gives 1.0
    without consulting libm, a NaN exponent is returned, an infinite exponent
    gives [inf] or [0.0], and otherwise libm's [pow] is called, an infinite
    result being reported as [OverflowError] (errno [ERANGE]). *)
Definition float_pow (L : Libm) (x y : float) : result float :=
  match y with
  | S754_zero _ => Ok one
  | S754_nan => Ok y
  | S754_infinity s => Ok (if s then pzero else pinf)
  | S754_finite _ _ _ =>
      let ix := pow L x y in
      if is_inf ix then Raise OverflowError else Ok ix
  end.

(** A Python number, as far as the models see one: an [int] or a [float]. *)
Inductive number : Type :=
  | PyInt (z : Z)
  | PyFloat (f : float).

Definition to_float (n : number) : result float :=
  match n with
  | PyInt z => float_of_int z
  | PyFloat f => Ok f
  end.

(** Round half to even of [m * 2^e]. *)
Definition round_half_even (m : positive) (e : Z) : Z :=
  match e with
  | Z0 => Z.pos m
  | Zpos p => Z.pos m * 2 ^ Z.pos p
  | Zneg p =>
      let d := 2 ^ Z.pos p in
      let q := Z.pos m / d in
      let r := Z.pos m mod d in
      match 2 * r ?= d with
      | Lt => q
      | Gt => q + 1
      | Eq => if Z.even q then q else q + 1
      end
  end.

(** [round(x)] with one argument: the nearest [int], ties to even;
    [OverflowError] on an infinity and [ValueError] on a NaN. *)
Definition round (x : float) : result Z :=
  match x with
  | S754_zero _ => Ok 0
  | S754_infinity _ => Raise OverflowError
  | S754_nan => Raise ValueError
  | S754_finite s m e => Ok (cond_Zopp s (round_half_even m e))
  end.

End Py.

Import Py.

(** A coarse [pow] that obeys the four laws: it shows that [Libm] is
    inhabited and serves where a concrete library is needed to run the model.
    No statement below depends on its values between the two thresholds. *)
Definition coarse_pow (x y : float) : float :=
  if SFleb (Z2F 309) y then pinf
  else if SFleb y (Z2F (-20)) then pzero
  else one.

Definition coarse_libm : Libm.
Proof.
  refine {| pow := coarse_pow |}.
  - intros y _. unfold coarse_pow.
    destruct (SFleb (Z2F 309) y); [reflexivity|].
    destruct (SFleb y (Z2F (-20))); reflexivity.
  - intros y [Hv Hb]. unfold coarse_pow.
    assert (H309 : SFleb (Z2F 309) y = false).
    { destruct y as [s | s | | s m e]; try contradiction; [reflexivity|].
      destruct s; [reflexivity|].
      unfold valid, valid_binary, bounded, canonical_mantissa in Hv.
      apply andb_true_iff in Hv. destruct Hv as [Hc _]. apply Z.eqb_eq in Hc.
      change (fexp prec emax (Z.pos (digits2_pos m) + e)) with (fexp64 (mag m e)) in Hc.
      assert (He : e < -44) by (unfold fexp64 in Hc; lia).
      let c := eval vm_compute in (Z2F 309) in change (Z2F 309) with c.
      unfold SFleb, SFcompare.
      destruct (Z.compare_spec (-44) e) as [E | E | E]; try lia; reflexivity. }
    rewrite H309.
    destruct (SFleb y (Z2F (-20))); split; try reflexivity; try exact I.
    vm_compute. discriminate.
  - intros y _ H. unfold coarse_pow. rewrite H. reflexivity.
  - intros y _ H. unfold coarse_pow.
    destruct (SFleb (Z2F 309) y) eqn:E.
    + destruct y as [s | s | | s m e]; try destruct s; discriminate.
    + rewrite H. reflexivity.
Defined.

(** Two floats are the same key of a table when they are the same bits. *)
#[global] Instance float_eq_dec : EqDecision float.
Proof. solve_decision. Defined.

(** The powers of ten at the four exponents the examples below reach, each
    the binary64 nearest to the exact power (what a correctly rounded [pow],
    such as glibc's, returns):
    [10 ** -1.6725 = 0.021256903452171065], [10 ** 1.6725 = 47.04354057259762],
    [10 ** 0.0025 = 1.0057730630017383], [10 ** -0.0025 = 0.9942600739529567]. *)
Definition powers_of_ten : list (float * float) :=
  [ (S754_finite true 7532270376777155 (-52), S754_finite false 6126885277839886 (-58));
    (S754_finite false 7532270376777155 (-52), S754_finite false 6620789743529358 (-47));
    (S754_finite false 5764607523034235 (-61), S754_finite false 4529599191753911 (-52));
    (S754_finite true 5764607523034235 (-61), S754_finite false 8955498597127795 (-53)) ].

Fixpoint tabulated (t : list (float * float)) (y : float) : option float :=
  match t with
  | [] => None
  | (k, v) :: rest => if decide (y = k) then Some v else tabulated rest y
  end.

(** A [pow] that agrees with a correctly rounded one at the tabulated
    exponents and is coarse elsewhere: the library of the examples at
    unequal ratings, whose values are then those of the interpreter. *)
Definition table_pow (x y : float) : float :=
  match tabulated powers_of_ten y with
  | Some p => p
  | None => coarse_pow x y
  end.

Definition table_libm : Libm.
Proof.
  refine {| pow := table_pow |}.
  - intros y Hy. unfold table_pow, powers_of_ten. cbn [tabulated].
    repeat (destruct (decide _) as [->|_]; [reflexivity|]).
    exact (pow_nonneg coarse_libm y Hy).
  - intros y Hy. unfold table_pow, powers_of_ten. cbn [tabulated].
    repeat (destruct (decide _) as [->|_]; [split; [reflexivity|vm_compute; discriminate]|]).
    exact (pow_moderate coarse_libm y Hy).
  - intros y Hy H. unfold table_pow, powers_of_ten. cbn [tabulated].
    repeat (destruct (decide _) as [->|_]; [discriminate H|]).
    exact (pow_overflow coarse_libm y Hy H).
  - intros y Hy H. unfold table_pow, powers_of_ten. cbn [tabulated].
    repeat (destruct (decide _) as [->|_]; [discriminate H|]).
    exact (pow_tiny coarse_libm y Hy H).
Defined.

(** Mixed [int]/[float] arithmetic: the [int] operand is converted first. *)
Definition int_pow_float (L : Libm) (a : Z) (y : float) : result float :=
  x ← float_of_int a; float_pow L x y.

Definition int_add_float (a : Z) (y : float) : result float :=
  x ← float_of_int a; Ok (fadd x y).

Definition int_mul_float (a : Z) (y : float) : result float :=
  x ← float_of_int a; Ok (fmul x y).

Definition int_div_float (a : Z) (y : float) : result float :=
  x ← float_of_int a; float_truediv x y.

Definition num_sub_float (n : number) (y : float) : result float :=
  x ← to_float n; Ok (fsub x y).

(* ===================================================================== *)
(** ** The models *)
(* ===================================================================== *)

Definition pk : Type := positive.
Definition timestamp : Type := Z.

(** [class Elo(Model)]: the implicit [id] column and the seven fields. *)
Record Elo : Type := {
  elo_id : option pk;
  rating : Z;
  k_factor : Z;
  wins : Z;
  losses : Z;
  draws : Z;
  updated_at : timestamp;
  player : option pk
}.

(** [Elo()] with every field at its declared default; [updated_at] is only
    set by a save. *)
Definition Elo_new (created : timestamp) : Elo :=
  {| elo_id := None; rating := 1200; k_factor := 32;
     wins := 0; losses := 0; draws := 0;
     updated_at := created; player := None |}.

(** What [update_rating] can reach of the outside world: the [Elo] table and
    the wall clock read by [auto_now]. *)
Record World : Type := {
  elo_table : gmap pk Elo;
  elo_next_id : pk;
  now : timestamp
}.

Definition set_rating (self : Elo) (r : Z) : Elo :=
  {| elo_id := elo_id self; rating := r; k_factor := k_factor self;
     wins := wins self; losses := losses self; draws := draws self;
     updated_at := updated_at self; player := player self |}.

(** [self.save()]: [auto_now] stamps [updated_at], then the row is written
    under its primary key, a fresh one when the object has none yet.  What
    the database does with an integer that does not fit its column (SQLite's
    64-bit INTEGER raises [OverflowError]) lies outside [models.py] and is
    not part of the model: the theorems that state a return are about
    ratings of at most [2^53] in magnitude, well inside that range. *)
Definition save (self : Elo) (w : World) : Elo * World :=
  let k := match elo_id self with Some k => k | None => elo_next_id w end in
  let row :=
    {| elo_id := Some k; rating := rating self; k_factor := k_factor self;
       wins := wins self; losses := losses self; draws := draws self;
       updated_at := now w; player := player self |} in
  (row,
   {| elo_table := <[k := row]> (elo_table w);
      elo_next_id := match elo_id self with
                     | Some _ => elo_next_id w
                     | None => Pos.succ (elo_next_id w)
                     end;
      now := now w |}).

(** [Elo._get_expected_score]:
    [1 / (1 + 10**((opponent_rating - self.rating) / 400))]. *)
Definition _get_expected_score (L : Libm) (self : Elo) (opponent_rating : Z)
  : result float :=
  q ← int_truediv (opponent_rating - rating self) 400;
  p ← int_pow_float L 10 q;
  s ← int_add_float 1 p;
  int_div_float 1 s.

(** [Elo.update_rating]:
    [expected_score = self._get_expected_score(opponent_rating)],
    [self.rating = round(self.rating + self.k_factor * (score - expected_score))],
    [self.save()]. *)
Definition update_rating (L : Libm) (self : Elo) (score : number)
    (opponent_rating : Z) (w : World) : result (Elo * World) :=
  expected_score ← _get_expected_score L self opponent_rating;
  d ← num_sub_float score expected_score;
  t ← int_mul_float (k_factor self) d;
  x ← int_add_float (rating self) t;
  r ← round x;
  Ok (save (set_rating self r) w).

(** [class Result(Model)]: the status constants, the choices and the one
    field, whose declared default is [IN_PROGRESS]. *)
Module Result.

Definition SCHEDULED : string := "Scheduled".
Definition POSTPONED : string := "Postponed".
Definition FINISHED_NO_MOVES : string := "Finished (no moves)".
Definition IN_PROGRESS : string := "In progress".
Definition ADJOURNED : string := "Adjourned".
Definition FINISHED_BASIC_RULES : string := "Finished (basic rules)".
Definition FINISHED_CLOCK : string := "Finished (clock)".
Definition DRAW : string := "Draw".
Definition FINISHED_BREACH : string := "Finished (breach)".
Definition FINISHED_COMPLIANCE : string := "Finished (compliance)".
Definition TBD : string := "TBD".
Definition ABANDONED : string := "Abandoned".
Definition UNKNOWN : string := "Unknown".

Definition RESULT_CHOICES : list (string * string) :=
  [ (SCHEDULED, "Scheduled");
    (POSTPONED, "Postponed");
    (FINISHED_NO_MOVES, "Finished without any moves played");
    (IN_PROGRESS, "In progress");
    (ADJOURNED, "Adjourned");
    (FINISHED_BASIC_RULES, "Finished according to the Basic Rules of Play");
    (FINISHED_CLOCK, "Finished by the clock");
    (DRAW, "Draw");
    (FINISHED_BREACH, "Finished because of a breach of rules of one player");
    (FINISHED_COMPLIANCE,
     "Finished because both players persistently refuse to comply with the laws of chess");
    (TBD, "To be decided");
    (ABANDONED, "Abandoned");
    (UNKNOWN, "Unknown") ]%string.

Record t : Type := { description : string }.

(** [Result()]: every field at its default. *)
Definition new : t := {| description := IN_PROGRESS |}.

(** [__str__]. *)
Definition str (self : t) : string := description self.

End Result.

(** [class Board(Model)]. *)
Module Board.

Record t : Type := { layout : string; updated_at : timestamp }.

Definition default_layout : string :=
  "rnbqkbnr/pppppppp/8/8/8/8/PPPPPPPP/RNBQKBNR w KQkq - 0 1".

(** [Board()]: every field at its default. *)
Definition new (created : timestamp) : t :=
  {| layout := default_layout; updated_at := created |}.

Definition str (self : t) : string := layout self.

End Board.

(** [class Claim(Model)]. *)
Module Claim.

Definition THREEFOLD_REPETITION : string := "tr".
Definition FIFTY_MOVES : string := "ft".
Definition DRAW : string := "d".

Definition CLAIM_CHOICES : list (string * string) :=
  [ (THREEFOLD_REPETITION, "Threefold repetition");
    (FIFTY_MOVES, "Fifty moves");
    (DRAW, "Draw") ]%string.

Record t : Type := { claim_type : string }.

Definition str (self : t) : string := claim_type self.

End Claim.

(** [class Game(Model)]: the two players are foreign keys; the result and
    the board rows are kept with the game. *)
Module Game.

Record t : Type := {
  uuid : N;
  whites_player : pk;
  blacks_player : pk;
  start_timestamp : timestamp;
  end_timestamp : option timestamp;
  result : Result.t;
  board : Board.t
}.

End Game.

(** Modelled from the spec: [CreateGame(whitePlayer, blackPlayer)] is not in
    [models.py], where [Game.result] and [Game.board] have no default.  The
    spec has it return the Game of the two players, "Board initialized to
    standard layout, Result = Scheduled": the board is the source's
    [Board()], whose layout defaults to the start position, and the result
    is a [Result] row holding the source's constant [Result.SCHEDULED]. *)
Definition CreateGame (id : N) (created : timestamp) (whitePlayer blackPlayer : pk)
  : Game.t :=
  {| Game.uuid := id;
     Game.whites_player := whitePlayer;
     Game.blacks_player := blackPlayer;
     Game.start_timestamp := created;
     Game.end_timestamp := None;
     Game.result := {| Result.description := Result.SCHEDULED |};
     Game.board := Board.new created |}.

(* ===================================================================== *)
(** ** Reading a layout string *)
(* ===================================================================== *)

(** [s.split(sep)] for a one-character separator. *)
Fixpoint split_on (sep : ascii) (s : string) : list string :=
  match s with
  | EmptyString => [EmptyString]
  | String c rest =>
      if Ascii.eqb c sep then EmptyString :: split_on sep rest
      else match split_on sep rest with
           | w :: ws => String c w :: ws
           | [] => [String c EmptyString]
           end
  end.

Definition fields (layout : string) : list string := split_on " "%char layout.

Definition digit_of (c : ascii) : option N :=
  let n := N_of_ascii c in
  if ((48 <=? n) && (n <=? 57))%N then Some (n - 48)%N else None.

Fixpoint parse_digits (acc : N) (s : string) : option N :=
  match s with
  | EmptyString => Some acc
  | String c rest =>
      match digit_of c with
      | Some d => parse_digits (10 * acc + d)%N rest
      | None => None
      end
  end.

(** [int(s)] for an unsigned decimal numeral. *)
Definition parse_N (s : string) : option N :=
  match s with
  | EmptyString => None
  | _ => parse_digits 0%N s
  end.

(** The fifth field of a layout: the halfmove clock. *)
Definition halfmove_clock (b : Board.t) : option N :=
  match fields (Board.layout b) with
  | [_; _; _; _; hm; _] => parse_N hm
  | _ => None
  end.

Inductive ClaimResult : Type := Upheld | Rejected.

(** Modelled from the spec: [ClaimAdjudicator.evaluate] is not in
    [models.py], which only declares the claim types.  For a
    [FIFTY_MOVES] claim the spec upholds it iff the board's halfmove clock
    is at least 100; the other claim types need the move log and are left
    undecided here. *)
Definition evaluate (g : Game.t) (c : Claim.t) : option ClaimResult :=
  if String.eqb (Claim.claim_type c) Claim.FIFTY_MOVES then
    match halfmove_clock (Game.board g) with
    | Some n => Some (if (100 <=? n)%N then Upheld else Rejected)
    | None => None
    end
  else None.

(** The number of squares a rank of the placement field describes: a digit
    counts that many empty squares, any other character one piece. *)
Fixpoint rank_width (s : string) : N :=
  match s with
  | EmptyString => 0
  | String c rest =>
      (match digit_of c with Some d => d | None => 1 end + rank_width rest)%N
  end.

(** The game, the claim and the boards of the fifty-move examples. *)
Definition fifty_moves_claim : Claim.t := {| Claim.claim_type := Claim.FIFTY_MOVES |}.

Definition game_on (layout : string) : Game.t :=
  {| Game.uuid := 1%N; Game.whites_player := 1%positive;
     Game.blacks_player := 2%positive;
     Game.start_timestamp := 0; Game.end_timestamp := None;
     Game.result := Result.new;
     Game.board := {| Board.layout := layout; Board.updated_at := 0 |} |}.

(* ===================================================================== *)
(** ** The rating formula *)
(* ===================================================================== *)

(** The spec's expected score, [E = 1 / (1 + 10^((O - R) / 400))], computed
    in floating point with Python's operators. *)
Definition spec_expected_score (L : Libm) (R O : Z) : result float :=
  int_truediv (O - R) 400 ≫= fun q =>
  int_pow_float L 10 q ≫= fun p =>
  int_add_float 1 p ≫= fun s =>
  int_div_float 1 s.

(** The spec's value before rounding, [R + K * (s - E)]. *)
Definition spec_unrounded (L : Libm) (R K : Z) (s : number) (O : Z) : result float :=
  spec_expected_score L R O ≫= fun E =>
  num_sub_float s E ≫= fun d =>
  int_mul_float K d ≫= fun t =>
  int_add_float R t.

(** The spec's new rating, [round(R + K * (s - E))]. *)
Definition spec_new_rating (L : Libm) (R K : Z) (s : number) (O : Z) : result Z :=
  spec_unrounded L R K s O ≫= round.

(** [score in (0, 0.5, 1)] with Python's [==], under which [1 == 1.0]. *)
Definition permitted_score (s : number) : bool :=
  match s with
  | PyInt z => (z =? 0) || (z =? 1)
  | PyFloat f =>
      SFeqb f pzero || SFeqb f half || SFeqb f one
  end.

(** [n] is an integer nearest to the float [x]: twice the distance is at
    most one, both sides scaled by the denominator of [x]. *)
Definition nearest_int (x : float) (n : Z) : Prop :=
  match x with
  | S754_zero _ => n = 0
  | S754_finite s m e =>
      let v := cond_Zopp s (Z.pos m) in
      if e <? 0 then 2 * Z.abs (n * 2 ^ (- e) - v) <= 2 ^ (- e)
      else n = v * 2 ^ e
  | _ => False
  end.

(** [x] lies halfway between two integers. *)
Definition is_tie (x : float) : Prop :=
  match x with
  | S754_finite s m e => e < 0 /\ 2 * (Z.pos m mod 2 ^ (- e)) = 2 ^ (- e)
  | _ => False
  end.

(** A stored Elo row and a world holding it. *)
Definition stored_elo (k : pk) (R K : Z) : Elo :=
  {| elo_id := Some k; rating := R; k_factor := K;
     wins := 0; losses := 0; draws := 0; updated_at := 0; player := None |}.

Definition world_of (k : pk) (e : Elo) (t : timestamp) : World :=
  {| elo_table := {[ k := e ]}; elo_next_id := Pos.succ k; now := t |}.

(** The rating and the counters [(wins, losses, draws)] a call leaves in the
    object, when it returns. *)
Definition fields_after (r : result (Elo * World)) : result (Z * (Z * Z * Z)) :=
  r ≫= fun ew =>
  Ok (rating (fst ew), (wins (fst ew), losses (fst ew), draws (fst ew))).

(** The rating a call leaves in the object, when it returns. *)
Definition rating_after (r : result (Elo * World)) : result Z :=
  r ≫= fun ew => Ok (rating (fst ew)).

(** [x] is the float of value [N / 2]. *)
Definition half_int (x : float) (N : Z) : Prop :=
  match x with
  | S754_zero _ => N = 0
  | S754_finite s m e => e <= -1 /\ cond_Zopp s (Z.pos m) = N * 2 ^ (-1 - e)
  | _ => False
  end.

(* ===================================================================== *)
(** ** Scores, and float values on a common grid *)
(* ===================================================================== *)

(** [score == 1], [score == 0.5] and [score == 0] with Python's [==]. *)
Definition is_win (s : number) : bool :=
  match s with PyInt z => z =? 1 | PyFloat f => SFeqb f one end.

Definition is_draw (s : number) : bool :=
  match s with PyInt _ => false | PyFloat f => SFeqb f half end.

Definition is_loss (s : number) : bool :=
  match s with PyInt z => z =? 0 | PyFloat f => SFeqb f pzero end.

(** A well-formed float other than an infinity or a NaN. *)
Definition finite_float (f : float) : Prop := valid f = true /\ is_finite f = true.

(** The value of a finite float counted in units of [2^-2148]: an integer,
    since no exponent of a binary64, nor of a product of two, lies below
    [-2148]. *)
Definition units (f : float) : Z :=
  match f with
  | S754_finite s m e => cond_Zopp s (Z.pos m * 2 ^ (e + 2148))
  | _ => 0
  end.

(** One half in these units, and the least value beyond the binary64
    range, [2^1024]. *)
Definition half_unit : Z := 2 ^ 2147.

Definition overflow_units : Z := 2 ^ 53 * 2 ^ (971 + 2148).

(* ===================================================================== *)
(** ** Bare names in a method body *)
(* ===================================================================== *)

(** The objects a name can be bound to, as far as a [__str__] method tells
    them apart: strings, booleans, [None], and any other object (a module, a
    class, a function) by the text [format] gives for it. *)
Inductive pyobj : Type :=
  | ObjStr (s : string)
  | ObjBool (b : bool)
  | ObjNone
  | ObjOther (text : string).

Definition namespace : Type := gmap string pyobj.

(** Evaluating an expression that reads names: a value, or [NameError]
    ("name ... is not defined"). *)
Inductive named (A : Type) : Type :=
  | Found (a : A)
  | NameError (name : string).
Arguments Found {A} a.
Arguments NameError {A} name.

#[global] Instance named_ret : MRet named := fun A a => Found a.

#[global] Instance named_bind : MBind named := fun A B k r =>
  match r with
  | Found a => k a
  | NameError n => NameError n
  end.

(** A name a function neither takes as a parameter nor assigns is looked up
    in the globals of its module, then in the builtins. The attributes of
    the enclosing class are not in scope. *)
Definition load_global (globals builtins : namespace) (name : string) : named pyobj :=
  match globals !! name with
  | Some v => Found v
  | None =>
      match builtins !! name with
      | Some v => Found v
      | None => NameError name
      end
  end.

(** The truth value of an object, and its text inside an f-string. *)
Definition truth (o : pyobj) : bool :=
  match o with
  | ObjStr s => negb (String.eqb s "")
  | ObjBool b => b
  | ObjNone => false
  | ObjOther _ => true
  end.

Definition format (o : pyobj) : string :=
  match o with
  | ObjStr s => s
  | ObjBool true => "True"
  | ObjBool false => "False"
  | ObjNone => "None"
  | ObjOther text => text
  end.

Definition bind_names (names : list string) : namespace :=
  list_to_map (map (fun n => (n, ObjOther n)) names).

(** The names Python's [builtins] module binds. *)
Definition py_builtins : namespace :=
  <["True"%string := ObjBool true]> (<["False"%string := ObjBool false]>
  (<["None"%string := ObjNone]>
  (bind_names
    ["ArithmeticError"; "AssertionError"; "AttributeError"; "BaseException";
     "BaseExceptionGroup"; "BlockingIOError"; "BrokenPipeError";
     "BufferError"; "BytesWarning"; "ChildProcessError";
     "ConnectionAbortedError"; "ConnectionError"; "ConnectionRefusedError";
     "ConnectionResetError"; "DeprecationWarning"; "EOFError"; "Ellipsis";
     "EncodingWarning"; "EnvironmentError"; "Exception"; "ExceptionGroup";
     "False"; "FileExistsError"; "FileNotFoundError"; "FloatingPointError";
     "FutureWarning"; "GeneratorExit"; "IOError"; "ImportError";
     "ImportWarning"; "IndentationError"; "IndexError"; "InterruptedError";
     "IsADirectoryError"; "KeyError"; "KeyboardInterrupt"; "LookupError";
     "MemoryError"; "ModuleNotFoundError"; "NameError"; "None";
     "NotADirectoryError"; "NotImplemented"; "NotImplementedError";
     "OSError"; "OverflowError"; "PendingDeprecationWarning";
     "PermissionError"; "ProcessLookupError"; "RecursionError";
     "ReferenceError"; "ResourceWarning"; "RuntimeError"; "RuntimeWarning";
     "StopAsyncIteration"; "StopIteration"; "SyntaxError"; "SyntaxWarning";
     "SystemError"; "SystemExit"; "TabError"; "TimeoutError"; "True";
     "TypeError"; "UnboundLocalError"; "UnicodeDecodeError";
     "UnicodeEncodeError"; "UnicodeError"; "UnicodeTranslateError";
     "UnicodeWarning"; "UserWarning"; "ValueError"; "Warning";
     "ZeroDivisionError"; "__build_class__"; "__debug__"; "__doc__";
     "__import__"; "__loader__"; "__name__"; "__package__"; "__spec__";
     "abs"; "aiter"; "all"; "anext"; "any"; "ascii"; "bin"; "bool";
     "breakpoint"; "bytearray"; "bytes"; "callable"; "chr"; "classmethod";
     "compile"; "complex"; "copyright"; "credits"; "delattr"; "dict"; "dir";
     "divmod"; "enumerate"; "eval"; "exec"; "exit"; "filter"; "float";
     "format"; "frozenset"; "getattr"; "globals"; "hasattr"; "hash"; "help";
     "hex"; "id"; "input"; "int"; "isinstance"; "issubclass"; "iter"; "len";
     "license"; "list"; "locals"; "map"; "max"; "memoryview"; "min"; "next";
     "object"; "oct"; "open"; "ord"; "pow"; "print"; "property"; "quit";
     "range"; "repr"; "reversed"; "round"; "set"; "setattr"; "slice";
     "sorted"; "staticmethod"; "str"; "sum"; "super"; "tuple"; "type";
     "vars"; "zip"]%string))).

(** The globals of [api/models.py]: the attributes every module has, the
    imports of lines 1 to 3 and the ten classes. *)
Definition models_globals : namespace :=
  bind_names
    ["__name__"; "__doc__"; "__package__"; "__loader__"; "__spec__";
     "__file__"; "__cached__"; "__builtins__";
     "uuid"; "Model"; "IntegerField"; "CharField"; "TextField";
     "DateTimeField"; "BooleanField"; "UUIDField"; "ForeignKey"; "CASCADE";
     "settings";
     "Player"; "Elo"; "Result"; "Board"; "Piece"; "Game"; "Move";
     "Position"; "Claim"; "ClaimItem"]%string.

(** [class Player(Model)]. *)
Module Player.

Record t : Type := {
  guest : bool;
  user : option pk;
  uuid : N
}.

(** [Player(uuid=u)]: a guest without a user. *)
Definition new (u : N) : t := {| guest := true; user := None; uuid := u |}.

(** [Player.__str__]: [return f'Guest #{uuid}' if guest else user]. The
    three names are bare: none of them is an attribute of [self]. *)
Definition __str__ (globals builtins : namespace) (self : t) : named pyobj :=
  c ← load_global globals builtins "guest"%string;
  if truth c then
    u ← load_global globals builtins "uuid"%string;
    Found (ObjStr ("Guest #" ++ format u)%string)
  else
    load_global globals builtins "user"%string.

End Player.

(** [class Move(Model)]. *)
Module Move.

Record t : Type := {
  timestamp : timestamp;
  piece : pk;
  from_square : string;
  to_square : string
}.

(** [Move.__str__]: [return f'{from_square}{to_square}']. *)
Definition __str__ (globals builtins : namespace) (self : t) : named pyobj :=
  a ← load_global globals builtins "from_square"%string;
  b ← load_global globals builtins "to_square"%string;
  Found (ObjStr (format a ++ format b)%string).

End Move.

(** [class Position(Model)]. *)
Module Position.

Record t : Type := {
  piece_file : string;
  piece_rank : string;
  timestamp : timestamp;
  uuid : N;
  piece : pk
}.

(** [Position.__str__]: [return f'{piece_file}{piece_rank}']. *)
Definition __str__ (globals builtins : namespace) (self : t) : named pyobj :=
  a ← load_global globals builtins "piece_file"%string;
  b ← load_global globals builtins "piece_rank"%string;
  Found (ObjStr (format a ++ format b)%string).

End Position.

(* ===================================================================== *)
(** ** Binary64 arithmetic: digits, shifts and rounding *)
(* ===================================================================== *)

Lemma digits2_pos_size (p : positive) : digits2_pos p = Pos.size p.
Proof. induction p; simpl; congruence. Qed.

Lemma digits_bounds (p : positive) :
  2 ^ (Z.pos (digits2_pos p) - 1) <= Z.pos p < 2 ^ Z.pos (digits2_pos p).
Proof.
  rewrite digits2_pos_size. split.
  - pose proof (Pos.size_le p) as H.
    assert (Z.pos (2 ^ Pos.size p) <= Z.pos p~0) by lia.
    rewrite Pos2Z.inj_pow in H0.
    replace (Z.pos (Pos.size p)) with (Z.succ (Z.pos (Pos.size p) - 1)) in H0 by lia.
    rewrite Z.pow_succ_r in H0 by lia. lia.
  - pose proof (Pos.size_gt p) as H.
    assert (Z.pos p < Z.pos (2 ^ Pos.size p)) by lia.
    rewrite Pos2Z.inj_pow in H0. exact H0.
Qed.

(** digits are determined by the bracket *)
Lemma digits_unique (p : positive) (d : Z) :
  2 ^ (d - 1) <= Z.pos p < 2 ^ d -> Z.pos (digits2_pos p) = d.
Proof.
  intros [H1 H2]. pose proof (digits_bounds p) as [H3 H4].
  assert (0 < d).
  { destruct d as [|d|d]; [simpl in H2; lia | lia | rewrite Z.pow_neg_r in H2; lia]. }
  destruct (Z.lt_trichotomy (Z.pos (digits2_pos p)) d) as [Hlt | [Heq | Hgt]]; auto.
  - assert (2 ^ Z.pos (digits2_pos p) <= 2 ^ (d - 1)) by (apply Z.pow_le_mono_r; lia). lia.
  - assert (2 ^ d <= 2 ^ (Z.pos (digits2_pos p) - 1)) by (apply Z.pow_le_mono_r; lia). lia.
Qed.

Lemma shr_1_m (mrs : shr_record) :
  0 <= shr_m mrs -> shr_m (shr_1 mrs) = shr_m mrs / 2.
Proof.
  destruct mrs as [m r s]. simpl. intros H.
  destruct m as [|p|p]; try lia.
  - reflexivity.
  - destruct p; simpl.
    + rewrite Pos2Z.inj_xI. apply Z.div_unique with 1; lia.
    + rewrite Pos2Z.inj_xO. apply Z.div_unique with 0; lia.
    + reflexivity.
Qed.

Lemma pow2_xO (n : positive) : 2 ^ Z.pos n~0 = 2 ^ Z.pos n * 2 ^ Z.pos n.
Proof. rewrite Pos2Z.inj_xO, <- Z.pow_add_r by lia. f_equal. lia. Qed.

Lemma pow2_xI (n : positive) : 2 ^ Z.pos n~1 = 2 * (2 ^ Z.pos n * 2 ^ Z.pos n).
Proof.
  rewrite Pos2Z.inj_xI, <- Z.pow_add_r, <- Z.pow_succ_r by lia. f_equal. lia.
Qed.

Lemma iter_shr_1_m (n : positive) : forall mrs,
  0 <= shr_m mrs ->
  shr_m (iter_pos shr_1 n mrs) = shr_m mrs / 2 ^ Z.pos n.
Proof.
  induction n as [n IH | n IH |]; intros mrs H; simpl iter_pos.
  - assert (H1 : 0 <= shr_m (shr_1 mrs)).
    { rewrite shr_1_m by assumption. apply Z.div_pos; lia. }
    assert (H2 : 0 <= shr_m (iter_pos shr_1 n (shr_1 mrs))).
    { rewrite IH by assumption. apply Z.div_pos; lia. }
    rewrite IH, IH, shr_1_m by assumption.
    rewrite !Z.div_div by lia. rewrite pow2_xI. reflexivity.
  - assert (H2 : 0 <= shr_m (iter_pos shr_1 n mrs)).
    { rewrite IH by assumption. apply Z.div_pos; lia. }
    rewrite IH, IH by assumption.
    rewrite !Z.div_div by lia. rewrite pow2_xO. reflexivity.
  - rewrite shr_1_m by assumption. reflexivity.
Qed.


Lemma fexp_eq k : fexp prec emax k = fexp64 k.
Proof. reflexivity. Qed.


(** first step: truncation *)
Lemma shr_fexp_spec (m : positive) (e : Z) (l : location) :
  let n := fexp64 (mag m e) - e in
  exists mrs,
    shr_fexp prec emax (Z.pos m) e l = (mrs, e + Z.max n 0) /\
    shr_m mrs = Z.pos m / 2 ^ (Z.max n 0) /\
    (n <= 0 -> mrs = shr_record_of_loc (Z.pos m) l).
Proof.
  intros n. unfold shr_fexp. cbn [Zdigits2]. rewrite fexp_eq.
  fold (mag m e). fold n.
  destruct n as [|p|p] eqn:En; cbn [shr].
  - eexists. split; [f_equal; lia|]. split.
    + destruct l as [|[]]; simpl; rewrite Z.div_1_r; reflexivity.
    + reflexivity.
  - eexists. split; [f_equal; lia|]. split.
    + rewrite iter_shr_1_m.
      * destruct l as [|[]]; reflexivity.
      * destruct l as [|[]]; simpl; lia.
    + lia.
  - eexists. split; [f_equal; lia|]. split.
    + destruct l as [|[]]; simpl; rewrite Z.div_1_r; reflexivity.
    + reflexivity.
Qed.


Lemma shr_1_exact (m : Z) :
  0 <= m -> m mod 2 = 0 ->
  shr_1 {| shr_m := m; shr_r := false; shr_s := false |}
  = {| shr_m := m / 2; shr_r := false; shr_s := false |}.
Proof.
  intros H0 H. destruct m as [|p|p]; try lia; [reflexivity|].
  destruct p as [p|p|].
  - rewrite Pos2Z.inj_xI in H. rewrite Z.add_comm, Z.mul_comm, Z.mod_add in H by lia.
    discriminate.
  - simpl. f_equal. rewrite Pos2Z.inj_xO. rewrite Z.mul_comm, Z.div_mul by lia. reflexivity.
  - discriminate.
Qed.

Lemma mod_pow2_split (m a b : Z) :
  0 < a -> 0 < b -> m mod (a * b) = 0 -> m mod a = 0 /\ (m / a) mod b = 0.
Proof.
  intros Ha Hb H.
  apply Z.mod_divide in H; [|lia]. destruct H as [k Hk]. subst m.
  split.
  - replace (k * (a * b)) with ((k * b) * a) by ring. apply Z.mod_mul. lia.
  - replace (k * (a * b)) with ((k * b) * a) by ring.
    rewrite Z.div_mul by lia. apply Z.mod_mul. lia.
Qed.

Lemma iter_shr_1_exact (n : positive) : forall m,
  0 <= m -> m mod 2 ^ Z.pos n = 0 ->
  iter_pos shr_1 n {| shr_m := m; shr_r := false; shr_s := false |}
  = {| shr_m := m / 2 ^ Z.pos n; shr_r := false; shr_s := false |}.
Proof.
  induction n as [n IH | n IH |]; intros m H0 H; cbn [iter_pos].
  - rewrite pow2_xI in H.
    apply mod_pow2_split in H; [|lia|lia]. destruct H as [H1 H2].
    apply mod_pow2_split in H2; [|lia|lia]. destruct H2 as [H2 H3].
    rewrite shr_1_exact by assumption.
    rewrite IH; [|apply Z.div_pos; lia|assumption].
    rewrite IH; [|apply Z.div_pos; [apply Z.div_pos|]; lia|assumption].
    rewrite !Z.div_div by lia. rewrite pow2_xI. reflexivity.
  - rewrite pow2_xO in H.
    apply mod_pow2_split in H; [|lia|lia]. destruct H as [H1 H2].
    rewrite IH by assumption.
    rewrite IH; [|apply Z.div_pos; lia|assumption].
    rewrite !Z.div_div by lia. rewrite pow2_xO. reflexivity.
  - apply shr_1_exact; assumption.
Qed.

Lemma round_nearest_even_cases (m : Z) (l : location) :
  round_nearest_even m l = m \/ round_nearest_even m l = m + 1.
Proof.
  destruct l as [|[]]; simpl; auto. destruct (Z.even m); auto.
Qed.

(** The two steps of [binary_round_aux], with the shifts written as
    divisions. *)
Lemma binary_round_aux_spec (s : bool) (m : positive) (e : Z) (l : location) :
  let n := Z.max (fexp64 (mag m e) - e) 0 in
  let m1 := Z.pos m / 2 ^ n in
  let e1 := e + n in
  exists m2,
    (m2 = m1 \/ m2 = m1 + 1) /\
    (l = loc_Exact -> Z.pos m mod 2 ^ n = 0 -> m2 = m1) /\
    let n2 := Z.max (fexp64 (Zdigits2 m2 + e1) - e1) 0 in
    binary_round_aux prec emax s (Z.pos m) e l =
      match m2 / 2 ^ n2 with
      | Z0 => S754_zero s
      | Z.pos m3 =>
          if e1 + n2 <=? 971 then S754_finite s m3 (e1 + n2)
          else S754_infinity s
      | Z.neg _ => S754_nan
      end.
Proof.
  intros n m1 e1.
  destruct (shr_fexp_spec m e l) as (mrs & Hshr & Hm & Hid).
  fold n in Hshr, Hm. fold e1 in Hshr. fold m1 in Hm.
  exists (round_nearest_even (shr_m mrs) (loc_of_shr_record mrs)).
  assert (Hm1 : 0 <= m1) by (apply Z.div_pos; lia).
  split; [rewrite <- Hm; apply round_nearest_even_cases|].
  split.
  - intros -> Hdiv.
    assert (mrs = {| shr_m := m1; shr_r := false; shr_s := false |}) as ->.
    { revert Hshr. unfold shr_fexp. cbn [Zdigits2 shr_record_of_loc]. rewrite fexp_eq.
      fold (mag m e). unfold m1, e1, n in *.
      destruct (fexp64 (mag m e) - e) as [|p|p]; cbn [shr Z.max Z.compare] in *.
      - intros [= <-]. rewrite Z.div_1_r. reflexivity.
      - rewrite iter_shr_1_exact by (assumption || lia). intros [= <-]. reflexivity.
      - intros [= <-]. rewrite Z.div_1_r. reflexivity. }
    reflexivity.
  - intros n2. unfold binary_round_aux. rewrite Hshr.
    set (m2 := round_nearest_even (shr_m mrs) (loc_of_shr_record mrs)) in *.
    assert (Hm2 : 0 <= m2).
    { destruct (round_nearest_even_cases (shr_m mrs) (loc_of_shr_record mrs)) as [H|H];
        unfold m2; rewrite H, Hm; lia. }
    unfold shr_fexp. rewrite fexp_eq. fold n2.
    assert (Hrec : shr_m (fst (shr (shr_record_of_loc m2 loc_Exact) e1
                      (fexp64 (Zdigits2 m2 + e1) - e1))) = m2 / 2 ^ n2 /\
                   snd (shr (shr_record_of_loc m2 loc_Exact) e1
                      (fexp64 (Zdigits2 m2 + e1) - e1)) = e1 + n2).
    { unfold n2. destruct (fexp64 (Zdigits2 m2 + e1) - e1) as [|p|p]; cbn [shr fst snd Z.max Z.compare].
      - cbn. rewrite Z.div_1_r. split; [reflexivity|lia].
      - rewrite iter_shr_1_m by (cbn; lia). cbn [shr_record_of_loc shr_m]. split; [reflexivity|lia].
      - cbn. rewrite Z.div_1_r. split; [reflexivity|lia]. }
    destruct (shr (shr_record_of_loc m2 loc_Exact) e1 (fexp64 (Zdigits2 m2 + e1) - e1))
      as [mrs'' e''].
    cbn [fst snd] in Hrec. destruct Hrec as [-> ->]. reflexivity.
Qed.


Lemma Zdigits2_unique (z d : Z) :
  2 ^ (d - 1) <= z < 2 ^ d -> 0 < z -> Zdigits2 z = d.
Proof.
  intros H Hz. destruct z as [|p|p]; try lia. cbn. apply digits_unique. exact H.
Qed.

Lemma div_pow2_bounds (z d n : Z) :
  0 <= n <= d - 1 -> 2 ^ (d - 1) <= z < 2 ^ d ->
  2 ^ (d - n - 1) <= z / 2 ^ n < 2 ^ (d - n).
Proof.
  intros Hn [H1 H2].
  assert (Hp : 0 < 2 ^ n) by (apply Z.pow_pos_nonneg; lia).
  split.
  - apply Z.div_le_lower_bound; [lia|].
    rewrite <- Z.pow_add_r by lia. replace (n + (d - n - 1)) with (d - 1) by lia. exact H1.
  - apply Z.div_lt_upper_bound; [lia|].
    rewrite <- Z.pow_add_r by lia. replace (n + (d - n)) with d by lia. exact H2.
Qed.

(** Rounding a value of the normal range: the result is a normal number,
    either at the magnitude of the input or the next power of two. *)
Lemma binary_round_aux_normal (s : bool) (m : positive) (e : Z) (l : location) :
  let D := mag m e in
  e <= D - 53 -> -1021 <= D <= 1023 ->
  exists m3 e3,
    binary_round_aux prec emax s (Z.pos m) e l = S754_finite s m3 e3 /\
    Z.pos (digits2_pos m3) = 53 /\
    ((e3 = D - 53 /\
      (Z.pos m3 = Z.pos m / 2 ^ (D - 53 - e) \/
       Z.pos m3 = Z.pos m / 2 ^ (D - 53 - e) + 1) /\
      (l = loc_Exact -> Z.pos m mod 2 ^ (D - 53 - e) = 0 ->
       Z.pos m3 = Z.pos m / 2 ^ (D - 53 - e))) \/
     (e3 = D - 52 /\ Z.pos m3 = 2 ^ 52 /\
      Z.pos m / 2 ^ (D - 53 - e) = 2 ^ 53 - 1 /\
      ~ (l = loc_Exact /\ Z.pos m mod 2 ^ (D - 53 - e) = 0))).
Proof.
  intros D He HD.
  destruct (binary_round_aux_spec s m e l) as (m2 & Hm2 & Hex & Hres).
  cbv zeta in Hres. fold D in Hm2, Hex, Hres.
  assert (Hf : fexp64 D = D - 53) by (unfold fexp64; lia).
  rewrite Hf in *.
  replace (Z.max (D - 53 - e) 0) with (D - 53 - e) in * by lia.
  set (n := D - 53 - e) in *.
  replace (e + n) with (D - 53) in * by lia.
  pose proof (digits_bounds m) as Hd.
  set (d := Z.pos (digits2_pos m)) in *.
  assert (HdD : d = D - e) by (unfold D, mag; fold d; lia).
  assert (Hm1 : 2 ^ 52 <= Z.pos m / 2 ^ n < 2 ^ 53).
  { pose proof (div_pow2_bounds (Z.pos m) d n) as H.
    replace (d - n - 1) with 52 in H by lia. replace (d - n) with 53 in H by lia.
    apply H; [lia|exact Hd]. }
  set (m1 := Z.pos m / 2 ^ n) in *.
  destruct (Z.eq_dec m2 (2 ^ 53)) as [Heq | Hne].
  - (* rounded up to the next power of two *)
    assert (Hm1' : m1 = 2 ^ 53 - 1) by lia.
    rewrite Heq in Hres. cbn [Zdigits2] in Hres.
    change (Zdigits2 (2 ^ 53)) with 54 in Hres.
    replace (fexp64 (54 + (D - 53)) - (D - 53)) with 1 in Hres by (unfold fexp64; lia).
    change (Z.max 1 0) with 1 in Hres. change (2 ^ 53 / 2 ^ 1) with (Z.pos 4503599627370496) in Hres.
    cbv iota beta in Hres.
    replace (D - 53 + 1 <=? 971) with true in Hres by (symmetry; apply Z.leb_le; lia).
    exists 4503599627370496%positive, (D - 53 + 1). split; [exact Hres|].
    split; [reflexivity|]. right. split; [lia|]. split; [reflexivity|].
    split; [exact Hm1'|]. intros [Hl Hdiv]. specialize (Hex Hl Hdiv). lia.
  - assert (Hb : 2 ^ 52 <= m2 < 2 ^ 53) by lia.
    assert (Hdig : Zdigits2 m2 = 53) by (apply Zdigits2_unique; [exact Hb|lia]).
    rewrite Hdig in Hres.
    replace (fexp64 (53 + (D - 53)) - (D - 53)) with 0 in Hres by (unfold fexp64; lia).
    change (Z.max 0 0) with 0 in Hres. change (2 ^ 0) with 1 in Hres. rewrite Z.div_1_r, Z.add_0_r in Hres.
    destruct m2 as [|m3|m3]; try lia.
    replace (D - 53 <=? 971) with true in Hres by (symmetry; apply Z.leb_le; lia).
    exists m3, (D - 53). split; [exact Hres|].
    split; [exact Hdig|]. left. split; [reflexivity|]. split; [exact Hm2|exact Hex].
Qed.


Lemma valid_finite_iff (s : bool) (m : positive) (e : Z) :
  valid (S754_finite s m e) = true <-> fexp64 (mag m e) = e /\ e <= 971.
Proof.
  unfold valid, valid_binary, bounded, canonical_mantissa. rewrite fexp_eq.
  fold (mag m e). rewrite andb_true_iff, Z.eqb_eq, Z.leb_le. reflexivity.
Qed.

Lemma Zdigits2_le (z k : Z) : 0 <= k -> 0 <= z < 2 ^ k -> Zdigits2 z <= k.
Proof.
  intros Hk [H0 H]. destruct z as [|p|p]; [cbn; lia| |lia]. cbn.
  pose proof (digits_bounds p) as [H1 _].
  destruct (Z.le_gt_cases (Z.pos (digits2_pos p)) k) as [|Hgt]; [assumption|].
  assert (2 ^ k <= 2 ^ (Z.pos (digits2_pos p) - 1)) by (apply Z.pow_le_mono_r; lia). lia.
Qed.

(** Rounding in general: below the overflow threshold the result is a valid
    finite number with the sign asked for, and its magnitude exceeds that of
    the input by at most one. *)
Lemma binary_round_aux_bounded (s : bool) (m : positive) (e : Z) (l : location) :
  let D := mag m e in
  e <= fexp64 D -> D <= 1023 ->
  bounded_by (Z.max (D + 1) (-1073)) (binary_round_aux prec emax s (Z.pos m) e l) /\
  sign_of (binary_round_aux prec emax s (Z.pos m) e l) = s.
Proof.
  intros D He HD.
  destruct (Z.le_gt_cases (-1021) D) as [Hn | Hsub].
  - destruct (binary_round_aux_normal s m e l) as (m3 & e3 & -> & Hd & Hc).
    + fold D. unfold fexp64 in He. lia.
    + fold D. lia.
    + fold D in Hc. split; [|reflexivity]. split.
      * apply valid_finite_iff. unfold mag. rewrite Hd. unfold fexp64. lia.
      * unfold mag. rewrite Hd. lia.
  - destruct (binary_round_aux_spec s m e l) as (m2 & Hm2 & _ & Hres).
    cbv zeta in Hres. fold D in Hm2, Hres.
    assert (Hf : fexp64 D = -1074) by (unfold fexp64; lia).
    rewrite Hf in *.
    replace (Z.max (-1074 - e) 0) with (-1074 - e) in * by lia.
    set (n := -1074 - e) in *.
    replace (e + n) with (-1074) in * by lia.
    pose proof (digits_bounds m) as Hd.
    set (d := Z.pos (digits2_pos m)) in *.
    assert (HdD : d = D - e) by (unfold D, mag; fold d; lia).
    assert (Hm1 : 0 <= Z.pos m / 2 ^ n < 2 ^ 52).
    { split; [apply Z.div_pos; lia|].
      apply Z.div_lt_upper_bound; [apply Z.pow_pos_nonneg; lia|].
      rewrite <- Z.pow_add_r by lia.
      assert (2 ^ d <= 2 ^ (n + 52)) by (apply Z.pow_le_mono_r; lia). lia. }
    set (m1 := Z.pos m / 2 ^ n) in *.
    assert (Hb : 0 <= m2 <= 2 ^ 52) by lia.
    assert (Hdig : Zdigits2 m2 <= 53) by (apply Zdigits2_le; lia).
    assert (Hdig0 : 0 <= Zdigits2 m2) by (destruct m2; cbn; lia).
    replace (Z.max (fexp64 (Zdigits2 m2 + -1074) - -1074) 0) with 0 in Hres
      by (unfold fexp64; lia).
    change (2 ^ 0) with 1 in Hres. rewrite Z.div_1_r, Z.add_0_r in Hres.
    rewrite Hres. destruct m2 as [|m3|m3]; try lia.
    + split; [split; [reflexivity|exact I]|reflexivity].
    + change (-1074 <=? 971) with true. cbv iota. split; [|reflexivity]. split.
      * apply valid_finite_iff. cbn [Zdigits2] in Hdig. unfold mag, fexp64. lia.
      * cbn [Zdigits2] in Hdig.
        assert (Z.pos (digits2_pos m3) + -1074 <= Z.max (D + 1) (-1073)); [|exact H].
        (* digits of m2 <= digits of m1 + 1 *)
        destruct (Z.le_gt_cases D (-1074)) as [Htiny | Hbig].
        -- assert (m1 = 0).
           { unfold m1. apply Z.div_small. split; [lia|].
             assert (2 ^ d <= 2 ^ n) by (apply Z.pow_le_mono_r; lia). lia. }
           assert (Z.pos m3 = 1) by lia.
           assert (m3 = 1%positive) by lia. subst m3. cbn. lia.
        -- assert (Z.pos m3 < 2 ^ (D + 1074) + 1).
           { assert (m1 < 2 ^ (D + 1074)).
             { unfold m1. apply Z.div_lt_upper_bound; [apply Z.pow_pos_nonneg; lia|].
               rewrite <- Z.pow_add_r by lia.
               replace (n + (D + 1074)) with d by lia. lia. }
             lia. }
           assert (Z.pos (digits2_pos m3) <= D + 1074 + 1); [|lia].
           pose proof (digits_bounds m3) as [H1 _].
           destruct (Z.le_gt_cases (Z.pos (digits2_pos m3)) (D + 1074 + 1)) as [|Hgt];
             [assumption|].
           assert (2 ^ (D + 1074 + 1) <= 2 ^ (Z.pos (digits2_pos m3) - 1))
             by (apply Z.pow_le_mono_r; lia).
           assert (2 ^ (D + 1074 + 1) = 2 * 2 ^ (D + 1074))
             by (replace (D + 1074 + 1) with (Z.succ (D + 1074)) by lia;
                 rewrite Z.pow_succ_r by lia; reflexivity).
           assert (0 < 2 ^ (D + 1074)) by (apply Z.pow_pos_nonneg; lia).
           lia.
Qed.


Lemma iter_xO_value (d m : positive) :
  Z.pos (Pos.iter xO m d) = Z.pos m * 2 ^ Z.pos d.
Proof.
  induction d as [|d IH] using Pos.peano_ind.
  - cbn. lia.
  - rewrite Pos.iter_succ, Pos2Z.inj_xO, IH, Pos2Z.inj_succ, Z.pow_succ_r by lia. ring.
Qed.

Lemma iter_xO_digits (d m : positive) :
  Z.pos (digits2_pos (Pos.iter xO m d)) = Z.pos (digits2_pos m) + Z.pos d.
Proof.
  induction d as [|d IH] using Pos.peano_ind.
  - cbn. lia.
  - rewrite Pos.iter_succ. cbn [digits2_pos]. rewrite Pos2Z.inj_succ, IH. lia.
Qed.

(** Aligning to a smaller exponent keeps value and magnitude. *)
Lemma shl_align_spec (m : positive) (e e' : Z) :
  exists m', shl_align m e e' = (m', Z.min e e') /\
    Z.pos m' = Z.pos m * 2 ^ (e - Z.min e e') /\
    mag m' (Z.min e e') = mag m e.
Proof.
  unfold shl_align. destruct (e' - e) as [|d|d] eqn:E.
  - exists m. replace (Z.min e e') with e by lia. rewrite Z.sub_diag. split; [reflexivity|].
    split; [cbn; lia|reflexivity].
  - exists m. replace (Z.min e e') with e by lia. rewrite Z.sub_diag. split; [reflexivity|].
    split; [cbn; lia|reflexivity].
  - exists (Pos.iter xO m d). replace (Z.min e e') with e' by lia.
    split; [reflexivity|]. split.
    + rewrite iter_xO_value. f_equal. f_equal. lia.
    + unfold mag. rewrite iter_xO_digits. lia.
Qed.

Lemma binary_round_bounded (s : bool) (m : positive) (e : Z) :
  mag m e <= 1023 ->
  bounded_by (Z.max (mag m e + 1) (-1073)) (binary_round prec emax s m e) /\
  sign_of (binary_round prec emax s m e) = s.
Proof.
  intros HD. unfold binary_round. rewrite fexp_eq. fold (mag m e).
  destruct (shl_align_spec m e (fexp64 (mag m e))) as (m' & -> & _ & Hmag).
  pose proof (binary_round_aux_bounded s m' (Z.min e (fexp64 (mag m e))) loc_Exact) as H.
  cbv zeta in H. rewrite Hmag in H. apply H; lia.
Qed.

(** A number that fits the format is returned as it is, left-aligned. *)
Lemma binary_round_exact (s : bool) (m : positive) (e : Z) :
  -1021 <= mag m e <= 1023 -> Z.pos (digits2_pos m) <= 53 ->
  exists m3,
    binary_round prec emax s m e = S754_finite s m3 (mag m e - 53) /\
    Z.pos m3 = Z.pos m * 2 ^ (53 - Z.pos (digits2_pos m)).
Proof.
  intros HD Hd. unfold binary_round. rewrite fexp_eq. fold (mag m e).
  assert (Hf : fexp64 (mag m e) = mag m e - 53) by (unfold fexp64; lia).
  rewrite Hf.
  destruct (shl_align_spec m e (mag m e - 53)) as (m' & -> & Hv & Hmag).
  assert (Hmin : Z.min e (mag m e - 53) = mag m e - 53) by (unfold mag; lia).
  rewrite Hmin in *.
  destruct (binary_round_aux_normal s m' (mag m e - 53) loc_Exact)
    as (m3 & e3 & -> & _ & Hc).
  - rewrite Hmag. lia.
  - rewrite Hmag. lia.
  - rewrite Hmag in Hc. rewrite Z.sub_diag in Hc. change (2 ^ 0) with 1 in Hc.
    rewrite Z.div_1_r in Hc.
    destruct Hc as [(-> & _ & Hex) | (_ & _ & _ & Hbad)].
    + exists m3. split; [reflexivity|]. rewrite Hex; [|reflexivity|apply Z.mod_1_r].
      rewrite Hv. f_equal. f_equal. unfold mag. lia.
    + exfalso. apply Hbad. split; [reflexivity|apply Z.mod_1_r].
Qed.


Lemma bounded_by_mono (k k' : Z) (f : float) :
  k <= k' -> bounded_by k f -> bounded_by k' f.
Proof.
  intros Hk [Hv Hb]. split; [exact Hv|].
  destruct f; try exact Hb. lia.
Qed.

Lemma bounded_by_finite (k : Z) (f : float) : bounded_by k f -> is_finite f = true.
Proof. intros [_ H]. destruct f; try reflexivity; contradiction. Qed.

Lemma mag_lower (m : positive) (e : Z) : e + 1 <= mag m e.
Proof. unfold mag. lia. Qed.

Lemma valid_mag_lower (s : bool) (m : positive) (e : Z) :
  valid (S754_finite s m e) = true -> -1073 <= mag m e.
Proof.
  intros H. apply valid_finite_iff in H. destruct H as [H _].
  unfold fexp64 in H. pose proof (mag_lower m e). lia.
Qed.

Lemma pos_lt_pow_mag (m : positive) (e : Z) : Z.pos m < 2 ^ (mag m e - e).
Proof.
  unfold mag. replace (Z.pos (digits2_pos m) + e - e) with (Z.pos (digits2_pos m)) by lia.
  apply digits_bounds.
Qed.

Lemma binary_normalize_bounded (M e k : Z) :
  Z.abs M < 2 ^ (k - e) -> e <= k -> k <= 1023 -> -1074 <= k ->
  bounded_by (k + 1) (binary_normalize prec emax M e false).
Proof.
  intros HM Hek Hk Hk'.
  assert (Hneed : forall s p, Z.pos p < 2 ^ (k - e) ->
            bounded_by (k + 1) (binary_round prec emax s p e)).
  { intros s p Hp.
    assert (Hmag : mag p e <= k).
    { unfold mag. assert (Zdigits2 (Z.pos p) <= k - e) by (apply Zdigits2_le; lia).
      cbn in H. lia. }
    apply bounded_by_mono with (Z.max (mag p e + 1) (-1073)); [lia|].
    apply binary_round_bounded. lia. }
  destruct M as [|p|p]; cbn [binary_normalize].
  - split; [reflexivity|exact I].
  - apply Hneed. lia.
  - apply Hneed. lia.
Qed.

Lemma Z2F_bounded (z k : Z) :
  Z.abs z < 2 ^ k -> 0 <= k <= 1023 -> bounded_by (k + 1) (Z2F z).
Proof.
  intros Hz Hk. unfold Z2F. apply binary_normalize_bounded; try lia.
  rewrite Z.sub_0_r. exact Hz.
Qed.

Lemma float_of_int_ok (z k : Z) :
  Z.abs z < 2 ^ k -> 0 <= k <= 1023 ->
  float_of_int z = Ok (Z2F z) /\ bounded_by (k + 1) (Z2F z).
Proof.
  intros Hz Hk. pose proof (Z2F_bounded z k Hz Hk) as H. split; [|exact H].
  unfold float_of_int. destruct H as [_ H]. destruct (Z2F z); try contradiction; reflexivity.
Qed.

Lemma cond_Zopp_abs (s : bool) (z : Z) : Z.abs (cond_Zopp s z) = Z.abs z.
Proof. destruct s; cbn; lia. Qed.

(** The sum and the difference of two finite numbers below [2^ka] and
    [2^kb] are finite and below [2^(max ka kb + 2)]. *)
Lemma fadd_fsub_bounded (ka kb : Z) (a b : float) :
  bounded_by ka a -> bounded_by kb b -> Z.max ka kb <= 1022 ->
  bounded_by (Z.max ka kb + 2) (fadd a b) /\
  bounded_by (Z.max ka kb + 2) (fsub a b).
Proof.
  intros [Hva Ha] [Hvb Hb] Hk.
  destruct a as [sa | sa | | sa ma ea]; try contradiction;
    destruct b as [sb | sb | | sb mb eb]; try contradiction.
  - split; (split; [|destruct sa, sb; exact I]); destruct sa, sb; reflexivity.
  - split; (split; [exact Hvb|cbn; lia]).
  - split; (split; [exact Hva|cbn; lia]).
  - pose proof (valid_mag_lower _ _ _ Hva) as La.
    pose proof (valid_mag_lower _ _ _ Hvb) as Lb.
    unfold fadd, fsub. cbn [SFadd SFsub].
    set (ez := Z.min ea eb).
    destruct (shl_align_spec ma ea ez) as (ma' & Ea & Hma & Hmaga).
    destruct (shl_align_spec mb eb ez) as (mb' & Eb & Hmb & Hmagb).
    replace (Z.min ea ez) with ez in * by lia.
    replace (Z.min eb ez) with ez in * by lia.
    rewrite Ea, Eb. cbn [fst].
    set (k := Z.max ka kb) in *.
    pose proof (mag_lower ma ea). pose proof (mag_lower mb eb).
    assert (Hpa : Z.pos ma' < 2 ^ (k - ez)).
    { pose proof (pos_lt_pow_mag ma' ez) as Hp. rewrite Hmaga in Hp.
      assert (2 ^ (mag ma ea - ez) <= 2 ^ (k - ez)) by (apply Z.pow_le_mono_r; lia). lia. }
    assert (Hpb : Z.pos mb' < 2 ^ (k - ez)).
    { pose proof (pos_lt_pow_mag mb' ez) as Hp. rewrite Hmagb in Hp.
      assert (2 ^ (mag mb eb - ez) <= 2 ^ (k - ez)) by (apply Z.pow_le_mono_r; lia). lia. }
    assert (Hpow : 2 ^ (k + 1 - ez) = 2 * 2 ^ (k - ez)).
    { replace (k + 1 - ez) with (Z.succ (k - ez)) by lia. apply Z.pow_succ_r. lia. }
    split; (replace (k + 2) with (k + 1 + 1) by lia;
            apply binary_normalize_bounded; [|lia|lia|lia]);
      rewrite Hpow; destruct sa, sb; cbn [cond_Zopp]; lia.
Qed.

(** The product of two finite numbers below [2^ka] and [2^kb] is finite and
    below [2^(ka + kb + 1)]. *)
Lemma fmul_bounded (ka kb : Z) (a b : float) :
  bounded_by ka a -> bounded_by kb b -> ka + kb <= 1023 ->
  bounded_by (Z.max (ka + kb + 1) (-1073)) (fmul a b).
Proof.
  intros [Hva Ha] [Hvb Hb] Hk.
  destruct a as [sa | sa | | sa ma ea]; try contradiction;
    destruct b as [sb | sb | | sb mb eb]; try contradiction;
    try (split; [reflexivity|exact I]).
  unfold fmul. cbn [SFmul].
  pose proof (digits_bounds ma) as [A1 A2]. pose proof (digits_bounds mb) as [B1 B2].
  set (da := Z.pos (digits2_pos ma)) in *. set (db := Z.pos (digits2_pos mb)) in *.
  assert (Hprod : 2 ^ (da + db - 2) <= Z.pos (ma * mb) < 2 ^ (da + db)).
  { rewrite Pos2Z.inj_mul.
    replace (da + db - 2) with ((da - 1) + (db - 1)) by lia.
    rewrite !Z.pow_add_r by (unfold da, db; lia).
    assert (0 < 2 ^ (da - 1)) by (apply Z.pow_pos_nonneg; unfold da; lia).
    assert (0 < 2 ^ (db - 1)) by (apply Z.pow_pos_nonneg; unfold db; lia).
    split; nia. }
  assert (Hd : da + db - 1 <= Z.pos (digits2_pos (ma * mb)) <= da + db).
  { pose proof (digits_bounds (ma * mb)) as [P1 P2].
    set (dp := Z.pos (digits2_pos (ma * mb))) in *.
    split.
    - destruct (Z.le_gt_cases (da + db - 1) dp); [assumption|].
      assert (2 ^ dp <= 2 ^ (da + db - 2)) by (apply Z.pow_le_mono_r; unfold dp; lia). lia.
    - destruct (Z.le_gt_cases dp (da + db)); [assumption|].
      assert (2 ^ (da + db) <= 2 ^ (dp - 1)) by (apply Z.pow_le_mono_r; unfold da, db; lia). lia. }
  apply valid_finite_iff in Hva, Hvb. unfold mag, fexp64 in *. fold da db in Hva, Hvb, Ha, Hb.
  apply bounded_by_mono with
    (Z.max (mag (ma * mb) (ea + eb) + 1) (-1073)); [unfold mag; lia|].
  apply binary_round_aux_bounded; unfold mag, fexp64; lia.
Qed.


Lemma Zdigits2_ge (z k : Z) : 0 <= k -> 2 ^ k <= z -> k + 1 <= Zdigits2 z.
Proof.
  intros Hk H. assert (0 < 2 ^ k) by (apply Z.pow_pos_nonneg; lia).
  destruct z as [|p|p]; try lia. cbn.
  pose proof (digits_bounds p) as [_ H2].
  destruct (Z.le_gt_cases (k + 1) (Z.pos (digits2_pos p))) as [|Hlt]; [assumption|].
  assert (2 ^ Z.pos (digits2_pos p) <= 2 ^ k) by (apply Z.pow_le_mono_r; lia). lia.
Qed.

(** Rounding a value of the normal range after left alignment. *)
Lemma binary_round_normal (s : bool) (m : positive) (e : Z) :
  -1021 <= mag m e <= 1023 ->
  exists m3 e3,
    binary_round prec emax s m e = S754_finite s m3 e3 /\
    Z.pos (digits2_pos m3) = 53 /\
    mag m e <= mag m3 e3 <= mag m e + 1.
Proof.
  intros HD. unfold binary_round. rewrite fexp_eq. fold (mag m e).
  destruct (shl_align_spec m e (fexp64 (mag m e))) as (m' & -> & _ & Hmag).
  destruct (binary_round_aux_normal s m' (Z.min e (fexp64 (mag m e))) loc_Exact)
    as (m3 & e3 & -> & Hd & Hc).
  - rewrite Hmag. unfold fexp64. lia.
  - rewrite Hmag. lia.
  - exists m3, e3. split; [reflexivity|]. split; [exact Hd|].
    rewrite Hmag in Hc. unfold mag at 2 3. rewrite Hd.
    destruct Hc as [(-> & _) | (-> & _)]; lia.
Qed.

(** [1.0 + p] for a finite non-negative [p] below [2^1000]: a normal number,
    at least one. *)
Lemma fadd_one_nonneg (p : float) :
  bounded_by 1000 p -> nonneg p = true ->
  exists m e, fadd one p = S754_finite false m e /\
    Z.pos (digits2_pos m) = 53 /\ -52 <= e <= 949.
Proof.
  intros [Hv Hb] Hn.
  destruct p as [sp | sp | | sp mp ep]; try contradiction.
  - destruct sp; [discriminate|]. exists 4503599627370496%positive, (-52).
    split; [reflexivity|]. split; [reflexivity|lia].
  - destruct sp; [discriminate|].
    unfold fadd, one. cbn [SFadd cond_Zopp].
    set (m1 := 4503599627370496%positive).
    set (ez := Z.min (-52) ep).
    destruct (shl_align_spec m1 (-52) ez) as (ma' & Ea & Hma & Hmaga).
    destruct (shl_align_spec mp ep ez) as (mb' & Eb & Hmb & Hmagb).
    replace (Z.min (-52) ez) with ez in * by lia.
    replace (Z.min ep ez) with ez in * by lia.
    rewrite Ea, Eb. cbn [fst].
    change (Z.pos ma' + Z.pos mb') with (Z.pos (ma' + mb')).
    cbn [binary_normalize].
    pose proof (valid_mag_lower _ _ _ Hv) as Lb.
    pose proof (mag_lower mp ep).
    assert (Hlow : 2 ^ (- ez) <= Z.pos (ma' + mb')).
    { rewrite Pos2Z.inj_add, Hma. change (Z.pos m1) with (2 ^ 52).
      rewrite <- Z.pow_add_r by lia. replace (52 + (-52 - ez)) with (- ez) by lia. lia. }
    assert (Hup : Z.pos (ma' + mb') < 2 ^ (1001 - ez)).
    { rewrite Pos2Z.inj_add.
      pose proof (pos_lt_pow_mag ma' ez) as Hpa. rewrite Hmaga in Hpa.
      change (mag m1 (-52)) with 1 in Hpa.
      pose proof (pos_lt_pow_mag mb' ez) as Hpb. rewrite Hmagb in Hpb.
      assert (2 ^ (1 - ez) <= 2 ^ (1000 - ez)) by (apply Z.pow_le_mono_r; lia).
      assert (2 ^ (mag mp ep - ez) <= 2 ^ (1000 - ez)) by (apply Z.pow_le_mono_r; lia).
      replace (1001 - ez) with (Z.succ (1000 - ez)) by lia.
      rewrite Z.pow_succ_r by lia. lia. }
    assert (Hmag : 1 <= mag (ma' + mb') ez <= 1001).
    { unfold mag. split.
      - assert (- ez + 1 <= Zdigits2 (Z.pos (ma' + mb'))) by (apply Zdigits2_ge; lia).
        cbn in H0. lia.
      - assert (Zdigits2 (Z.pos (ma' + mb')) <= 1001 - ez) by (apply Zdigits2_le; lia).
        cbn in H0. lia. }
    destruct (binary_round_normal false (ma' + mb') ez) as (m3 & e3 & -> & Hd & Hm); [lia|].
    exists m3, e3. split; [reflexivity|]. split; [exact Hd|].
    unfold mag at 2 3 in Hm. lia.
Qed.

Lemma new_location_zero (n : Z) : new_location n 0 = loc_Exact.
Proof.
  unfold new_location, new_location_even, new_location_odd.
  destruct (Z.even n); reflexivity.
Qed.

(** [1.0 / s] for a normal [s >= 1]: a normal positive number, at most
    one. *)
Lemma fdiv_one_ge_one (m : positive) (e : Z) :
  Z.pos (digits2_pos m) = 53 -> -52 <= e <= 949 ->
  exists m3 e3,
    fdiv one (S754_finite false m e) = S754_finite false m3 e3 /\
    Z.pos (digits2_pos m3) = 53 /\
    -105 - e <= e3 /\
    (e3 <= -53 \/ (e3 = -52 /\ m3 = 4503599627370496%positive)).
Proof.
  intros Hd He.
  pose proof (digits_bounds m) as Hm. rewrite Hd in Hm. change (53 - 1) with 52 in Hm.
  unfold fdiv, one. cbn [SFdiv xorb]. unfold SFdiv_core_binary. cbn [Zdigits2].
  rewrite Hd. change (Z.pos (digits2_pos 4503599627370496)) with 53.
  rewrite fexp_eq.
  replace (53 + -52 - (53 + e)) with (-52 - e) by lia.
  replace (Z.min (fexp64 (-52 - e)) (-52 - e)) with (-105 - e) by (unfold fexp64; lia).
  replace (-52 - e - (-105 - e)) with 53 by lia.
  change (Z.shiftl 4503599627370496 53) with (2 ^ 105).
  pose proof (Z.div_eucl_eq (2 ^ 105) (Z.pos m) ltac:(lia)) as Hdiv.
  pose proof (Z.mod_pos_bound (2 ^ 105) (Z.pos m) ltac:(lia)) as Hmod.
  unfold Z.modulo in Hmod.
  destruct (Z.div_eucl (2 ^ 105) (Z.pos m)) as [q r].
  assert (Hq : 2 ^ 52 <= q <= 2 ^ 53).
  { change (2 ^ 105) with (2 ^ 52 * 2 ^ 53) in Hdiv. nia. }
  destruct q as [|q|q]; try lia.
  destruct (Z.eq_dec (Z.pos q) (2 ^ 53)) as [Heq | Hne].
  - (* the divisor is a power of two and the quotient is exact *)
    assert (Hr : r = 0) by (change (2 ^ 105) with (2 ^ 52 * 2 ^ 53) in Hdiv; nia).
    subst r. rewrite new_location_zero.
    assert (q = 9007199254740992%positive) by lia. subst q.
    destruct (binary_round_aux_normal false 9007199254740992 (-105 - e) loc_Exact)
      as (m3 & e3 & -> & Hd3 & Hc).
    + unfold mag. cbn. lia.
    + unfold mag. cbn. lia.
    + exists m3, e3. split; [reflexivity|]. split; [exact Hd3|].
      change (mag 9007199254740992 (-105 - e)) with (54 + (-105 - e)) in Hc.
      replace (54 + (-105 - e) - 53 - (-105 - e)) with 1 in Hc by lia.
      destruct Hc as [(-> & _ & Hex) | (_ & _ & Hbad & _)].
      * specialize (Hex eq_refl eq_refl). vm_compute in Hex.
        injection Hex as ->. split; [lia|].
        destruct (Z.eq_dec e (-52)) as [-> | Hne0];
          [right; split; reflexivity|left; lia].
      * vm_compute in Hbad. discriminate.
  - assert (Hdq : Z.pos (digits2_pos q) = 53).
    { apply digits_unique. change (53 - 1) with 52. lia. }
    destruct (binary_round_aux_normal false q (-105 - e) (new_location (Z.pos m) r))
      as (m3 & e3 & -> & Hd3 & Hc).
    + unfold mag. lia.
    + unfold mag. lia.
    + exists m3, e3. split; [reflexivity|]. split; [exact Hd3|].
      unfold mag in Hc. rewrite Hdq in Hc.
      destruct Hc as [(-> & _) | (-> & Hm3 & _)]; [lia|].
      split; [lia|].
      destruct (Z.eq_dec e (-52)) as [-> | Hne0]; [right; split; [reflexivity|lia]|left; lia].
Qed.


(** [a / 400] for an [int] below [400 * 2^j]: a finite float below
    [2^(j+1)]. *)
Lemma int_truediv_400 (a j : Z) :
  Z.abs a < 400 * 2 ^ j -> 0 <= j <= 50 ->
  exists q, int_truediv a 400 = Ok q /\ bounded_by (j + 1) q.
Proof.
  intros Ha Hj. unfold int_truediv. change (400 =? 0) with false. cbv iota.
  destruct (Z.eqb_spec a 0) as [-> | Hne].
  - eexists. split; [reflexivity|]. split; [reflexivity|exact I].
  - unfold SFdiv_core_binary. rewrite fexp_eq.
    change (Z.abs 400) with 400. change (Zdigits2 400) with 9.
    assert (Hpos : 0 < Z.abs a) by lia.
    destruct (Z.abs a) as [|p|p] eqn:Eabs; try lia.
    cbn [Zdigits2]. pose proof (digits_bounds p) as Hp.
    set (d := Z.pos (digits2_pos p)) in *.
    assert (H2j : 0 < 2 ^ j) by (apply Z.pow_pos_nonneg; lia).
    assert (Hd : 1 <= d <= j + 9).
    { split; [unfold d; lia|].
      destruct (Z.le_gt_cases d (j + 9)) as [|Hgt]; [assumption|].
      assert (2 ^ (j + 9) <= 2 ^ (d - 1)) by (apply Z.pow_le_mono_r; lia).
      rewrite Z.pow_add_r in H by lia. change (2 ^ 9) with 512 in H. lia. }
    replace (d + 0 - (9 + 0)) with (d - 9) by lia.
    replace (Z.min (fexp64 (d - 9)) (0 - 0)) with (d - 62) by (unfold fexp64; lia).
    replace (0 - 0 - (d - 62)) with (62 - d) by lia.
    destruct (62 - d) as [|sh|sh] eqn:Esh; try lia.
    rewrite Z.shiftl_mul_pow2 by lia. rewrite <- Esh.
    assert (Hm' : 2 ^ 61 <= Z.pos p * 2 ^ (62 - d) < 2 ^ 62).
    { destruct Hp as [P1 P2].
      assert (0 < 2 ^ (62 - d)) by (apply Z.pow_pos_nonneg; lia).
      assert (E1 : 2 ^ 61 = 2 ^ (d - 1) * 2 ^ (62 - d))
        by (rewrite <- Z.pow_add_r by lia; f_equal; lia).
      assert (E2 : 2 ^ 62 = 2 ^ d * 2 ^ (62 - d))
        by (rewrite <- Z.pow_add_r by lia; f_equal; lia).
      rewrite E1, E2. split; nia. }
    assert (Hup : Z.pos p * 2 ^ (62 - d) < 400 * 2 ^ (j + 62 - d)).
    { replace (j + 62 - d) with (j + (62 - d)) by lia.
      rewrite Z.pow_add_r by lia.
      assert (0 < 2 ^ (62 - d)) by (apply Z.pow_pos_nonneg; lia). nia. }
    set (m' := Z.pos p * 2 ^ (62 - d)) in *.
    pose proof (Z.div_eucl_eq m' 400 ltac:(lia)) as Hdiv.
    pose proof (Z.mod_pos_bound m' 400 ltac:(lia)) as Hmod.
    unfold Z.modulo in Hmod.
    destruct (Z.div_eucl m' 400) as [q r].
    assert (Hq : 2 ^ 52 <= q < 2 ^ (j + 62 - d)).
    { split; [change (2 ^ 61) with (2 ^ 52 * 512) in Hm'; lia|lia]. }
    destruct q as [|q|q]; [cbn in Hq; lia| |lia].
    assert (Hdq1 : 53 <= Z.pos (digits2_pos q)).
    { assert (52 + 1 <= Zdigits2 (Z.pos q)) by (apply Zdigits2_ge; lia). exact H. }
    assert (Hdq2 : Z.pos (digits2_pos q) <= j + 62 - d).
    { assert (Zdigits2 (Z.pos q) <= j + 62 - d) by (apply Zdigits2_le; lia). exact H. }
    pose proof (binary_round_aux_bounded (xorb (a <? 0) (400 <? 0)) q (d - 62)
                  (new_location 400 r)) as [Hb _].
    + cbv zeta. unfold mag, fexp64. lia.
    + unfold mag. lia.
    + cbv zeta in Hb.
      set (f := binary_round_aux prec emax (xorb (a <? 0) (400 <? 0)) (Z.pos q) (d - 62)
                  (new_location 400 r)) in *.
      exists f. split.
      * destruct Hb as [_ Hb]. destruct f; try contradiction; reflexivity.
      * apply bounded_by_mono with (Z.max (mag q (d - 62) + 1) (-1073)); [unfold mag; lia|exact Hb].
Qed.

Lemma shr_1_r (mrs : shr_record) :
  0 <= shr_m mrs -> shr_r (shr_1 mrs) = Z.odd (shr_m mrs).
Proof.
  destruct mrs as [m r s]. cbn [shr_m]. intros H.
  destruct m as [|p|p]; try lia; [reflexivity|]. destruct p; reflexivity.
Qed.

Lemma iter_shr_1_r (n : positive) : forall mrs,
  0 <= shr_m mrs ->
  shr_r (iter_pos shr_1 n mrs) = Z.odd (shr_m mrs / 2 ^ (Z.pos n - 1)).
Proof.
  induction n as [n IH | n IH |]; intros mrs H; cbn [iter_pos].
  - assert (H1 : 0 <= shr_m (shr_1 mrs)).
    { rewrite shr_1_m by assumption. apply Z.div_pos; lia. }
    assert (H2 : 0 <= shr_m (iter_pos shr_1 n (shr_1 mrs))).
    { rewrite iter_shr_1_m by assumption. apply Z.div_pos; lia. }
    rewrite IH by assumption. rewrite iter_shr_1_m, shr_1_m by assumption.
    rewrite !Z.div_div by lia. f_equal. f_equal.
    replace (Z.pos n~1 - 1) with (1 + (Z.pos n + (Z.pos n - 1))) by lia.
    rewrite !Z.pow_add_r by lia. reflexivity.
  - assert (H2 : 0 <= shr_m (iter_pos shr_1 n mrs)).
    { rewrite iter_shr_1_m by assumption. apply Z.div_pos; lia. }
    rewrite IH by assumption. rewrite iter_shr_1_m by assumption.
    rewrite !Z.div_div by lia. f_equal. f_equal.
    replace (Z.pos n~0 - 1) with (Z.pos n + (Z.pos n - 1)) by lia.
    rewrite !Z.pow_add_r by lia. reflexivity.
  - rewrite shr_1_r by assumption. change (2 ^ (1 - 1)) with 1. rewrite Z.div_1_r. reflexivity.
Qed.

(** When the bit below the last place is clear, rounding to nearest
    truncates. *)
Lemma binary_round_aux_down (s : bool) (m : positive) (e : Z) :
  let n := fexp64 (mag m e) - e in
  0 < n -> Z.odd (Z.pos m / 2 ^ (n - 1)) = false ->
  let m1 := Z.pos m / 2 ^ n in
  let n2 := Z.max (fexp64 (Zdigits2 m1 + (e + n)) - (e + n)) 0 in
  binary_round_aux prec emax s (Z.pos m) e loc_Exact =
    match m1 / 2 ^ n2 with
    | Z0 => S754_zero s
    | Z.pos m3 =>
        if e + n + n2 <=? 971 then S754_finite s m3 (e + n + n2)
        else S754_infinity s
    | Z.neg _ => S754_nan
    end.
Proof.
  intros n Hn Hodd m1 n2.
  assert (Hm1 : 0 <= m1) by (apply Z.div_pos; lia).
  unfold binary_round_aux.
  assert (Hshr : exists sb,
     shr_fexp prec emax (Z.pos m) e loc_Exact =
       ({| shr_m := m1; shr_r := false; shr_s := sb |}, e + n)).
  { unfold shr_fexp. cbn [Zdigits2 shr_record_of_loc]. rewrite fexp_eq.
    fold (mag m e). fold n. destruct n as [|p|p] eqn:En; try lia. cbn [shr].
    pose proof (iter_shr_1_m p {| shr_m := Z.pos m; shr_r := false; shr_s := false |}) as Hm.
    pose proof (iter_shr_1_r p {| shr_m := Z.pos m; shr_r := false; shr_s := false |}) as Hr.
    cbn [shr_m] in Hm, Hr. specialize (Hm ltac:(lia)). specialize (Hr ltac:(lia)).
    destruct (iter_pos shr_1 p _) as [mm rr ss]. cbn [shr_m shr_r] in Hm, Hr.
    exists ss. rewrite Hm, Hr, Hodd. reflexivity. }
  destruct Hshr as (sb & ->).
  assert (Hrne : round_nearest_even (shr_m {| shr_m := m1; shr_r := false; shr_s := sb |})
            (loc_of_shr_record {| shr_m := m1; shr_r := false; shr_s := sb |}) = m1)
    by (destruct sb; reflexivity).
  rewrite Hrne.
  unfold shr_fexp. rewrite fexp_eq.
  assert (Hrec : shr_m (fst (shr (shr_record_of_loc m1 loc_Exact) (e + n)
                      (fexp64 (Zdigits2 m1 + (e + n)) - (e + n)))) = m1 / 2 ^ n2 /\
                 snd (shr (shr_record_of_loc m1 loc_Exact) (e + n)
                      (fexp64 (Zdigits2 m1 + (e + n)) - (e + n))) = e + n + n2).
  { unfold n2. destruct (fexp64 (Zdigits2 m1 + (e + n)) - (e + n)) as [|p|p];
      cbn [shr fst snd Z.max Z.compare].
    - cbn. rewrite Z.div_1_r. split; [reflexivity|lia].
    - rewrite iter_shr_1_m by (cbn; lia). cbn [shr_record_of_loc shr_m]. split; [reflexivity|lia].
    - cbn. rewrite Z.div_1_r. split; [reflexivity|lia]. }
  destruct (shr (shr_record_of_loc m1 loc_Exact) (e + n)
              (fexp64 (Zdigits2 m1 + (e + n)) - (e + n))) as [mrs'' e''].
  cbn [fst snd] in Hrec. destruct Hrec as [-> ->]. reflexivity.
Qed.

(** A term below a quarter of the last place of 1.0 is absorbed. *)
Lemma fadd_one_tiny (p : float) : tiny p = true -> fadd one p = one.
Proof.
  destruct p as [sp | sp | | sp mp ep]; try discriminate.
  - destruct sp; [discriminate|reflexivity].
  - destruct sp; [discriminate|]. cbn [tiny]. intros Ht. apply Z.leb_le in Ht.
    pose proof (mag_lower mp ep) as Hl.
    pose proof (pos_lt_pow_mag mp ep) as Hp.
    unfold fadd, one. cbn [SFadd cond_Zopp].
    replace (Z.min (-52) ep) with ep by lia.
    destruct (shl_align_spec 4503599627370496 (-52) ep) as (ma' & Ea & Hma & Hmaga).
    destruct (shl_align_spec mp ep ep) as (mb' & Eb & Hmb & Hmagb).
    replace (Z.min (-52) ep) with ep in * by lia.
    replace (Z.min ep ep) with ep in * by lia.
    rewrite Ea, Eb. cbn [fst]. rewrite Z.sub_diag, Z.mul_1_r in Hmb.
    assert (mb' = mp) by lia. subst mb'. clear Eb Hmb Hmagb.
    change (Z.pos ma' + Z.pos mp) with (Z.pos (ma' + mp)).
    cbn [binary_normalize]. unfold binary_round. rewrite fexp_eq.
    change (Z.pos 4503599627370496) with (2 ^ 52) in Hma.
    rewrite <- Z.pow_add_r in Hma by lia.
    replace (52 + (-52 - ep)) with (- ep) in Hma by lia.
    assert (Hpm : Z.pos mp < 2 ^ (-54 - ep)).
    { assert (2 ^ (mag mp ep - ep) <= 2 ^ (-54 - ep)) by (apply Z.pow_le_mono_r; lia). lia. }
    assert (Hq : 2 ^ (- ep) = 4 * 2 ^ (-54 - ep) * 2 ^ 52).
    { change 4 with (2 ^ 2). rewrite <- !Z.pow_add_r by lia. f_equal. lia. }
    assert (H0 : 0 < 2 ^ (-54 - ep)) by (apply Z.pow_pos_nonneg; lia).
    assert (Hsum : 2 ^ (- ep) <= Z.pos (ma' + mp) < 2 ^ (- ep + 1)).
    { rewrite Pos2Z.inj_add, Hma. rewrite Z.pow_add_r by lia. change (2 ^ 1) with 2.
      change (2 ^ 52) with 4503599627370496 in Hq. lia. }
    assert (Hdig : Z.pos (digits2_pos (ma' + mp)) = - ep + 1).
    { apply digits_unique. replace (- ep + 1 - 1) with (- ep) by lia. exact Hsum. }
    assert (Hmag1 : mag (ma' + mp) ep = 1) by (unfold mag; lia).
    fold (mag (ma' + mp) ep). rewrite Hmag1. change (fexp64 1) with (-52).
    destruct (shl_align_spec (ma' + mp) ep (-52)) as (m' & E' & Hv' & Hmag').
    replace (Z.min ep (-52)) with ep in * by lia.
    rewrite E'. rewrite Z.sub_diag, Z.mul_1_r in Hv'.
    assert (m' = (ma' + mp)%positive) by lia. subst m'.
    rewrite binary_round_aux_down.
    + rewrite Hmag1. change (fexp64 1) with (-52).
      assert (Hm1 : Z.pos (ma' + mp) / 2 ^ (-52 - ep) = 2 ^ 52).
      { symmetry. apply Z.div_unique with (Z.pos mp).
        - left. split; [lia|].
          assert (2 ^ (-52 - ep) = 4 * 2 ^ (-54 - ep)).
          { change 4 with (2 ^ 2). rewrite <- Z.pow_add_r by lia. f_equal. lia. }
          lia.
        - rewrite Pos2Z.inj_add, Hma.
          rewrite <- Z.pow_add_r by lia. f_equal. f_equal. lia. }
      rewrite Hm1. replace (ep + (-52 - ep)) with (-52) by lia. reflexivity.
    + rewrite Hmag1. change (fexp64 1) with (-52). lia.
    + rewrite Hmag1. change (fexp64 1) with (-52).
      replace (-52 - ep - 1) with (-53 - ep) by lia.
      assert (Hd : Z.pos (ma' + mp) / 2 ^ (-53 - ep) = 2 ^ 53).
      { symmetry. apply Z.div_unique with (Z.pos mp).
        - left. split; [lia|].
          assert (2 ^ (-53 - ep) = 2 * 2 ^ (-54 - ep)).
          { change 2 with (2 ^ 1) at 2. rewrite <- Z.pow_add_r by lia. f_equal. lia. }
          lia.
        - rewrite Pos2Z.inj_add, Hma.
          rewrite <- Z.pow_add_r by lia. f_equal. f_equal. lia. }
      rewrite Hd. reflexivity.
Qed.

(* ===================================================================== *)
(** ** [round], exact integers and the steps of the update *)
(* ===================================================================== *)

(** ** [round] *)

Lemma round_half_even_neg (m p : positive) :
  let d := 2 ^ Z.pos p in
  let n := round_half_even m (Z.neg p) in
  2 * Z.abs (n * d - Z.pos m) <= d /\
  (2 * (Z.pos m mod d) = d -> Z.even n = true) /\
  (Z.pos m mod d = 0 -> n = Z.pos m / d).
Proof.
  intros d n. unfold n, round_half_even. fold d.
  assert (Hd : 0 < d) by (apply Z.pow_pos_nonneg; lia).
  pose proof (Z.div_mod (Z.pos m) d ltac:(lia)) as Hdm.
  pose proof (Z.mod_pos_bound (Z.pos m) d Hd) as Hr.
  set (q := Z.pos m / d) in *. set (r := Z.pos m mod d) in *.
  destruct (Z.compare_spec (2 * r) d) as [E | E | E].
  - destruct (Z.even q) eqn:Ev.
    + split; [nia|]. split; [auto|lia].
    + split; [nia|]. split; [|lia]. intros _. rewrite Z.even_add, Ev. reflexivity.
  - split; [nia|]. split; [lia|auto].
  - split; [nia|]. split; lia.
Qed.

(** [round] returns an integer nearest to its argument, the even one at a
    tie. *)
Lemma round_nearest (x : float) (n : Z) :
  round x = Ok n -> nearest_int x n /\ (is_tie x -> Z.even n = true).
Proof.
  destruct x as [s | s | | s m e]; try discriminate; cbn [round].
  - intros [= <-]. split; [reflexivity|intros []].
  - intros [= <-]. unfold nearest_int, is_tie.
    destruct e as [|p|p].
    + cbn. split; [destruct s; cbn; lia|lia].
    + change (Z.pos p <? 0) with false. cbv iota. split; [|lia].
      cbn [round_half_even]. destruct s; cbn [cond_Zopp]; lia.
    + change (Z.neg p <? 0) with true. cbv iota.
      change (- Z.neg p) with (Z.pos p).
      destruct (round_half_even_neg m p) as (H1 & H2 & _). cbv zeta in H1, H2.
      split.
      * destruct s; cbn [cond_Zopp]; [|exact H1].
        replace (- round_half_even m (Z.neg p) * 2 ^ Z.pos p - - Z.pos m)
          with (- (round_half_even m (Z.neg p) * 2 ^ Z.pos p - Z.pos m)) by ring.
        rewrite Z.abs_opp. exact H1.
      * intros [_ Ht]. specialize (H2 Ht).
        destruct s; cbn [cond_Zopp]; [rewrite Z.even_opp|]; exact H2.
Qed.

Lemma round_finite (x : float) : is_finite x = true -> succeeds (round x).
Proof. destruct x; try discriminate; intros _; eexists; reflexivity. Qed.

(** ** Integers that binary64 holds exactly *)

Lemma Z2F_exact (z : Z) :
  z <> 0 -> Z.abs z < 2 ^ 53 ->
  exists m e, Z2F z = S754_finite (z <? 0) m e /\ -52 <= e <= 0 /\
    Z.pos m = Z.abs z * 2 ^ (- e).
Proof.
  intros Hz Hlt.
  assert (H : forall s p, Z.pos p < 2 ^ 53 ->
    exists m e, binary_round prec emax s p 0 = S754_finite s m e /\ -52 <= e <= 0 /\
      Z.pos m = Z.pos p * 2 ^ (- e)).
  { intros s p Hp.
    assert (Hd : 1 <= Z.pos (digits2_pos p) <= 53).
    { split; [lia|]. assert (Zdigits2 (Z.pos p) <= 53) by (apply Zdigits2_le; lia). exact H. }
    destruct (binary_round_exact s p 0) as (m3 & E & Hm3).
    - unfold mag. lia.
    - lia.
    - exists m3, (mag p 0 - 53). split; [exact E|]. unfold mag. split; [lia|].
      rewrite Hm3. f_equal. f_equal. lia. }
  destruct z as [|p|p]; [congruence| |].
  - apply H. exact Hlt.
  - apply H. exact Hlt.
Qed.

Lemma round_exact_int (s : bool) (m : positive) (e a : Z) :
  e <= 0 -> Z.pos m = a * 2 ^ (- e) -> round (S754_finite s m e) = Ok (cond_Zopp s a).
Proof.
  intros He Hm. cbn [round]. f_equal. f_equal.
  destruct e as [|p|p]; try lia.
  - cbn in Hm. cbn. lia.
  - change (- Z.neg p) with (Z.pos p) in Hm.
    destruct (round_half_even_neg m p) as (_ & _ & H). cbv zeta in H.
    rewrite H.
    + rewrite Hm. apply Z.div_mul. apply Z.pow_nonzero; lia.
    + rewrite Hm. apply Z.mod_mul. apply Z.pow_nonzero; lia.
Qed.

(** Up to [2^53] in magnitude every integer survives the conversion to a
    float and back. *)
Lemma round_Z2F (z : Z) : Z.abs z <= 2 ^ 53 -> round (Z2F z) = Ok z.
Proof.
  intros Hz.
  destruct (Z.eq_dec z 0) as [-> | Hne]; [reflexivity|].
  destruct (Z.eq_dec (Z.abs z) (2 ^ 53)) as [Heq | Hlt].
  - destruct (Z.abs_spec z) as [[_ H] | [_ H]]; rewrite H in Heq.
    + subst z. reflexivity.
    + assert (z = - 2 ^ 53) by lia. subst z. reflexivity.
  - destruct (Z2F_exact z Hne ltac:(lia)) as (m & e & -> & He & Hm).
    rewrite (round_exact_int _ m e (Z.abs z)) by (lia || exact Hm).
    f_equal. destruct (Z.ltb_spec z 0); cbn [cond_Zopp]; lia.
Qed.

Lemma Z2F_add_zero (z : Z) (s : bool) :
  Z.abs z <= 2 ^ 53 -> round (fadd (Z2F z) (S754_zero s)) = Ok z.
Proof.
  intros Hz. pose proof (round_Z2F z Hz) as H.
  destruct (Z2F z) as [s0 | s0 | | s0 m0 e0] eqn:E; try discriminate.
  - cbn in H. injection H as <-. destruct s0, s; reflexivity.
  - exact H.
Qed.

Lemma bind_ok {A B : Type} (r : result A) (k : A -> result B) (a : A) :
  r = Ok a -> (r ≫= k) = k a.
Proof. intros ->. reflexivity. Qed.

Section Update.

(** The C library the interpreter is linked against. *)
Variable L : Libm.


(** The code's expected score is the spec's. *)
Lemma expected_score_refines (self : Elo) (O : Z) :
  _get_expected_score L self O = spec_expected_score L (rating self) O.
Proof. reflexivity. Qed.

(** The code's update is the spec's formula followed by the save. *)
Lemma update_rating_refines (self : Elo) (s : number) (O : Z) (w : World) :
  update_rating L self s O w =
    spec_new_rating L (rating self) (k_factor self) s O ≫= fun r =>
    Ok (save (set_rating self r) w).
Proof.
  unfold update_rating, spec_new_rating, spec_unrounded.
  rewrite expected_score_refines. unfold mbind, result_bind.
  destruct (spec_expected_score L (rating self) O) as [E|]; [|reflexivity].
  destruct (num_sub_float s E) as [d|]; [|reflexivity].
  destruct (int_mul_float (k_factor self) d) as [t|]; [|reflexivity].
  destruct (int_add_float (rating self) t) as [x|]; reflexivity.
Qed.

Lemma float_of_int_1 : float_of_int 1 = Ok one.
Proof. reflexivity. Qed.

Lemma float_of_int_10 : float_of_int 10 = Ok ten.
Proof. reflexivity. Qed.

(** For a rating difference below 51200 the expected score is computed, and
    it is a normal binary64 in (0, 1]. *)
Lemma expected_score_total (self : Elo) (O : Z) :
  Z.abs (O - rating self) < 51200 ->
  exists m e,
    _get_expected_score L self O = Ok (S754_finite false m e) /\
    Z.pos (digits2_pos m) = 53 /\ -1054 <= e /\
    (e <= -53 \/ (e = -52 /\ m = 4503599627370496%positive)).
Proof.
  intros Hgap. unfold _get_expected_score.
  destruct (int_truediv_400 (O - rating self) 7) as (q & -> & Hq); [exact Hgap|lia|].
  rewrite (bind_ok _ _ q eq_refl). unfold int_pow_float.
  rewrite float_of_int_10, (bind_ok _ _ ten eq_refl).
  assert (Hp : exists p, float_pow L ten q = Ok p /\ bounded_by 1000 p /\ nonneg p = true).
  { destruct q as [sq | sq | | sq mq eq] eqn:Eq.
    - exists one. split; [reflexivity|]. split; [|reflexivity].
      split; [reflexivity|]. vm_compute. discriminate.
    - destruct Hq as [_ []].
    - destruct Hq as [_ []].
    - cbn [float_pow]. rewrite <- Eq in *.
      pose proof (pow_moderate L q Hq) as Hb.
      pose proof (pow_nonneg L q (bounded_by_finite _ _ Hq)) as Hn.
      exists (pow L ten q). split; [|split; assumption].
      destruct Hb as [_ Hb]. destruct (pow L ten q); try contradiction; reflexivity. }
  destruct Hp as (p & -> & Hpb & Hpn). rewrite (bind_ok _ _ p eq_refl).
  unfold int_add_float. rewrite float_of_int_1, (bind_ok _ _ one eq_refl).
  destruct (fadd_one_nonneg p Hpb Hpn) as (ms & es & Es & Hds & Hes).
  rewrite (bind_ok _ _ (fadd one p) eq_refl), Es.
  unfold int_div_float. rewrite float_of_int_1, (bind_ok _ _ one eq_refl).
  unfold float_truediv. cbn [is_zero].
  destruct (fdiv_one_ge_one ms es Hds Hes) as (m3 & e3 & -> & Hd3 & Hlo & Hhi).
  exists m3, e3. split; [reflexivity|]. split; [exact Hd3|]. split; [lia|exact Hhi].
Qed.

Lemma expected_score_shape_bounded (m : positive) (e : Z) :
  Z.pos (digits2_pos m) = 53 -> -1054 <= e ->
  (e <= -53 \/ (e = -52 /\ m = 4503599627370496%positive)) ->
  bounded_by 1 (S754_finite false m e) /\
  SFltb pzero (S754_finite false m e) = true /\
  SFleb (S754_finite false m e) one = true.
Proof.
  intros Hd Hlo Hhi. split; [|split].
  - split.
    + apply valid_finite_iff. unfold mag, fexp64. lia.
    + unfold mag. lia.
  - reflexivity.
  - unfold SFleb, SFcompare, one.
    destruct Hhi as [Hlt | [-> ->]]; [|reflexivity].
    destruct (Z.compare_spec e (-52)); try lia; reflexivity.
Qed.

Lemma SFeqb_finite_eq (f : float) (s : bool) (m : positive) (e : Z) :
  SFeqb f (S754_finite s m e) = true -> f = S754_finite s m e.
Proof.
  unfold SFeqb, SFcompare.
  destruct f as [s' | s' | | s' m' e']; try (destruct s'; discriminate); try discriminate.
  - destruct s; discriminate.
  - destruct s', s; try discriminate;
      destruct (Z.compare_spec e' e) as [-> | |]; try discriminate;
      rewrite Pos.compare_cont_spec;
      destruct (Pos.compare_spec m' m) as [-> | |]; try discriminate; reflexivity.
Qed.

Lemma SFeqb_zero (f : float) (s : bool) :
  SFeqb f (S754_zero s) = true -> exists s', f = S754_zero s'.
Proof.
  unfold SFeqb, SFcompare.
  destruct f as [s' | s' | | s' m' e']; try (destruct s'; discriminate); try discriminate.
  intros _. exists s'. reflexivity.
Qed.

(** A permitted score is a float of magnitude below 2. *)
Lemma permitted_score_bounded (s : number) :
  permitted_score s = true -> exists fs, to_float s = Ok fs /\ bounded_by 1 fs.
Proof.
  destruct s as [z | f]; cbn [permitted_score to_float].
  - intros H. apply orb_true_iff in H. destruct H as [H | H]; apply Z.eqb_eq in H; subst z.
    + eexists. split; [reflexivity|]. split; [reflexivity|exact I].
    + eexists. split; [reflexivity|]. split; [reflexivity|]. vm_compute. discriminate.
  - intros H. exists f. split; [reflexivity|].
    apply orb_true_iff in H. destruct H as [H | H].
    + apply orb_true_iff in H. destruct H as [H | H].
      * apply SFeqb_zero in H. destruct H as [s' ->]. split; [reflexivity|exact I].
      * apply SFeqb_finite_eq in H. subst f. split; [reflexivity|]. vm_compute. discriminate.
    + apply SFeqb_finite_eq in H. subst f. split; [reflexivity|]. vm_compute. discriminate.
Qed.




(** Rounding a half-integer: within one half, to the even side on a tie. *)
Lemma round_half_int (x : float) (N n : Z) :
  half_int x N -> round x = Ok n ->
  Z.abs (2 * n - N) <= 1 /\ (Z.odd N = true -> Z.even n = true).
Proof.
  intros Hx Hr. destruct (round_nearest x n Hr) as [Hn Ht].
  destruct x as [s | s | | s m e]; try contradiction.
  - cbn in Hx, Hn. subst. split; [lia|reflexivity].
  - destruct Hx as [He Hv]. unfold nearest_int in Hn.
    replace (e <? 0) with true in Hn by (symmetry; apply Z.ltb_lt; lia).
    cbv zeta in Hn. rewrite Hv in Hn.
    set (P := 2 ^ (-1 - e)) in *.
    assert (HP : 0 < P) by (apply Z.pow_pos_nonneg; lia).
    assert (H2P : 2 ^ (- e) = 2 * P).
    { unfold P. replace (- e) with (Z.succ (-1 - e)) by lia. apply Z.pow_succ_r. lia. }
    rewrite H2P in Hn. split; [nia|].
    intros Hodd. apply Ht. unfold is_tie. split; [lia|]. rewrite H2P.
    assert (Hm : Z.pos m = Z.abs N * P).
    { destruct s; cbn [cond_Zopp] in Hv; nia. }
    assert (Hmod : (Z.abs N * P) mod (2 * P) = (Z.abs N mod 2) * P)
      by (apply Z.mul_mod_distr_r; lia).
    assert (Z.abs N mod 2 = 1).
    { rewrite Zmod_odd.
      assert (Z.odd (Z.abs N) = Z.odd N) as -> by (destruct N; reflexivity).
      rewrite Hodd. reflexivity. }
    rewrite Hm, Hmod. lia.
Qed.

(** Against an opponent of the same rating the expected score is one half,
    whatever the rating and whatever libm. *)
Lemma expected_score_equal (self : Elo) :
  _get_expected_score L self (rating self) = Ok half.
Proof. unfold _get_expected_score. rewrite Z.sub_diag. reflexivity. Qed.

Lemma Z2F_exact_digits (z : Z) :
  z <> 0 -> Z.abs z < 2 ^ 53 ->
  exists m e, Z2F z = S754_finite (z <? 0) m e /\ -52 <= e <= 0 /\
    Z.pos m = Z.abs z * 2 ^ (- e) /\ Z.pos (digits2_pos m) = 53 /\
    cond_Zopp (z <? 0) (Z.pos m) = z * 2 ^ (- e).
Proof.
  intros Hz Hlt.
  assert (H : forall s p, Z.pos p < 2 ^ 53 ->
    exists m e, binary_round prec emax s p 0 = S754_finite s m e /\ -52 <= e <= 0 /\
      Z.pos m = Z.pos p * 2 ^ (- e) /\ Z.pos (digits2_pos m) = 53).
  { intros s p Hp.
    pose proof (digits_bounds p) as [P1 P2].
    assert (Hd : 1 <= Z.pos (digits2_pos p) <= 53).
    { split; [lia|]. assert (Zdigits2 (Z.pos p) <= 53) by (apply Zdigits2_le; lia). exact H. }
    destruct (binary_round_exact s p 0) as (m3 & E & Hm3).
    - unfold mag. lia.
    - lia.
    - exists m3, (mag p 0 - 53). split; [exact E|]. unfold mag. split; [lia|].
      set (d := Z.pos (digits2_pos p)) in *.
      replace (- (d + 0 - 53)) with (53 - d) by lia.
      split; [exact Hm3|].
      apply digits_unique. rewrite Hm3.
      assert (0 < 2 ^ (53 - d)) by (apply Z.pow_pos_nonneg; lia).
      assert (E1 : 2 ^ (53 - 1) = 2 ^ (d - 1) * 2 ^ (53 - d))
        by (rewrite <- Z.pow_add_r by lia; f_equal; lia).
      assert (E2 : 2 ^ 53 = 2 ^ d * 2 ^ (53 - d))
        by (rewrite <- Z.pow_add_r by lia; f_equal; lia).
      rewrite E1, E2. split; nia. }
  destruct z as [|p|p]; [congruence| |].
  - destruct (H false p Hlt) as (m & e & E & He & Hm & Hd).
    exists m, e. repeat (split; [assumption|]). cbn [Z.ltb Z.compare cond_Zopp]. exact Hm.
  - destruct (H true p Hlt) as (m & e & E & He & Hm & Hd).
    exists m, e. repeat (split; [assumption|]). cbn [Z.ltb Z.compare cond_Zopp].
    cbn [Z.abs] in Hm. rewrite Hm. lia.
Qed.




End Update.

(* ===================================================================== *)
(** ** Boards, results and claims *)
(* ===================================================================== *)

(** C8. The board of a freshly created game holds the standard starting
    position as a FEN string: the layout is the literal
    "rnbqkbnr/pppppppp/8/8/8/8/PPPPPPPP/RNBQKBNR w KQkq - 0 1", it splits at
    the spaces into exactly six fields (placement, side to move, castling
    rights, en-passant square, halfmove clock, fullmove number), and the
    placement has eight ranks of eight squares each. *)
Theorem fresh_board_is_start_fen :
  forall (id : N) (created : timestamp) (white black : pk),
    let b := Game.board (CreateGame id created white black) in
    b = Board.new created /\
    Board.layout b =
      "rnbqkbnr/pppppppp/8/8/8/8/PPPPPPPP/RNBQKBNR w KQkq - 0 1"%string /\
    fields (Board.layout b) =
      ["rnbqkbnr/pppppppp/8/8/8/8/PPPPPPPP/RNBQKBNR"; "w"; "KQkq"; "-"; "0"; "1"]%string /\
    List.length (fields (Board.layout b)) = 6%nat /\
    split_on "/"%char "rnbqkbnr/pppppppp/8/8/8/8/PPPPPPPP/RNBQKBNR" =
      ["rnbqkbnr"; "pppppppp"; "8"; "8"; "8"; "8"; "PPPPPPPP"; "RNBQKBNR"]%string /\
    Forall (fun r => rank_width r = 8%N)
      (split_on "/"%char "rnbqkbnr/pppppppp/8/8/8/8/PPPPPPPP/RNBQKBNR") /\
    halfmove_clock b = Some 0%N.
Proof.
  intros id created white black b. subst b. cbn [CreateGame Game.board].
  repeat split; try reflexivity.
  vm_compute. repeat constructor.
Qed.

(** C7. For every pair of players, distinct or not, the game that
    [CreateGame] returns for them has the Result "Scheduled", one of the keys
    of [RESULT_CHOICES] and not the default "In progress" of a [Result()];
    the game is theirs and still open. *)
Theorem created_game_result_scheduled :
  forall (id : N) (created : timestamp) (white black : pk),
    let g := CreateGame id created white black in
    Result.description (Game.result g) = Result.SCHEDULED /\
    Result.str (Game.result g) = "Scheduled"%string /\
    In (Result.description (Game.result g)) (map fst Result.RESULT_CHOICES) /\
    Game.result g <> Result.new /\
    Game.whites_player g = white /\ Game.blacks_player g = black /\
    Game.end_timestamp g = None.
Proof.
  intros id created white black g. subst g. cbn [CreateGame Game.result].
  repeat split; try reflexivity.
  - cbn. tauto.
  - discriminate.
Qed.

(** C9. A fifty-move claim is upheld exactly when the halfmove clock read
    from the game's board is at least 100, and rejected exactly when it is
    below; a board whose clock reads 99 rejects the claim and one whose clock
    reads 100 upholds it. *)
Theorem fifty_moves_upheld_iff_clock_100 :
  forall g : Game.t,
    (evaluate g fifty_moves_claim = Some Upheld <->
       exists n, halfmove_clock (Game.board g) = Some n /\ (100 <= n)%N) /\
    (evaluate g fifty_moves_claim = Some Rejected <->
       exists n, halfmove_clock (Game.board g) = Some n /\ (n < 100)%N) /\
    halfmove_clock (Game.board (game_on "4k3/8/8/8/8/8/8/4K2R w - - 99 80"))
      = Some 99%N /\
    evaluate (game_on "4k3/8/8/8/8/8/8/4K2R w - - 99 80") fifty_moves_claim
      = Some Rejected /\
    halfmove_clock (Game.board (game_on "4k3/8/8/8/8/8/8/4K2R b - - 100 80"))
      = Some 100%N /\
    evaluate (game_on "4k3/8/8/8/8/8/8/4K2R b - - 100 80") fifty_moves_claim
      = Some Upheld.
Proof.
  intros g. repeat split; try reflexivity.
  - unfold evaluate. cbn [fifty_moves_claim Claim.claim_type].
    rewrite String.eqb_refl.
    destruct (halfmove_clock (Game.board g)) as [n|]; [|discriminate].
    destruct (N.leb_spec 100 n); [|discriminate].
    intros _. exists n. split; [reflexivity|assumption].
  - intros (n & Hn & Hle). unfold evaluate.
    cbn [fifty_moves_claim Claim.claim_type]. rewrite String.eqb_refl, Hn.
    destruct (N.leb_spec 100 n); [reflexivity|lia].
  - unfold evaluate. cbn [fifty_moves_claim Claim.claim_type].
    rewrite String.eqb_refl.
    destruct (halfmove_clock (Game.board g)) as [n|]; [|discriminate].
    destruct (N.leb_spec 100 n); [discriminate|].
    intros _. exists n. split; [reflexivity|assumption].
  - intros (n & Hn & Hlt). unfold evaluate.
    cbn [fifty_moves_claim Claim.claim_type]. rewrite String.eqb_refl, Hn.
    destruct (N.leb_spec 100 n); [lia|reflexivity].
Qed.

(* ===================================================================== *)
(** ** The rating update *)
(* ===================================================================== *)

(** What a call that returns has done. *)
Lemma update_rating_inv (L : Libm) (self : Elo) (s : number) (O : Z) (w : World)
    (self' : Elo) (w' : World) :
  update_rating L self s O w = Ok (self', w') ->
  exists x r,
    spec_unrounded L (rating self) (k_factor self) s O = Ok x /\
    round x = Ok r /\
    (self', w') = save (set_rating self r) w.
Proof.
  rewrite update_rating_refines. unfold spec_new_rating.
  destruct (spec_unrounded L (rating self) (k_factor self) s O) as [x|]; [|discriminate].
  rewrite (bind_ok _ _ x eq_refl).
  destruct (round x) as [r|] eqn:Hr; [|discriminate].
  rewrite (bind_ok _ _ r eq_refl). intros [= <- <-]. exists x, r.
  split; [reflexivity|]. split; [exact Hr|]. reflexivity.
Qed.

Lemma rating_after_ok (L : Libm) (self : Elo) (s : number) (O : Z) (w : World) (r : Z) :
  spec_new_rating L (rating self) (k_factor self) s O = Ok r ->
  rating_after (update_rating L self s O w) = Ok r.
Proof.
  intros H. unfold rating_after. rewrite update_rating_refines, H. reflexivity.
Qed.

(** ** Equal ratings *)

(** C6, within the integers a float holds exactly. If both players have the
    rating [R], at most [2^53] in magnitude, and the k-factor [K], and each
    is updated with the score 0.5 against the other's rating, both keep the
    rating [R]. *)
Theorem draw_between_equals_keeps_rating :
  forall (L : Libm) (selfA selfB : Elo) (R K : Z) (wA wB : World),
    rating selfA = R -> rating selfB = R ->
    k_factor selfA = K -> k_factor selfB = K ->
    Z.abs R <= 2 ^ 53 -> Z.abs K < 2 ^ 1023 ->
    rating_after (update_rating L selfA (PyFloat half) R wA) = Ok R /\
    rating_after (update_rating L selfB (PyFloat half) R wB) = Ok R.
Proof.
  intros L selfA selfB R K wA wB HA HB HKA HKB HR HK.
  assert (H : spec_new_rating L R K (PyFloat half) R = Ok R).
  { unfold spec_new_rating, spec_unrounded, spec_expected_score.
    rewrite Z.sub_diag.
    change (int_truediv 0 400 ≫= _) with (Ok (A:=float) half).
    rewrite (bind_ok _ _ half eq_refl).
    change (num_sub_float (PyFloat half) half) with (Ok (A:=float) pzero).
    rewrite (bind_ok _ _ pzero eq_refl).
    destruct (float_of_int_ok K 1023 HK ltac:(lia)) as [HfK [_ HbK]].
    assert (H253 : 2 ^ 53 < 2 ^ 54) by (apply Z.pow_lt_mono_r; lia).
    destruct (float_of_int_ok R 54 ltac:(lia) ltac:(lia)) as [HfR _].
    unfold int_mul_float, int_add_float. rewrite HfK, HfR.
    rewrite !(bind_ok _ _ _ eq_refl).
    assert (Hz : exists s, fmul (Z2F K) pzero = S754_zero s).
    { destruct (Z2F K) as [s | s | | s m e]; try contradiction; eexists; reflexivity. }
    destruct Hz as (sz & ->). apply Z2F_add_zero. exact HR. }
  split; apply rating_after_ok.
  - rewrite HA, HKA. exact H.
  - rewrite HB, HKB. exact H.
Qed.

Lemma draw_between_equals_keeps_rating_witness :
  rating_after (update_rating coarse_libm (stored_elo 1%positive 1500 24) (PyFloat half) 1500
                  (world_of 1%positive (stored_elo 1%positive 1500 24) 100)) = Ok 1500 /\
  rating_after (update_rating coarse_libm (stored_elo 2%positive 1500 24) (PyFloat half) 1500
                  (world_of 2%positive (stored_elo 2%positive 1500 24) 100)) = Ok 1500.
Proof.
  apply (draw_between_equals_keeps_rating coarse_libm (stored_elo 1%positive 1500 24)
           (stored_elo 2%positive 1500 24) 1500 24); try reflexivity; vm_compute; intuition discriminate.
Defined.

(** C6 fails as stated for a rating beyond [2^53]: a draw between two
    players rated [2^53 + 1] leaves each with [2^53]. *)
Lemma draw_changes_rating_beyond_2_53 :
  rating_after (update_rating coarse_libm (stored_elo 1%positive 9007199254740993 32) (PyFloat half)
                  9007199254740993 (world_of 1%positive (stored_elo 1%positive 9007199254740993 32) 100))
    = Ok 9007199254740992 /\
  (9007199254740992 <> 9007199254740993).
Proof. split; [reflexivity|lia]. Qed.

(** ** What a call changes *)

Lemma save_fields (self : Elo) (w : World) :
  let '(row, w') := save self w in
  exists k, elo_id row = Some k /\
    elo_table w' !! k = Some row /\
    (forall k', k' <> k -> elo_table w' !! k' = elo_table w !! k') /\
    rating row = rating self /\ k_factor row = k_factor self /\
    wins row = wins self /\ losses row = losses self /\ draws row = draws self /\
    player row = player self /\ updated_at row = now w /\ now w' = now w.
Proof.
  unfold save. eexists. split; [reflexivity|]. cbn.
  split; [apply lookup_insert_eq|]. split; [|repeat split; reflexivity].
  intros k' Hk. apply lookup_insert_ne. congruence.
Qed.

(** The fields and the table after a call that returns. *)
Lemma update_rating_fields :
  forall (L : Libm) (self : Elo) (s : number) (O : Z) (w : World)
         (self' : Elo) (w' : World),
    update_rating L self s O w = Ok (self', w') ->
    spec_new_rating L (rating self) (k_factor self) s O = Ok (rating self') /\
    (exists k, elo_id self' = Some k /\
       elo_table w' !! k = Some self' /\
       forall k', k' <> k -> elo_table w' !! k' = elo_table w !! k') /\
    updated_at self' = now w /\
    wins self' = wins self /\ losses self' = losses self /\
    draws self' = draws self /\
    k_factor self' = k_factor self /\ player self' = player self.
Proof.
  intros L self s O w self' w' H.
  destruct (update_rating_inv _ _ _ _ _ _ _ H) as (x & r & Hx & Hr & Hsave).
  pose proof (save_fields (set_rating self r) w) as Hf.
  rewrite <- Hsave in Hf.
  destruct Hf as (k & Hid & Hrow & Hothers & Hrat & Hk & Hw & Hl & Hd & Hp & Hu & _).
  split.
  - unfold spec_new_rating. rewrite Hx, (bind_ok _ _ x eq_refl), Hr, Hrat. reflexivity.
  - split; [exists k; auto|]. cbn in Hk, Hw, Hl, Hd, Hp. auto 10.
Qed.

(** C5, as the source has it. Every call of [update_rating] that returns
    has written the row, with the new rating and with [updated_at] set to the
    time of the save, under its primary key, and has left every other row,
    the k-factor, the player and the three counters [wins], [losses] and
    [draws] as they were. *)
Theorem update_rating_effects :
  forall (L : Libm) (self : Elo) (s : number) (O : Z) (w : World)
         (self' : Elo) (w' : World),
    update_rating L self s O w = Ok (self', w') ->
    spec_new_rating L (rating self) (k_factor self) s O = Ok (rating self') /\
    (exists k, elo_id self' = Some k /\
       elo_table w' !! k = Some self' /\
       forall k', k' <> k -> elo_table w' !! k' = elo_table w !! k') /\
    updated_at self' = now w /\
    wins self' = wins self /\ losses self' = losses self /\
    draws self' = draws self /\
    k_factor self' = k_factor self /\ player self' = player self.
Proof. exact update_rating_fields. Qed.

Lemma update_rating_effects_witness :
  spec_new_rating coarse_libm 1200 32 (PyInt 1) 1200 = Ok 1216 /\
  updated_at (fst (save (set_rating (stored_elo 1%positive 1200 32) 1216)
                     (world_of 1%positive (stored_elo 1%positive 1200 32) 100))) = 100 /\
  wins (fst (save (set_rating (stored_elo 1%positive 1200 32) 1216)
               (world_of 1%positive (stored_elo 1%positive 1200 32) 100))) = 0.
Proof.
  pose proof (update_rating_effects coarse_libm (stored_elo 1%positive 1200 32) (PyInt 1) 1200
                (world_of 1%positive (stored_elo 1%positive 1200 32) 100)
                (fst (save (set_rating (stored_elo 1%positive 1200 32) 1216)
                        (world_of 1%positive (stored_elo 1%positive 1200 32) 100)))
                (snd (save (set_rating (stored_elo 1%positive 1200 32) 1216)
                        (world_of 1%positive (stored_elo 1%positive 1200 32) 100))))
    as H.
  destruct H as (Hr & _ & Hu & Hw & _).
  - vm_compute. reflexivity.
  - split; [exact Hr|]. split; [exact Hu|exact Hw].
Defined.

(** C5 fails as stated: a win at [R = O = 1200], [K = 32] returns with the
    new rating 1216 and with [wins], [losses] and [draws] all still 0. *)
Lemma win_leaves_counters :
  fields_after
    (update_rating coarse_libm (stored_elo 1%positive 1200 32) (PyInt 1) 1200
       (world_of 1%positive (stored_elo 1%positive 1200 32) 100))
  = Ok (1216, (0, 0, 0)).
Proof. vm_compute. reflexivity. Qed.

(** ** The expected score *)






(* ===================================================================== *)
(** * Further properties of the code *)
(* ===================================================================== *)

(* ===================================================================== *)
(** ** Rounding between two floats *)
(* ===================================================================== *)

Lemma pow2_pos (k : Z) : 0 <= k -> 0 < 2 ^ k.
Proof. intros. apply Z.pow_pos_nonneg; lia. Qed.

Lemma half_unit_pos : 0 < half_unit.
Proof. apply pow2_pos. discriminate. Qed.

Lemma overflow_units_pos : 0 < overflow_units.
Proof. apply Z.mul_pos_pos; apply pow2_pos; discriminate. Qed.

(** [1/2 = 2^(-1-e) * 2^e] and [2^e = 2^(e+1) * 1/2], in units. *)
Lemma half_unit_split (e : Z) :
  -2148 <= e <= -1 -> half_unit = 2 ^ (-1 - e) * 2 ^ (e + 2148).
Proof.
  intros H. unfold half_unit. rewrite <- Z.pow_add_r by lia. f_equal. lia.
Qed.

Lemma unit_split (e : Z) :
  -1 <= e -> 2 ^ (e + 2148) = 2 ^ (e + 1) * half_unit.
Proof.
  intros H. unfold half_unit. rewrite <- Z.pow_add_r by lia. f_equal. lia.
Qed.

Lemma unit_split_nonneg (e : Z) :
  0 <= e -> 2 ^ (e + 2148) = 2 * 2 ^ e * half_unit.
Proof.
  intros H. rewrite (unit_split e) by lia. f_equal.
  replace (e + 1) with (Z.succ e) by lia. apply Z.pow_succ_r. exact H.
Qed.

Lemma valid_finite_range (s : bool) (m : positive) (e : Z) :
  valid (S754_finite s m e) = true ->
  -1074 <= e <= 971 /\ Z.pos m < 2 ^ 53 /\ (2 ^ 52 <= Z.pos m \/ e = -1074).
Proof.
  intros H. apply valid_finite_iff in H. destruct H as [Hc He].
  unfold fexp64, mag in Hc. pose proof (digits_bounds m) as [Hl Hu].
  set (d := Z.pos (digits2_pos m)) in *.
  assert (Hd : d <= 53) by lia.
  split; [lia|]. split.
  - assert (2 ^ d <= 2 ^ 53) by (apply Z.pow_le_mono_r; lia). lia.
  - destruct (Z.eq_dec e (-1074)) as [|Hne]; [right; assumption|left].
    assert (d = 53) by lia. replace (d - 1) with 52 in Hl by lia. exact Hl.
Qed.

(** No binary64 lies strictly between two neighbours of the grid a rounding
    works on. *)
Lemma no_float_between (s : bool) (mc : positive) (ec m1 e1 : Z) :
  valid (S754_finite s mc ec) = true ->
  2 ^ 52 <= m1 \/ e1 <= -1074 -> -2148 <= e1 ->
  m1 * 2 ^ (e1 + 2148) < Z.pos mc * 2 ^ (ec + 2148) ->
  (m1 + 1) * 2 ^ (e1 + 2148) <= Z.pos mc * 2 ^ (ec + 2148).
Proof.
  intros Hv Hg He1 Hlt.
  destruct (valid_finite_range _ _ _ Hv) as (Hec & Hmc & _).
  destruct (Z.le_gt_cases e1 ec) as [Hle | Hgt].
  - assert (E : 2 ^ (ec + 2148) = 2 ^ (ec - e1) * 2 ^ (e1 + 2148))
      by (rewrite <- Z.pow_add_r by lia; f_equal; lia).
    rewrite E in *.
    pose proof (pow2_pos (e1 + 2148) ltac:(lia)) as HX.
    pose proof (pow2_pos (ec - e1) ltac:(lia)) as HP.
    set (X := 2 ^ (e1 + 2148)) in *. set (P := 2 ^ (ec - e1)) in *.
    assert (m1 < Z.pos mc * P) by nia. nia.
  - exfalso. destruct Hg as [Hg | Hg]; [|lia].
    assert (E : 2 ^ (e1 + 2148) = 2 ^ (e1 - ec - 1) * 2 * 2 ^ (ec + 2148)).
    { change 2 with (2 ^ 1) at 3. rewrite <- !Z.pow_add_r by lia. f_equal. lia. }
    rewrite E in Hlt.
    pose proof (pow2_pos (ec + 2148) ltac:(lia)) as HY.
    pose proof (pow2_pos (e1 - ec - 1) ltac:(lia)) as HP.
    set (Y := 2 ^ (ec + 2148)) in *. set (P := 2 ^ (e1 - ec - 1)) in *.
    assert (m1 * (P * 2) < Z.pos mc) by nia.
    change (2 ^ 53) with (2 ^ 52 * 2) in Hmc. nia.
Qed.

(** A full mantissa at the top exponent is out of range. *)
Lemma overflow_units_le (m e : Z) :
  (m = 2 ^ 53 /\ 971 <= e) \/ (2 ^ 52 <= m /\ 972 <= e) ->
  overflow_units <= m * 2 ^ (e + 2148).
Proof.
  intros H. unfold overflow_units.
  assert (E : 2 ^ 53 * 2 ^ (971 + 2148) = 2 ^ 52 * 2 ^ (972 + 2148)).
  { change (2 ^ 53) with (2 ^ 52 * 2 ^ 1). rewrite <- Z.mul_assoc, <- Z.pow_add_r by lia.
    reflexivity. }
  destruct H as [[-> He] | [Hm He]].
  - apply Z.mul_le_mono_nonneg_l; [discriminate|]. apply Z.pow_le_mono_r; lia.
  - rewrite E. apply Z.le_trans with (2 ^ 52 * 2 ^ (e + 2148)).
    + apply Z.mul_le_mono_nonneg_l; [discriminate|]. apply Z.pow_le_mono_r; lia.
    + apply Z.mul_le_mono_nonneg_r; [apply Z.lt_le_incl, pow2_pos; lia|exact Hm].
Qed.

(** Rounding lands on the grid of the last place: on the truncation or on
    its successor, exactly when nothing is cut off; the result is a valid
    float with that value unless the value reaches [2^1024]. *)
Lemma binary_round_aux_grid (s : bool) (m : positive) (e : Z) (l : location) :
  let e1 := fexp64 (mag m e) in
  let m1 := Z.pos m / 2 ^ (e1 - e) in
  let r := binary_round_aux prec emax s (Z.pos m) e l in
  e <= e1 -> -2148 <= e ->
  (2 ^ 52 <= m1 \/ e1 = -1074) /\ 0 <= m1 < 2 ^ 53 /\
  exists m2, (m2 = m1 \/ m2 = m1 + 1) /\
    (l = loc_Exact -> Z.pos m mod 2 ^ (e1 - e) = 0 -> m2 = m1) /\
    ((r = S754_infinity s /\ overflow_units <= m2 * 2 ^ (e1 + 2148)) \/
     (is_finite r = true /\ valid r = true /\
      units r = cond_Zopp s (m2 * 2 ^ (e1 + 2148)))).
Proof.
  intros e1 m1 r He Hlow.
  destruct (binary_round_aux_spec s m e l) as (m2 & Hm2 & Hex & Hres).
  cbv zeta in Hres. fold e1 in Hm2, Hex, Hres.
  replace (Z.max (e1 - e) 0) with (e1 - e) in * by lia.
  fold m1 in Hm2, Hex, Hres. replace (e + (e1 - e)) with e1 in Hres by lia.
  fold r in Hres.
  pose proof (digits_bounds m) as Hd.
  set (d := Z.pos (digits2_pos m)) in *.
  assert (HD : mag m e = d + e) by reflexivity.
  assert (He1 : e1 = Z.max (d + e - 53) (-1074)) by (unfold e1, fexp64; rewrite HD; reflexivity).
  assert (Hd0 : 0 < d) by (unfold d; lia).
  assert (Hm1u : 0 <= m1 < 2 ^ 53).
  { split; [apply Z.div_pos; [lia|apply pow2_pos; lia]|].
    apply Z.div_lt_upper_bound; [apply pow2_pos; lia|].
    rewrite <- Z.pow_add_r by lia.
    assert (2 ^ d <= 2 ^ (e1 - e + 53)) by (apply Z.pow_le_mono_r; lia). lia. }
  assert (Hm1l : 2 ^ 52 <= m1 \/ e1 = -1074).
  { destruct (Z.eq_dec e1 (-1074)) as [|Hne]; [right; assumption|left].
    assert (e1 = d + e - 53) by lia.
    apply Z.div_le_lower_bound; [apply pow2_pos; lia|].
    rewrite <- Z.pow_add_r by lia.
    replace (e1 - e + 52) with (d - 1) by lia. lia. }
  split; [exact Hm1l|]. split; [exact Hm1u|].
  exists m2. split; [exact Hm2|]. split; [exact Hex|].
  assert (Hm2b : 0 <= m2 <= 2 ^ 53) by lia.
  assert (He1l : -1074 <= e1) by lia.
  destruct (Z.eq_dec m2 (2 ^ 53)) as [Heq | Hne].
  - rewrite Heq in Hres. change (Zdigits2 (2 ^ 53)) with 54 in Hres.
    replace (Z.max (fexp64 (54 + e1) - e1) 0) with 1 in Hres by (unfold fexp64; lia).
    change (2 ^ 53 / 2 ^ 1) with (Z.pos 4503599627370496) in Hres.
    cbv iota beta in Hres.
    destruct (e1 + 1 <=? 971) eqn:Hov.
    + right. apply Z.leb_le in Hov. rewrite Hres. split; [reflexivity|]. split.
      * apply valid_finite_iff. unfold mag, fexp64. cbn [digits2_pos].
        change (Z.pos (digits2_pos 4503599627370496)) with 53. lia.
      * cbn [units]. f_equal. rewrite Heq.
        replace (e1 + 1 + 2148) with (1 + (e1 + 2148)) by lia.
        rewrite Z.pow_add_r by lia. change (2 ^ 1) with 2.
        change (Z.pos 4503599627370496) with (2 ^ 52). change (2 ^ 53) with (2 ^ 52 * 2). ring.
    + left. apply Z.leb_gt in Hov. split; [exact Hres|].
      apply overflow_units_le. left. split; [exact Heq|lia].
  - assert (Hdig : Zdigits2 m2 <= 53) by (apply Zdigits2_le; lia).
    assert (Hdig0 : 0 <= Zdigits2 m2) by (destruct m2; cbn; lia).
    replace (Z.max (fexp64 (Zdigits2 m2 + e1) - e1) 0) with 0 in Hres by (unfold fexp64; lia).
    change (2 ^ 0) with 1 in Hres. rewrite Z.div_1_r, Z.add_0_r in Hres.
    destruct m2 as [|m3|m3]; try lia.
    + right. rewrite Hres. split; [reflexivity|]. split; [reflexivity|].
      cbn [units]. destruct s; reflexivity.
    + destruct (e1 <=? 971) eqn:Hov.
      * right. apply Z.leb_le in Hov. rewrite Hres. split; [reflexivity|]. split; [|reflexivity].
        apply valid_finite_iff. split; [|exact Hov].
        cbn [Zdigits2] in Hdig. unfold mag, fexp64.
        destruct Hm1l as [Hn | Hs]; [|lia].
        assert (53 <= Z.pos (digits2_pos m3)).
        { change (Z.pos (digits2_pos m3)) with (Zdigits2 (Z.pos m3)).
          apply (Zdigits2_ge (Z.pos m3) 52); lia. }
        lia.
      * left. apply Z.leb_gt in Hov. split; [exact Hres|].
        apply overflow_units_le. right.
        destruct Hm1l as [Hn | Hs]; lia.
Qed.

Lemma units_upper (c : float) : finite_float c -> units c < overflow_units.
Proof.
  intros [Hv Hf]. destruct c as [s | s | | s m e]; try discriminate.
  - apply overflow_units_pos.
  - destruct (valid_finite_range _ _ _ Hv) as (He & Hm & _).
    assert (HA : 2 ^ (e + 2148) <= 2 ^ (971 + 2148)) by (apply Z.pow_le_mono_r; lia).
    pose proof (pow2_pos (e + 2148) ltac:(lia)) as HY.
    unfold overflow_units. cbn [units].
    set (A := 2 ^ (971 + 2148)) in *. clearbody A.
    set (Y := 2 ^ (e + 2148)) in *.
    destruct s; cbn [cond_Zopp]; nia.
Qed.

Lemma units_pos_inv (c : float) :
  finite_float c -> 0 < units c ->
  exists m e, c = S754_finite false m e /\ units c = Z.pos m * 2 ^ (e + 2148).
Proof.
  intros [Hv Hf] Hp. destruct c as [s | s | | s m e]; try discriminate; cbn in Hp; try lia.
  destruct (valid_finite_range _ _ _ Hv) as (He & _).
  pose proof (pow2_pos (e + 2148) ltac:(lia)).
  destruct s; cbn [cond_Zopp] in Hp; [nia|]. exists m, e. split; reflexivity.
Qed.

Lemma grid_step (m e e1 : Z) :
  0 <= m -> -2148 <= e <= e1 ->
  let m1 := m / 2 ^ (e1 - e) in
  m1 * 2 ^ (e1 + 2148) <= m * 2 ^ (e + 2148) < (m1 + 1) * 2 ^ (e1 + 2148) /\
  (m mod 2 ^ (e1 - e) <> 0 -> m1 * 2 ^ (e1 + 2148) < m * 2 ^ (e + 2148)).
Proof.
  intros Hm He m1.
  assert (E : 2 ^ (e1 + 2148) = 2 ^ (e1 - e) * 2 ^ (e + 2148))
    by (rewrite <- Z.pow_add_r by lia; f_equal; lia).
  rewrite E.
  pose proof (pow2_pos (e1 - e) ltac:(lia)) as HP.
  pose proof (pow2_pos (e + 2148) ltac:(lia)) as HY.
  pose proof (Z.div_mod m (2 ^ (e1 - e)) ltac:(lia)) as Hdm.
  pose proof (Z.mod_pos_bound m (2 ^ (e1 - e)) HP) as Hr.
  fold m1 in Hdm.
  set (P := 2 ^ (e1 - e)) in *. set (Y := 2 ^ (e + 2148)) in *.
  set (r := m mod P) in *.
  split; [split|intros Hne]; nia.
Qed.

(** An exact value at most a float [c] is rounded to at most [c]. *)
Lemma binary_round_aux_le (s : bool) (m : positive) (e : Z) (c : float) :
  e <= fexp64 (mag m e) -> -2148 <= e -> finite_float c ->
  Z.pos m * 2 ^ (e + 2148) <= units c ->
  let r := binary_round_aux prec emax s (Z.pos m) e loc_Exact in
  finite_float r /\ exists v, 0 <= v <= units c /\ units r = cond_Zopp s v.
Proof.
  intros He Hlow Hc Hle r.
  destruct (binary_round_aux_grid s m e loc_Exact He Hlow) as (Hg & Hm1 & m2 & Hm2 & Hex & Hres).
  fold r in Hres.
  set (e1 := fexp64 (mag m e)) in *. set (m1 := Z.pos m / 2 ^ (e1 - e)) in *.
  destruct (grid_step (Z.pos m) e e1 ltac:(lia) ltac:(lia)) as ((Hlo & Hhi) & Hstrict).
  fold m1 in Hlo, Hhi, Hstrict.
  assert (He1 : -1074 <= e1) by (unfold e1, fexp64; lia).
  pose proof (pow2_pos (e1 + 2148) ltac:(lia)) as HX.
  assert (Hb : m2 * 2 ^ (e1 + 2148) <= units c).
  { destruct (Z.eq_dec (Z.pos m mod 2 ^ (e1 - e)) 0) as [Hz | Hnz].
    - rewrite (Hex eq_refl Hz). lia.
    - specialize (Hstrict Hnz).
      destruct (units_pos_inv c Hc) as (mc & ec & -> & Hu);
        [pose proof (pow2_pos (e + 2148) ltac:(lia)); nia|].
      rewrite Hu in *.
      pose proof (no_float_between false mc ec m1 e1 (proj1 Hc) ltac:(lia) ltac:(lia) ltac:(lia)).
      destruct Hm2 as [-> | ->]; lia. }
  pose proof (units_upper c Hc) as Hup.
  destruct Hres as [[_ Hinf] | (Hf & Hv & Hu)]; [lia|].
  split; [split; assumption|]. exists (m2 * 2 ^ (e1 + 2148)).
  split; [split; [apply Z.mul_nonneg_nonneg; lia|exact Hb]|exact Hu].
Qed.

(** A value at least a float [c >= 0] is rounded to at least [c], in any
    rounding state. *)
Lemma binary_round_aux_ge (s : bool) (m : positive) (e : Z) (l : location) (c : float) :
  e <= fexp64 (mag m e) -> -2148 <= e -> finite_float c ->
  units c <= Z.pos m * 2 ^ (e + 2148) ->
  let r := binary_round_aux prec emax s (Z.pos m) e l in
  r = S754_infinity s \/
  (finite_float r /\ exists v, 0 <= v /\ units c <= v /\ units r = cond_Zopp s v).
Proof.
  intros He Hlow Hc Hle r.
  destruct (binary_round_aux_grid s m e l He Hlow) as (Hg & Hm1 & m2 & Hm2 & Hex & Hres).
  fold r in Hres.
  set (e1 := fexp64 (mag m e)) in *. set (m1 := Z.pos m / 2 ^ (e1 - e)) in *.
  destruct (grid_step (Z.pos m) e e1 ltac:(lia) ltac:(lia)) as ((Hlo & Hhi) & Hstrict).
  fold m1 in Hlo, Hhi, Hstrict.
  assert (He1 : -1074 <= e1) by (unfold e1, fexp64; lia).
  pose proof (pow2_pos (e1 + 2148) ltac:(lia)) as HX.
  assert (Hb : units c <= m1 * 2 ^ (e1 + 2148)).
  { destruct (Z.le_gt_cases (units c) (m1 * 2 ^ (e1 + 2148))) as [|Hgt]; [assumption|].
    destruct (units_pos_inv c Hc) as (mc & ec & -> & Hu); [nia|].
    rewrite Hu in *.
    pose proof (no_float_between false mc ec m1 e1 (proj1 Hc) ltac:(lia) ltac:(lia) ltac:(lia)).
    lia. }
  destruct Hres as [[Hinf _] | (Hf & Hv & Hu)]; [left; exact Hinf|right].
  split; [split; assumption|]. exists (m2 * 2 ^ (e1 + 2148)).
  split; [apply Z.mul_nonneg_nonneg; lia|]. split; [|exact Hu].
  apply Z.le_trans with (1 := Hb). apply Z.mul_le_mono_nonneg_r; lia.
Qed.

Lemma finite_float_opp (c : float) : finite_float c -> finite_float (SFopp c).
Proof. intros [Hv Hf]. destruct c; try discriminate; split; assumption. Qed.

Lemma units_opp (c : float) : units (SFopp c) = - units c.
Proof. destruct c as [| | |[] m e]; cbn; lia. Qed.

(** Rounding keeps an exact value between any two floats that enclose it. *)
Lemma binary_round_aux_between (s : bool) (m : positive) (e : Z) (lo hi : float) :
  e <= fexp64 (mag m e) -> -2148 <= e -> finite_float lo -> finite_float hi ->
  units lo <= cond_Zopp s (Z.pos m * 2 ^ (e + 2148)) <= units hi ->
  let r := binary_round_aux prec emax s (Z.pos m) e loc_Exact in
  finite_float r /\ units lo <= units r <= units hi.
Proof.
  intros He Hlow Hlo Hhi [H1 H2] r. pose proof (pow2_pos (e + 2148) ltac:(lia)) as HY.
  destruct s; cbn [cond_Zopp] in H1, H2.
  - assert (H1' : Z.pos m * 2 ^ (e + 2148) <= units (SFopp lo)) by (rewrite units_opp; lia).
    destruct (binary_round_aux_le true m e (SFopp lo) He Hlow (finite_float_opp _ Hlo) H1')
      as (Hf & v & Hv & Hu).
    fold r in Hf, Hu. rewrite units_opp in Hv.
    split; [exact Hf|]. cbn [cond_Zopp] in Hu. split; [lia|].
    destruct (Z.le_gt_cases 0 (units hi)) as [|Hp]; [lia|].
    assert (H2' : units (SFopp hi) <= Z.pos m * 2 ^ (e + 2148)) by (rewrite units_opp; lia).
    destruct (binary_round_aux_ge true m e loc_Exact (SFopp hi) He Hlow (finite_float_opp _ Hhi) H2')
      as [Hinf | (_ & v' & _ & Hv' & Hu')]; fold r in Hinf || fold r in Hu'.
    + rewrite Hinf in Hf. destruct Hf as [_ Hf]. discriminate.
    + rewrite units_opp in Hv'. cbn [cond_Zopp] in Hu'. lia.
  - destruct (binary_round_aux_le false m e hi He Hlow Hhi H2) as (Hf & v & Hv & Hu).
    fold r in Hf, Hu.
    split; [exact Hf|]. cbn [cond_Zopp] in Hu. split; [|lia].
    destruct (Z.le_gt_cases (units lo) 0) as [|Hp]; [lia|].
    destruct (binary_round_aux_ge false m e loc_Exact lo He Hlow Hlo H1)
      as [Hinf | (_ & v' & _ & Hv' & Hu')]; fold r in Hinf || fold r in Hu'.
    + rewrite Hinf in Hf. destruct Hf as [_ Hf]. discriminate.
    + cbn [cond_Zopp] in Hu'. lia.
Qed.

Lemma binary_normalize_between (M e : Z) (lo hi : float) :
  -2148 <= e -> finite_float lo -> finite_float hi ->
  units lo <= M * 2 ^ (e + 2148) <= units hi ->
  let r := binary_normalize prec emax M e false in
  finite_float r /\ units lo <= units r <= units hi.
Proof.
  intros Hlow Hlo Hhi H.
  assert (Hround : forall s m,
    units lo <= cond_Zopp s (Z.pos m * 2 ^ (e + 2148)) <= units hi ->
    finite_float (binary_round prec emax s m e) /\
    units lo <= units (binary_round prec emax s m e) <= units hi).
  { intros s m Hs. unfold binary_round. rewrite fexp_eq. fold (mag m e).
    destruct (shl_align_spec m e (fexp64 (mag m e))) as (m' & -> & Hm' & Hmag).
    assert (Hf : -1074 <= fexp64 (mag m e)) by (unfold fexp64; lia).
    apply binary_round_aux_between; try assumption.
    - rewrite Hmag. lia.
    - lia.
    - rewrite Hm'. rewrite <- Z.mul_assoc, <- Z.pow_add_r by lia.
      replace (e - Z.min e (fexp64 (mag m e)) + (Z.min e (fexp64 (mag m e)) + 2148))
        with (e + 2148) by lia. exact Hs. }
  destruct M as [|m|m]; cbn [binary_normalize].
  - split; [split; reflexivity|]. cbn. lia.
  - apply Hround. exact H.
  - apply Hround. cbn [cond_Zopp]. lia.
Qed.

Lemma units_finite (s : bool) (m : positive) (e ez : Z) :
  -2148 <= ez <= e ->
  cond_Zopp s (Z.pos m * 2 ^ (e - ez)) * 2 ^ (ez + 2148)
  = units (S754_finite s m e).
Proof.
  intros H. cbn [units].
  assert (E : 2 ^ (e + 2148) = 2 ^ (e - ez) * 2 ^ (ez + 2148))
    by (rewrite <- Z.pow_add_r by lia; f_equal; lia).
  rewrite E. destruct s; cbn [cond_Zopp]; ring.
Qed.

Lemma finite_float_exp (s : bool) (m : positive) (e : Z) :
  finite_float (S754_finite s m e) -> -1074 <= e.
Proof. intros [Hv _]. apply valid_finite_range in Hv. lia. Qed.

(** A sum or a difference stays between any two floats that enclose its
    exact value. *)
Lemma fadd_between (a b lo hi : float) :
  finite_float a -> finite_float b -> finite_float lo -> finite_float hi ->
  units lo <= units a + units b <= units hi ->
  finite_float (fadd a b) /\ units lo <= units (fadd a b) <= units hi.
Proof.
  intros Ha Hb Hlo Hhi H.
  destruct a as [sa | sa | | sa ma ea]; try (destruct Ha as [_ Ha]; discriminate);
    destruct b as [sb | sb | | sb mb eb]; try (destruct Hb as [_ Hb]; discriminate).
  - cbn in H. split; [destruct sa, sb; split; reflexivity|].
    destruct sa, sb; cbn; lia.
  - split; [exact Hb|]. cbn [fadd SFadd]. cbn [units] in H |- *. lia.
  - split; [exact Ha|]. cbn [fadd SFadd]. cbn [units] in H |- *. lia.
  - pose proof (finite_float_exp _ _ _ Ha). pose proof (finite_float_exp _ _ _ Hb).
    unfold fadd. cbn [SFadd].
    set (ez := Z.min ea eb).
    destruct (shl_align_spec ma ea ez) as (ma' & Ea & Hma & _).
    destruct (shl_align_spec mb eb ez) as (mb' & Eb & Hmb & _).
    replace (Z.min ea ez) with ez in * by lia.
    replace (Z.min eb ez) with ez in * by lia.
    rewrite Ea, Eb. cbn [fst].
    apply binary_normalize_between; try assumption; [lia|].
    rewrite Hma, Hmb, Z.mul_add_distr_r, !units_finite by lia. exact H.
Qed.

Lemma fsub_between (a b lo hi : float) :
  finite_float a -> finite_float b -> finite_float lo -> finite_float hi ->
  units lo <= units a - units b <= units hi ->
  finite_float (fsub a b) /\ units lo <= units (fsub a b) <= units hi.
Proof.
  intros Ha Hb Hlo Hhi H.
  destruct a as [sa | sa | | sa ma ea]; try (destruct Ha as [_ Ha]; discriminate);
    destruct b as [sb | sb | | sb mb eb]; try (destruct Hb as [_ Hb]; discriminate).
  - cbn in H. split; [destruct sa, sb; split; reflexivity|].
    destruct sa, sb; cbn; lia.
  - cbn [fsub SFsub]. split.
    + destruct Hb as [Hv Hf]. split; [exact Hv|reflexivity].
    + cbn [units] in H |- *. destruct sb; cbn [cond_Zopp negb] in *; lia.
  - split; [exact Ha|]. cbn [fsub SFsub]. cbn [units] in H |- *. lia.
  - pose proof (finite_float_exp _ _ _ Ha). pose proof (finite_float_exp _ _ _ Hb).
    unfold fsub. cbn [SFsub].
    set (ez := Z.min ea eb).
    destruct (shl_align_spec ma ea ez) as (ma' & Ea & Hma & _).
    destruct (shl_align_spec mb eb ez) as (mb' & Eb & Hmb & _).
    replace (Z.min ea ez) with ez in * by lia.
    replace (Z.min eb ez) with ez in * by lia.
    rewrite Ea, Eb. cbn [fst].
    apply binary_normalize_between; try assumption; [lia|].
    rewrite Hma, Hmb, Z.mul_sub_distr_r, !units_finite by lia. exact H.
Qed.

Lemma digits_mul_lower (ma mb : positive) :
  Z.pos (digits2_pos ma) + Z.pos (digits2_pos mb) - 1 <= Z.pos (digits2_pos (ma * mb)).
Proof.
  pose proof (digits_bounds ma) as [A1 _]. pose proof (digits_bounds mb) as [B1 _].
  set (da := Z.pos (digits2_pos ma)) in *. set (db := Z.pos (digits2_pos mb)) in *.
  assert (Hprod : 2 ^ (da + db - 2) <= Z.pos (ma * mb)).
  { rewrite Pos2Z.inj_mul.
    replace (da + db - 2) with ((da - 1) + (db - 1)) by lia.
    rewrite !Z.pow_add_r by (unfold da, db; lia).
    assert (0 < 2 ^ (da - 1)) by (apply Z.pow_pos_nonneg; unfold da; lia).
    assert (0 < 2 ^ (db - 1)) by (apply Z.pow_pos_nonneg; unfold db; lia).
    nia. }
  change (Z.pos (digits2_pos (ma * mb))) with (Zdigits2 (Z.pos (ma * mb))).
  pose proof (Zdigits2_ge (Z.pos (ma * mb)) (da + db - 2) ltac:(unfold da, db; lia) Hprod).
  lia.
Qed.

(** A product stays between any two floats that enclose its exact value
    (one factor of [2^2148] on each side, the product of two values counting
    units of [2^-4296]). *)
Lemma fmul_between (a b lo hi : float) :
  finite_float a -> finite_float b -> finite_float lo -> finite_float hi ->
  units lo * (2 * half_unit) <= units a * units b <= units hi * (2 * half_unit) ->
  finite_float (fmul a b) /\ units lo <= units (fmul a b) <= units hi.
Proof.
  intros Ha Hb Hlo Hhi H.
  pose proof half_unit_pos as HT.
  assert (Hzero : units a * units b = 0 ->
                  forall s, finite_float (S754_zero s) /\
                            units lo <= units (S754_zero s) <= units hi).
  { intros E s. rewrite E in H. split; [split; reflexivity|]. cbn [units]. nia. }
  destruct a as [sa | sa | | sa ma ea]; try (destruct Ha as [_ Ha]; discriminate);
    destruct b as [sb | sb | | sb mb eb]; try (destruct Hb as [_ Hb]; discriminate);
    try (cbn [fmul SFmul]; apply Hzero; cbn [units]; ring).
  clear Hzero.
  destruct (valid_finite_range _ _ _ (proj1 Ha)) as (Hea & Hma & Hna).
  destruct (valid_finite_range _ _ _ (proj1 Hb)) as (Heb & Hmb & Hnb).
  unfold fmul. cbn [SFmul].
  apply binary_round_aux_between; try assumption.
  - pose proof (digits_mul_lower ma mb) as Hd.
    assert (Hda : 0 < Z.pos (digits2_pos ma)) by lia.
    assert (Hdb : 0 < Z.pos (digits2_pos mb)) by lia.
    unfold mag, fexp64.
    destruct Hna as [Hna | Hna]; [|destruct Hnb as [Hnb | Hnb]; [|lia]].
    + assert (53 <= Z.pos (digits2_pos ma)).
      { change (Z.pos (digits2_pos ma)) with (Zdigits2 (Z.pos ma)).
        apply (Zdigits2_ge (Z.pos ma) 52); lia. }
      lia.
    + assert (53 <= Z.pos (digits2_pos mb)).
      { change (Z.pos (digits2_pos mb)) with (Zdigits2 (Z.pos mb)).
        apply (Zdigits2_ge (Z.pos mb) 52); lia. }
      lia.
  - lia.
  - assert (E : cond_Zopp (xorb sa sb) (Z.pos (ma * mb) * 2 ^ (ea + eb + 2148))
                  * (2 * half_unit)
                = units (S754_finite sa ma ea) * units (S754_finite sb mb eb)).
    { cbn [units]. rewrite Pos2Z.inj_mul.
      assert (E : 2 ^ (ea + 2148) * 2 ^ (eb + 2148)
                  = 2 ^ (ea + eb + 2148) * (2 * half_unit)).
      { change (2 * half_unit) with (2 ^ 2148).
        rewrite <- !Z.pow_add_r by lia. f_equal. lia. }
      destruct sa, sb; cbn [cond_Zopp xorb]; nia. }
    rewrite <- E in H. nia.
Qed.

(** An integer a float holds exactly. *)
Lemma Z2F_units (z : Z) :
  Z.abs z < 2 ^ 53 -> finite_float (Z2F z) /\ units (Z2F z) = z * (2 * half_unit).
Proof.
  intros Hz. destruct (Z.eq_dec z 0) as [-> | Hne]; [split; [split|]; reflexivity|].
  destruct (Z2F_exact_digits z Hne Hz) as (m & e & -> & He & Hm & Hd & Hs).
  split.
  - split; [|reflexivity]. apply valid_finite_iff. unfold mag, fexp64. lia.
  - rewrite <- (units_finite _ m e e) by lia. rewrite Z.sub_diag, Z.mul_1_r, Hs.
    rewrite <- Z.mul_assoc. f_equal.
    change (2 * half_unit) with (2 ^ 2148).
    rewrite <- Z.pow_add_r by lia. f_equal. lia.
Qed.

(** Half an integer a float holds exactly. *)
Lemma half_units (N : Z) :
  Z.abs N < 2 ^ 53 ->
  exists c, finite_float c /\ units c = N * half_unit.
Proof.
  intros Hz. destruct (Z.eq_dec N 0) as [-> | Hne].
  - exists pzero. split; [split|]; reflexivity.
  - destruct (Z2F_exact_digits N Hne Hz) as (m & e & _ & He & Hm & Hd & Hs).
    exists (S754_finite (N <? 0) m (e - 1)). split.
    + split; [|reflexivity]. apply valid_finite_iff. unfold mag, fexp64. lia.
    + rewrite <- (units_finite _ m (e - 1) (e - 1)) by lia.
      rewrite Z.sub_diag, Z.mul_1_r, Hs.
      rewrite <- Z.mul_assoc. f_equal.
      rewrite (half_unit_split (e - 1)) by lia. f_equal. f_equal. lia.
Qed.

(** [round] keeps the result between two integers, or half-integers, that
    enclose the float. *)
Lemma round_between (x : float) (A B : Z) :
  finite_float x -> A * half_unit <= units x <= B * half_unit ->
  exists n, round x = Ok n /\ A - 1 <= 2 * n <= B + 1 /\
    (Z.even A = true -> A <= 2 * n) /\ (Z.even B = true -> 2 * n <= B).
Proof.
  intros [Hv Hf] H. destruct (round_finite x Hf) as [n Hn]. exists n. split; [exact Hn|].
  destruct (round_nearest x n Hn) as [Hnear _].
  pose proof half_unit_pos as HT.
  destruct x as [s | s | | s m e]; try discriminate.
  - cbn in Hnear, H. subst n.
    assert (A <= 0 <= B) by nia.
    split; [lia|]. split; intros _; lia.
  - destruct (valid_finite_range _ _ _ Hv) as (He & _).
    cbn [nearest_int] in Hnear. cbn [units] in H.
    assert (Hcz : cond_Zopp s (Z.pos m * 2 ^ (e + 2148))
                  = cond_Zopp s (Z.pos m) * 2 ^ (e + 2148)) by (destruct s; cbn; ring).
    rewrite Hcz in H. clear Hcz.
    set (v := cond_Zopp s (Z.pos m)) in *.
    destruct (e <? 0) eqn:Eneg.
    + apply Z.ltb_lt in Eneg.
      pose proof (half_unit_split e ltac:(lia)) as E.
      assert (E2 : 2 ^ (- e) = 2 * 2 ^ (-1 - e)).
      { replace (- e) with (Z.succ (-1 - e)) at 1 by lia. apply Z.pow_succ_r. lia. }
      rewrite E in H. rewrite E2 in Hnear.
      pose proof (pow2_pos (e + 2148) ltac:(lia)) as HY.
      pose proof (pow2_pos (-1 - e) ltac:(lia)) as HP.
      clear E HT.
      set (Y := 2 ^ (e + 2148)) in *. set (P := 2 ^ (-1 - e)) in *.
      assert (HA : A * P <= v) by nia.
      assert (HB : v <= B * P) by nia.
      assert (Hn2 : Z.abs (2 * n * P - v) <= P) by lia.
      assert (H1 : A - 1 <= 2 * n) by nia.
      assert (H2 : 2 * n <= B + 1) by nia.
      split; [lia|]. split; intros Hev.
      * destruct (Z.eq_dec (2 * n) (A - 1)) as [Heq|]; [|lia].
        apply Z.even_spec in Hev. destruct Hev as [k Hk]. lia.
      * destruct (Z.eq_dec (2 * n) (B + 1)) as [Heq|]; [|lia].
        apply Z.even_spec in Hev. destruct Hev as [k Hk]. lia.
    + apply Z.ltb_ge in Eneg. subst n.
      rewrite (unit_split e) in H by lia.
      assert (E2 : 2 ^ (e + 1) = 2 * 2 ^ e).
      { replace (e + 1) with (Z.succ e) by lia. apply Z.pow_succ_r. lia. }
      rewrite E2 in H. pose proof (pow2_pos e ltac:(lia)) as HP.
      set (P := 2 ^ e) in *.
      assert (A <= v * (2 * P) <= B) by nia.
      split; [lia|]. split; intros _; lia.
Qed.

(* ===================================================================== *)
(** ** The size and the direction of a rating change *)
(* ===================================================================== *)

(** The steps of [update_rating], once each is known to return. *)
Lemma update_rating_steps (L : Libm) (self : Elo) (s : number) (O : Z) (w : World)
    (E fs Kf Rf : float) :
  _get_expected_score L self O = Ok E -> to_float s = Ok fs ->
  float_of_int (k_factor self) = Ok Kf -> float_of_int (rating self) = Ok Rf ->
  update_rating L self s O w =
    (round (fadd Rf (fmul Kf (fsub fs E))) ≫= fun r => Ok (save (set_rating self r) w)).
Proof.
  intros HE Hs HK HR. unfold update_rating. rewrite HE, (bind_ok _ _ E eq_refl).
  unfold num_sub_float. rewrite Hs, (bind_ok _ _ fs eq_refl), (bind_ok _ _ _ eq_refl).
  unfold int_mul_float. rewrite HK, (bind_ok _ _ _ eq_refl), (bind_ok _ _ _ eq_refl).
  unfold int_add_float. rewrite HR, (bind_ok _ _ _ eq_refl), (bind_ok _ _ _ eq_refl).
  reflexivity.
Qed.

Lemma float_of_int_units (z : Z) :
  Z.abs z < 2 ^ 53 ->
  float_of_int z = Ok (Z2F z) /\ finite_float (Z2F z) /\
  units (Z2F z) = z * (2 * half_unit).
Proof.
  intros Hz. destruct (Z2F_units z Hz) as [Hf Hu]. split; [|split; assumption].
  unfold float_of_int. destruct Hf as [_ Hf]. destruct (Z2F z); try discriminate; reflexivity.
Qed.

(** The unrounded value [R + K * d] stays between [R + K * a/2] and
    [R + K * b/2] when [d] lies between [a/2] and [b/2]. *)
Lemma unrounded_between (R K a b : Z) (d : float) :
  0 <= K -> Z.abs R + K < 2 ^ 52 -> -2 <= a <= b -> b <= 2 ->
  finite_float d -> a * half_unit <= units d <= b * half_unit ->
  let x := fadd (Z2F R) (fmul (Z2F K) d) in
  finite_float x /\
  (2 * R + a * K) * half_unit <= units x <= (2 * R + b * K) * half_unit.
Proof.
  intros HK HRK Ha Hb Hd Hud x.
  assert (H52 : 2 ^ 53 = 2 * 2 ^ 52) by reflexivity.
  assert (H52' : 0 < 2 ^ 52) by reflexivity.
  destruct (Z2F_units K ltac:(lia)) as [HKf HKu].
  destruct (Z2F_units R ltac:(lia)) as [HRf HRu].
  destruct (half_units (a * K) ltac:(nia)) as (tlo & Htlo & Hutlo).
  destruct (half_units (b * K) ltac:(nia)) as (thi & Hthi & Huthi).
  pose proof half_unit_pos as HT.
  destruct (fmul_between (Z2F K) d tlo thi HKf Hd Htlo Hthi) as [Ht Hut].
  { rewrite HKu, Hutlo, Huthi.
    replace (a * K * half_unit * (2 * half_unit))
      with (K * (2 * half_unit) * (a * half_unit)) by ring.
    replace (b * K * half_unit * (2 * half_unit))
      with (K * (2 * half_unit) * (b * half_unit)) by ring.
    split; apply Z.mul_le_mono_nonneg_l; try apply Z.mul_nonneg_nonneg; lia. }
  destruct (half_units (2 * R + a * K) ltac:(nia)) as (xlo & Hxlo & Huxlo).
  destruct (half_units (2 * R + b * K) ltac:(nia)) as (xhi & Hxhi & Huxhi).
  destruct (fadd_between (Z2F R) (fmul (Z2F K) d) xlo xhi HRf Ht Hxlo Hxhi) as [Hx Hux].
  { rewrite HRu, Huxlo, Huxhi. rewrite Hutlo, Huthi in Hut. lia. }
  fold x in Hx, Hux. split; [exact Hx|]. rewrite <- Huxlo, <- Huxhi. exact Hux.
Qed.

(** The expected score, where it is computed, is a float in (0, 1]. *)
Lemma expected_score_units (L : Libm) (self : Elo) (O : Z) :
  Z.abs (O - rating self) < 51200 ->
  exists E, _get_expected_score L self O = Ok E /\
    finite_float E /\ 0 < units E <= 2 * half_unit.
Proof.
  intros Hgap.
  destruct (expected_score_total L self O Hgap) as (m & e & HE & Hd & Hlo & Hhi).
  exists (S754_finite false m e). split; [exact HE|].
  pose proof (digits_bounds m) as [_ Hm]. rewrite Hd in Hm.
  pose proof (pow2_pos (e + 2148) ltac:(lia)) as HY.
  split; [split; [|reflexivity]|].
  - apply valid_finite_iff. unfold mag, fexp64. lia.
  - cbn [units cond_Zopp]. split; [apply Z.mul_pos_pos; [lia|exact HY]|].
    destruct Hhi as [Hlt | [-> ->]]; [|reflexivity].
    rewrite (half_unit_split e) by lia.
    assert (HP : 2 ^ 52 <= 2 ^ (-1 - e)) by (apply Z.pow_le_mono_r; lia).
    change (2 ^ 53) with (2 * 2 ^ 52) in Hm.
    set (Y := 2 ^ (e + 2148)) in *. set (P := 2 ^ (-1 - e)) in *. nia.
Qed.

(** The float of a permitted score: 0.0, 0.5 or 1.0. *)
Lemma permitted_score_units (s : number) :
  permitted_score s = true ->
  exists fs, to_float s = Ok fs /\ finite_float fs /\
    ((is_loss s = true /\ is_draw s = false /\ is_win s = false /\ units fs = 0) \/
     (is_loss s = false /\ is_draw s = true /\ is_win s = false /\ units fs = half_unit) \/
     (is_loss s = false /\ is_draw s = false /\ is_win s = true /\ units fs = 2 * half_unit)).
Proof.
  destruct s as [z | f]; cbn [permitted_score to_float is_win is_draw is_loss].
  - intros H. apply orb_true_iff in H. destruct H as [H | H]; apply Z.eqb_eq in H; subst z.
    + exists pzero. split; [reflexivity|]. split; [split; reflexivity|]. left. repeat split.
    + exists one. split; [reflexivity|]. split; [split; reflexivity|]. right. right. repeat split.
  - intros H. exists f. split; [reflexivity|].
    apply orb_true_iff in H. destruct H as [H | H].
    + apply orb_true_iff in H. destruct H as [H | H].
      * apply SFeqb_zero in H. destruct H as [s' ->]. split; [split; reflexivity|].
        left. destruct s'; repeat split.
      * apply SFeqb_finite_eq in H. subst f. split; [split; reflexivity|].
        right. left. repeat split.
    + apply SFeqb_finite_eq in H. subst f. split; [split; reflexivity|].
      right. right. repeat split.
Qed.

(** The new rating [round(R + K * (s - E))] stays between the roundings of
    [R + K * a/2] and [R + K * b/2] when [s - E] lies between [a/2] and
    [b/2]. *)
Lemma update_rating_between (L : Libm) (self : Elo) (s : number) (O : Z) (w : World)
    (E fs : float) (a b : Z) :
  _get_expected_score L self O = Ok E -> to_float s = Ok fs ->
  finite_float E -> finite_float fs ->
  0 <= k_factor self -> Z.abs (rating self) + k_factor self < 2 ^ 52 ->
  -2 <= a <= b -> b <= 2 ->
  a * half_unit <= units fs - units E <= b * half_unit ->
  exists n,
    update_rating L self s O w = Ok (save (set_rating self n) w) /\
    2 * rating self + a * k_factor self - 1 <= 2 * n
      <= 2 * rating self + b * k_factor self + 1 /\
    (Z.even (a * k_factor self) = true -> 2 * rating self + a * k_factor self <= 2 * n) /\
    (Z.even (b * k_factor self) = true -> 2 * n <= 2 * rating self + b * k_factor self).
Proof.
  intros HE Hfs HEf Hfsf HK HRK Ha Hb Hd.
  set (R := rating self) in *. set (K := k_factor self) in *.
  assert (H52 : 0 < 2 ^ 52 /\ 2 ^ 53 = 2 * 2 ^ 52) by (split; reflexivity).
  destruct (float_of_int_units K ltac:(lia)) as (HKf & _).
  destruct (float_of_int_units R ltac:(lia)) as (HRf & _).
  rewrite (update_rating_steps L self s O w E fs _ _ HE Hfs HKf HRf).
  destruct (half_units a ltac:(lia)) as (dlo & Hdlo & Hudlo).
  destruct (half_units b ltac:(lia)) as (dhi & Hdhi & Hudhi).
  destruct (fsub_between fs E dlo dhi Hfsf HEf Hdlo Hdhi ltac:(lia)) as [Hdf Hdu].
  rewrite Hudlo, Hudhi in Hdu.
  destruct (unrounded_between R K a b _ HK HRK Ha Hb Hdf Hdu) as [Hx Hxu].
  destruct (round_between _ _ _ Hx Hxu) as (n & Hn & Hb2 & Hlo & Hhi).
  exists n. rewrite Hn. split; [reflexivity|]. split; [exact Hb2|].
  split; intros Hev.
  - apply Hlo. rewrite Z.even_add, Z.even_mul, Hev. reflexivity.
  - apply Hhi. rewrite Z.even_add, Z.even_mul, Hev. reflexivity.
Qed.

Lemma even_mul_l (c k : Z) : Z.even c = true -> Z.even (c * k) = true.
Proof. intros H. rewrite Z.even_mul, H. reflexivity. Qed.

(** X1. One game moves a rating by at most the k-factor, and in the
    direction of the result. For a permitted score, a k-factor [K >= 0], a
    rating [R] with [|R| + K < 2^52] and a rating difference below 51200,
    [update_rating] returns and the new rating [R'] satisfies
    [|R' - R| <= K]; after a win [R <= R'], after a loss [R' <= R], and
    after a draw [2 * |R' - R| <= K + 1]. *)
Theorem rating_change_bounded :
  forall (L : Libm) (self : Elo) (s : number) (O : Z) (w : World),
    0 <= k_factor self -> Z.abs (rating self) + k_factor self < 2 ^ 52 ->
    Z.abs (O - rating self) < 51200 -> permitted_score s = true ->
    exists self' w',
      update_rating L self s O w = Ok (self', w') /\
      Z.abs (rating self' - rating self) <= k_factor self /\
      (is_win s = true -> rating self <= rating self') /\
      (is_loss s = true -> rating self' <= rating self) /\
      (is_draw s = true ->
       2 * Z.abs (rating self' - rating self) <= k_factor self + 1).
Proof.
  intros L self s O w HK HRK Hgap Hs.
  destruct (expected_score_units L self O Hgap) as (E & HE & HEf & HEu).
  destruct (permitted_score_units s Hs) as (fs & Hfs & Hfsf & Hcase).
  pose proof (update_rating_between L self s O w E fs) as Hmain.
  specialize (fun a b => Hmain a b HE Hfs HEf Hfsf HK HRK).
  pose proof half_unit_pos as HT.
  destruct Hcase as [(Hl & Hd & Hw & Hu) | [(Hl & Hd & Hw & Hu) | (Hl & Hd & Hw & Hu)]];
    rewrite Hl, Hd, Hw.
  - destruct (Hmain (-2) 0 ltac:(lia) ltac:(lia) ltac:(lia)) as (n & -> & Hb2 & Hlo & Hhi).
    specialize (Hlo (even_mul_l (-2) _ eq_refl)). specialize (Hhi (even_mul_l 0 _ eq_refl)).
    eexists _, _. split; [reflexivity|]. cbn [save set_rating rating fst].
    split; [lia|]. split; [discriminate|]. split; [lia|discriminate].
  - destruct (Hmain (-1) 1 ltac:(lia) ltac:(lia) ltac:(lia)) as (n & -> & Hb2 & _).
    eexists _, _. split; [reflexivity|]. cbn [save set_rating rating fst].
    split; [lia|]. split; [discriminate|]. split; [discriminate|lia].
  - destruct (Hmain 0 2 ltac:(lia) ltac:(lia) ltac:(lia)) as (n & -> & Hb2 & Hlo & Hhi).
    specialize (Hlo (even_mul_l 0 _ eq_refl)). specialize (Hhi (even_mul_l 2 _ eq_refl)).
    eexists _, _. split; [reflexivity|]. cbn [save set_rating rating fst].
    split; [lia|]. split; [lia|]. split; [discriminate|discriminate].
Qed.

Lemma rating_change_bounded_witness :
  exists self' w',
    update_rating coarse_libm (stored_elo 1%positive 1200 32) (PyInt 1) 1300
      (world_of 1%positive (stored_elo 1%positive 1200 32) 100) = Ok (self', w') /\
    Z.abs (rating self' - 1200) <= 32 /\
    (is_win (PyInt 1) = true -> 1200 <= rating self') /\
    (is_loss (PyInt 1) = true -> rating self' <= 1200) /\
    (is_draw (PyInt 1) = true -> 2 * Z.abs (rating self' - 1200) <= 32 + 1).
Proof.
  apply (rating_change_bounded coarse_libm (stored_elo 1%positive 1200 32) (PyInt 1) 1300
           (world_of 1%positive (stored_elo 1%positive 1200 32) 100));
    cbn [rating k_factor stored_elo]; try reflexivity; lia.
Defined.

(* ===================================================================== *)
(** ** The order of floats and the quotient by 400 *)
(* ===================================================================== *)

(** [<=] on floats agrees with the order of their values. *)
Lemma SFleb_units (a b : float) :
  finite_float a -> finite_float b -> units a <= units b -> SFleb a b = true.
Proof.
  intros Ha Hb H.
  assert (Hpos : forall s m e, finite_float (S754_finite s m e) ->
            0 < Z.pos m * 2 ^ (e + 2148)).
  { intros s m e Hf. pose proof (finite_float_exp _ _ _ Hf).
    apply Z.mul_pos_pos; [lia|apply pow2_pos; lia]. }
  assert (Hcmp : forall s1 m1 e1 s2 m2 e2,
            finite_float (S754_finite s1 m1 e1) -> finite_float (S754_finite s2 m2 e2) ->
            Z.pos m1 * 2 ^ (e1 + 2148) <= Z.pos m2 * 2 ^ (e2 + 2148) ->
            e1 < e2 \/ (e1 = e2 /\ (m1 <= m2)%positive)).
  { intros s1 m1 e1 s2 m2 e2 H1 H2 Hle.
    destruct (valid_finite_range _ _ _ (proj1 H1)) as (He1 & Hm1 & Hn1).
    destruct (valid_finite_range _ _ _ (proj1 H2)) as (He2 & Hm2 & Hn2).
    destruct (Z.lt_trichotomy e1 e2) as [Hlt | [Heq | Hgt]]; [left; exact Hlt| |].
    - right. split; [exact Heq|]. subst e2.
      pose proof (pow2_pos (e1 + 2148) ltac:(lia)).
      assert (Z.pos m1 <= Z.pos m2) by nia. lia.
    - exfalso.
      assert (E : 2 ^ (e1 + 2148) = 2 ^ (e1 - e2 - 1) * 2 * 2 ^ (e2 + 2148)).
      { change 2 with (2 ^ 1) at 3. rewrite <- !Z.pow_add_r by lia. f_equal. lia. }
      rewrite E in Hle.
      pose proof (pow2_pos (e2 + 2148) ltac:(lia)) as HY.
      pose proof (pow2_pos (e1 - e2 - 1) ltac:(lia)) as HP.
      set (Y := 2 ^ (e2 + 2148)) in *. set (P := 2 ^ (e1 - e2 - 1)) in *.
      assert (Z.pos m1 * (P * 2) <= Z.pos m2) by nia.
      change (2 ^ 53) with (2 ^ 52 * 2) in Hm2.
      destruct Hn1 as [Hn1 | Hn1]; [nia|lia]. }
  destruct a as [sa | sa | | sa ma ea]; try (destruct Ha as [_ Ha]; discriminate);
    destruct b as [sb | sb | | sb mb eb]; try (destruct Hb as [_ Hb]; discriminate).
  - reflexivity.
  - pose proof (Hpos _ _ _ Hb). cbn [units] in H.
    destruct sb; cbn [cond_Zopp] in H; [lia|reflexivity].
  - pose proof (Hpos _ _ _ Ha). cbn [units] in H.
    destruct sa; cbn [cond_Zopp] in H; [reflexivity|lia].
  - pose proof (Hpos _ _ _ Ha). pose proof (Hpos _ _ _ Hb).
    cbn [units] in H. unfold SFleb, SFcompare.
    destruct sa, sb; cbn [cond_Zopp] in H; try lia; try reflexivity.
    + destruct (Hcmp _ _ _ _ _ _ Hb Ha ltac:(lia)) as [Hlt | [-> Hm]].
      * destruct (Z.compare_spec ea eb); try lia; reflexivity.
      * rewrite Z.compare_refl. rewrite Pos.compare_cont_spec. cbn [Pos.switch_Eq].
        destruct (Pos.compare_spec ma mb); try reflexivity; lia.
    + destruct (Hcmp _ _ _ _ _ _ Ha Hb ltac:(lia)) as [Hlt | [-> Hm]].
      * destruct (Z.compare_spec ea eb); try lia; reflexivity.
      * rewrite Z.compare_refl. rewrite Pos.compare_cont_spec. cbn [Pos.switch_Eq].
        destruct (Pos.compare_spec ma mb); try reflexivity; lia.
Qed.

(** The core of [a / 400]: a quotient of at least 53 bits and its exponent. *)
Lemma div_core_400 (p : positive) :
  let d := Z.pos (digits2_pos p) in
  exists q e l,
    SFdiv_core_binary prec emax (Z.pos p) 0 400 0 = (Z.pos q, e, l) /\
    e = Z.min (d - 62) 0 /\
    400 * Z.pos q <= Z.pos p * 2 ^ (- e) < 400 * (Z.pos q + 1) /\
    2 ^ 52 <= Z.pos q.
Proof.
  intros d. unfold SFdiv_core_binary. rewrite fexp_eq.
  change (Zdigits2 400) with 9. cbn [Zdigits2]. fold d.
  pose proof (digits_bounds p) as [P1 P2]. fold d in P1, P2.
  assert (Hd : 1 <= d) by (unfold d; lia).
  replace (d + 0 - (9 + 0)) with (d - 9) by lia.
  replace (Z.min (fexp64 (d - 9)) (0 - 0)) with (Z.min (d - 62) 0) by (unfold fexp64; lia).
  set (e := Z.min (d - 62) 0).
  assert (Hm' : match 0 - 0 - e with
                | 0 => Z.pos p
                | Z.pos _ => Z.shiftl (Z.pos p) (0 - 0 - e)
                | Z.neg _ => 0
                end = Z.pos p * 2 ^ (- e)).
  { replace (0 - 0 - e) with (- e) by lia.
    destruct (- e) as [|sh|sh] eqn:Esh; [cbn; lia| |lia].
    rewrite Z.shiftl_mul_pow2 by lia. reflexivity. }
  rewrite Hm'. clear Hm'.
  assert (Hbig : 2 ^ 61 <= Z.pos p * 2 ^ (- e)).
  { destruct (Z.le_gt_cases d 62) as [Hle | Hgt].
    - replace (- e) with (62 - d) by lia.
      assert (E1 : 2 ^ 61 = 2 ^ (d - 1) * 2 ^ (62 - d))
        by (rewrite <- Z.pow_add_r by lia; f_equal; lia).
      rewrite E1. apply Z.mul_le_mono_nonneg_r; [apply Z.lt_le_incl, pow2_pos; lia|exact P1].
    - replace (- e) with 0 by lia. rewrite Z.mul_1_r.
      assert (2 ^ 61 <= 2 ^ (d - 1)) by (apply Z.pow_le_mono_r; lia). lia. }
  set (m' := Z.pos p * 2 ^ (- e)) in *.
  pose proof (Z.div_eucl_eq m' 400 ltac:(lia)) as Hdiv.
  pose proof (Z.mod_pos_bound m' 400 ltac:(lia)) as Hmod.
  unfold Z.modulo in Hmod.
  destruct (Z.div_eucl m' 400) as [q r].
  assert (Hq : 2 ^ 52 <= q) by (change (2 ^ 61) with (2 ^ 52 * 512) in Hbig; lia).
  destruct q as [|q|q]; [cbn in Hq; lia| |lia].
  exists q, e, (new_location 400 r). split; [reflexivity|].
  split; [reflexivity|]. split; [lia|exact Hq].
Qed.

(** [a / 400] for [|a| >= 400 * c]: either out of the float range, or a
    float of the sign of [a] and of magnitude at least [c]. *)
Lemma int_truediv_400_ge (a c : Z) :
  0 < c < 2 ^ 53 -> 400 * c <= Z.abs a ->
  int_truediv a 400 = Raise OverflowError \/
  exists r v, int_truediv a 400 = Ok r /\ finite_float r /\
    c * (2 * half_unit) <= v /\ units r = cond_Zopp (a <? 0) v.
Proof.
  intros Hc Ha. unfold int_truediv. change (400 =? 0) with false. cbv iota.
  destruct (Z.eqb_spec a 0) as [-> | Hne]; [cbn in Ha; lia|].
  change (Z.abs 400) with 400. change (400 <? 0) with false. rewrite xorb_false_r.
  destruct (Z.abs a) as [|p|p] eqn:Eabs; try lia.
  destruct (div_core_400 p) as (q & e & l & -> & He & Hq & Hq52).
  assert (Hdq : 53 <= Z.pos (digits2_pos q)).
  { change (Z.pos (digits2_pos q)) with (Zdigits2 (Z.pos q)).
    apply (Zdigits2_ge (Z.pos q) 52); lia. }
  assert (Hd : 0 < Z.pos (digits2_pos p)) by lia.
  destruct (Z2F_units c ltac:(lia)) as [Hcf Hcu].
  destruct (binary_round_aux_ge (a <? 0) q e l (Z2F c)) as [Hinf | (Hf & v & Hv0 & Hv & Hu)].
  - unfold mag, fexp64. lia.
  - lia.
  - exact Hcf.
  - rewrite Hcu.
    assert (E : 2 * half_unit = 2 ^ (- e) * 2 ^ (e + 2148)).
    { change (2 * half_unit) with (2 ^ 2148).
      rewrite <- Z.pow_add_r by lia. f_equal. lia. }
    rewrite E, Z.mul_assoc.
    apply Z.mul_le_mono_nonneg_r; [apply Z.lt_le_incl, pow2_pos; lia|].
    pose proof (pow2_pos (- e) ltac:(lia)). nia.
  - left. rewrite Hinf. reflexivity.
  - right. exists (binary_round_aux prec emax (a <? 0) (Z.pos q) e l), v.
    split; [|split; [exact Hf|split; [rewrite <- Hcu; exact Hv|exact Hu]]].
    destruct Hf as [_ Hf].
    destruct (binary_round_aux prec emax (a <? 0) (Z.pos q) e l); try discriminate; reflexivity.
Qed.

(** [a / 400] is in the float range for every [a] below [2^1024]. *)
Lemma int_truediv_400_finite (a : Z) :
  Z.abs a < 2 ^ 1024 -> exists r, int_truediv a 400 = Ok r /\ is_finite r = true.
Proof.
  intros Ha. unfold int_truediv. change (400 =? 0) with false. cbv iota.
  destruct (Z.eqb_spec a 0) as [-> | Hne]; [eexists; split; reflexivity|].
  change (Z.abs 400) with 400.
  destruct (Z.abs a) as [|p|p] eqn:Eabs; try lia.
  destruct (div_core_400 p) as (q & e & l & -> & He & Hq & Hq52).
  pose proof (digits_bounds p) as [P1 P2].
  set (d := Z.pos (digits2_pos p)) in *.
  assert (Hd : 1 <= d <= 1024).
  { split; [unfold d; lia|].
    destruct (Z.le_gt_cases d 1024) as [|Hgt]; [assumption|]. exfalso.
    apply (Z.lt_irrefl (Z.pos p)).
    apply Z.lt_le_trans with (1 := Ha). apply Z.le_trans with (2 := P1).
    apply Z.pow_le_mono_r; lia. }
  clear Ha.
  assert (Hqu : Z.pos q < 2 ^ (d - e - 8)).
  { assert (E : 2 ^ (d - e - 8) * 256 = 2 ^ d * 2 ^ (- e)).
    { change 256 with (2 ^ 8). rewrite <- !Z.pow_add_r by lia. f_equal. lia. }
    pose proof (pow2_pos (- e) ltac:(lia)).
    assert (Z.pos p * 2 ^ (- e) < 2 ^ d * 2 ^ (- e)) by nia.
    lia. }
  assert (Hdq : Z.pos (digits2_pos q) <= d - e - 8).
  { change (Z.pos (digits2_pos q)) with (Zdigits2 (Z.pos q)).
    apply Zdigits2_le; lia. }
  assert (Hdq' : 53 <= Z.pos (digits2_pos q)).
  { change (Z.pos (digits2_pos q)) with (Zdigits2 (Z.pos q)).
    apply (Zdigits2_ge (Z.pos q) 52); lia. }
  pose proof (binary_round_aux_bounded (xorb (a <? 0) (400 <? 0)) q e l) as [Hb _].
  - cbv zeta. unfold mag, fexp64. lia.
  - unfold mag. lia.
  - cbv zeta in Hb. apply bounded_by_finite in Hb.
    destruct (binary_round_aux prec emax (xorb (a <? 0) (400 <? 0)) (Z.pos q) e l);
      try discriminate; eexists; split; reflexivity.
Qed.

(* ===================================================================== *)
(** ** Ratings far apart, and equal ratings *)
(* ===================================================================== *)

(** A deficit of 123600 points or more: the quotient is at least 309 and
    [10 ** q] is out of range, or the quotient itself is. *)
Lemma expected_score_overflow (L : Libm) (self : Elo) (O : Z) :
  123600 <= O - rating self -> _get_expected_score L self O = Raise OverflowError.
Proof.
  intros Hgap. unfold _get_expected_score.
  destruct (int_truediv_400_ge (O - rating self) 309 ltac:(split; reflexivity) ltac:(lia))
    as [-> | (q & v & -> & Hqf & Hv & Hu)]; [reflexivity|].
  rewrite (bind_ok _ _ q eq_refl). unfold int_pow_float.
  rewrite float_of_int_10, (bind_ok _ _ ten eq_refl).
  replace (O - rating self <? 0) with false in Hu by (symmetry; apply Z.ltb_ge; lia).
  cbn [cond_Zopp] in Hu.
  destruct (Z2F_units 309 ltac:(reflexivity)) as [H309 Hu309].
  assert (Hle : SFleb (Z2F 309) q = true).
  { apply SFleb_units; [exact H309|exact Hqf|]. rewrite Hu309, Hu. exact Hv. }
  assert (Hp : pow L ten q = pinf) by (apply pow_overflow; [apply Hqf|exact Hle]).
  destruct q as [sq | sq | | sq mq eq].
  - cbn in Hu. pose proof half_unit_pos. lia.
  - destruct Hqf as [_ Hqf]. discriminate.
  - destruct Hqf as [_ Hqf]. discriminate.
  - cbn [float_pow]. rewrite Hp. reflexivity.
Qed.

(** A lead of 8000 points or more: [10 ** q] is absorbed by the addition to
    1 and the expected score is exactly 1.0, unless the quotient is out of
    the float range. *)
Lemma expected_score_one_or_overflow (L : Libm) (self : Elo) (O : Z) :
  O - rating self <= -8000 ->
  (_get_expected_score L self O = Ok one /\ succeeds (int_truediv (O - rating self) 400)) \/
  (_get_expected_score L self O = Raise OverflowError /\
   int_truediv (O - rating self) 400 = Raise OverflowError).
Proof.
  intros Hgap. unfold _get_expected_score.
  destruct (int_truediv_400_ge (O - rating self) 20 ltac:(split; reflexivity) ltac:(lia))
    as [Hr | (q & v & Hq & Hqf & Hv & Hu)].
  - right. rewrite Hr. split; reflexivity.
  - left. split; [|exists q; exact Hq]. rewrite Hq.
    rewrite (bind_ok _ _ q eq_refl). unfold int_pow_float.
    rewrite float_of_int_10, (bind_ok _ _ ten eq_refl).
    replace (O - rating self <? 0) with true in Hu by (symmetry; apply Z.ltb_lt; lia).
    cbn [cond_Zopp] in Hu.
    assert (H20 : finite_float (Z2F (-20)) /\ units (Z2F (-20)) = -20 * (2 * half_unit))
      by (apply Z2F_units; reflexivity).
    destruct H20 as [H20 Hu20].
    assert (Hle : SFleb q (Z2F (-20)) = true).
    { apply SFleb_units; [exact Hqf|exact H20|]. rewrite Hu20, Hu. lia. }
    assert (Ht : tiny (pow L ten q) = true) by (apply pow_tiny; [apply Hqf|exact Hle]).
    assert (Hp : float_pow L ten q = Ok (pow L ten q)).
    { pose proof half_unit_pos as HT.
      destruct q as [sq | sq | | sq mq eq];
        try (destruct Hqf as [_ Hqf]; discriminate Hqf);
        [exfalso; cbn [units] in Hu; lia|].
      cbn [float_pow].
      destruct (pow L ten (S754_finite sq mq eq)) as [s | s | | s m e];
        try discriminate; reflexivity. }
    rewrite Hp, (bind_ok _ _ _ eq_refl). unfold int_add_float.
    rewrite float_of_int_1, (bind_ok _ _ one eq_refl).
    rewrite (fadd_one_tiny _ Ht). reflexivity.
Qed.

Lemma expected_score_one (L : Libm) (self : Elo) (O : Z) :
  O - rating self <= -8000 -> Z.abs (O - rating self) < 2 ^ 1024 ->
  _get_expected_score L self O = Ok one.
Proof.
  intros Hgap Hbig.
  destruct (expected_score_one_or_overflow L self O Hgap) as [[H _] | [_ H]];
    [exact H|].
  destruct (int_truediv_400_finite (O - rating self) Hbig) as (q & Hq & _).
  congruence.
Qed.

Lemma is_win_float (s : number) : is_win s = true -> to_float s = Ok one.
Proof.
  destruct s as [z | f]; cbn [is_win to_float].
  - intros H. apply Z.eqb_eq in H. subst z. reflexivity.
  - intros H. apply SFeqb_finite_eq in H. subst f. reflexivity.
Qed.

Lemma is_draw_float (s : number) : is_draw s = true -> to_float s = Ok half.
Proof.
  destruct s as [z | f]; cbn [is_draw to_float]; [discriminate|].
  intros H. apply SFeqb_finite_eq in H. subst f. reflexivity.
Qed.

Lemma is_loss_float (s : number) :
  is_loss s = true -> exists b, to_float s = Ok (S754_zero b).
Proof.
  destruct s as [z | f]; cbn [is_loss to_float].
  - intros H. apply Z.eqb_eq in H. subst z. exists false. reflexivity.
  - intros H. apply SFeqb_zero in H. destruct H as [b ->]. exists b. reflexivity.
Qed.

Lemma finite_float_one : finite_float one.
Proof. split; reflexivity. Qed.

Lemma finite_float_half : finite_float half.
Proof. split; reflexivity. Qed.

Lemma finite_float_zero (b : bool) : finite_float (S754_zero b).
Proof. split; reflexivity. Qed.

(** The new rating when the float of the score and the expected score are
    known and [s - E] is exactly [a/2]. *)
Lemma update_rating_exact (L : Libm) (self : Elo) (s : number) (O : Z) (w : World)
    (E fs : float) (a : Z) :
  _get_expected_score L self O = Ok E -> to_float s = Ok fs ->
  finite_float E -> finite_float fs ->
  0 <= k_factor self -> Z.abs (rating self) + k_factor self < 2 ^ 52 ->
  -2 <= a <= 2 -> units fs - units E = a * half_unit ->
  Z.even (a * k_factor self) = true ->
  rating_after (update_rating L self s O w)
    = Ok (rating self + a * k_factor self / 2).
Proof.
  intros HE Hfs HEf Hfsf HK HRK Ha Hd Hev.
  destruct (update_rating_between L self s O w E fs a a HE Hfs HEf Hfsf HK HRK
              ltac:(lia) ltac:(lia) ltac:(lia)) as (n & -> & _ & Hlo & Hhi).
  specialize (Hlo Hev). specialize (Hhi Hev).
  unfold rating_after. rewrite (bind_ok _ _ _ eq_refl). cbn [save set_rating rating fst].
  f_equal. apply Z.even_spec in Hev. destruct Hev as [k Hk]. rewrite Hk in *.
  rewrite Z.mul_comm, Z.div_mul by lia. lia.
Qed.

(** X6. Against an opponent rated 123600 points or more higher no rating
    is computed: [_get_expected_score] raises [OverflowError] ([10 ** q] with
    [q >= 309] is out of range, if the quotient is not already), and so
    does [update_rating], before anything is assigned or saved. *)
Theorem far_stronger_opponent_overflows :
  forall (L : Libm) (self : Elo) (s : number) (O : Z) (w : World),
    123600 <= O - rating self ->
    _get_expected_score L self O = Raise OverflowError /\
    update_rating L self s O w = Raise OverflowError.
Proof.
  intros L self s O w Hgap.
  pose proof (expected_score_overflow L self O Hgap) as H.
  split; [exact H|]. unfold update_rating. rewrite H. reflexivity.
Qed.

Lemma far_stronger_opponent_overflows_witness :
  _get_expected_score coarse_libm (stored_elo 1%positive 1200 32) 124800
    = Raise OverflowError /\
  update_rating coarse_libm (stored_elo 1%positive 1200 32) (PyInt 1) 124800
    (world_of 1%positive (stored_elo 1%positive 1200 32) 100) = Raise OverflowError.
Proof.
  apply (far_stronger_opponent_overflows coarse_libm (stored_elo 1%positive 1200 32)
           (PyInt 1) 124800 (world_of 1%positive (stored_elo 1%positive 1200 32) 100)).
  vm_compute. discriminate.
Defined.

(** X4. From a lead of 8000 points on the expected score is exactly 1.0:
    [10 ** q] with [q <= -20] is less than a quarter of the last place of
    1.0 and the addition to 1 absorbs it. The only other outcome is the
    [OverflowError] of the division, which takes a difference of [2^1024] or
    more. *)
Theorem expected_score_one_from_8000 :
  forall (L : Libm) (self : Elo) (O : Z),
    O - rating self <= -8000 ->
    (_get_expected_score L self O = Ok one \/
     _get_expected_score L self O = Raise OverflowError) /\
    (Z.abs (O - rating self) < 2 ^ 1024 -> _get_expected_score L self O = Ok one).
Proof.
  intros L self O Hgap. split.
  - destruct (expected_score_one_or_overflow L self O Hgap) as [[H _] | [H _]];
      [left|right]; exact H.
  - intros H. apply expected_score_one; assumption.
Qed.

Lemma expected_score_one_from_8000_witness :
  _get_expected_score coarse_libm (stored_elo 1%positive 9300 32) 1200 = Ok one.
Proof.
  apply (expected_score_one_from_8000 coarse_libm (stored_elo 1%positive 9300 32) 1200);
    cbn [rating stored_elo]; [lia|reflexivity].
Defined.

(** X5. Against an opponent rated 8000 points or more lower a win leaves
    the rating as it is, and a loss costs the whole k-factor. *)
Theorem far_weaker_opponent_update :
  forall (L : Libm) (self : Elo) (s : number) (O : Z) (w : World),
    O - rating self <= -8000 -> Z.abs (O - rating self) < 2 ^ 1024 ->
    0 <= k_factor self -> Z.abs (rating self) + k_factor self < 2 ^ 52 ->
    (is_win s = true ->
     rating_after (update_rating L self s O w) = Ok (rating self)) /\
    (is_loss s = true ->
     rating_after (update_rating L self s O w) = Ok (rating self - k_factor self)).
Proof.
  intros L self s O w Hgap Hbig HK HRK.
  pose proof (expected_score_one L self O Hgap Hbig) as HE.
  clear Hgap Hbig.
  split; intros Hs.
  - rewrite (update_rating_exact L self s O w one one 0 HE (is_win_float s Hs)
               finite_float_one finite_float_one HK HRK ltac:(lia) eq_refl eq_refl).
    rewrite Z.mul_0_l, Z.div_0_l, Z.add_0_r by lia. reflexivity.
  - destruct (is_loss_float s Hs) as [b Hfs].
    rewrite (update_rating_exact L self s O w one (S754_zero b) (-2) HE Hfs
               finite_float_one (finite_float_zero b) HK HRK ltac:(lia) eq_refl
               (even_mul_l (-2) _ eq_refl)).
    f_equal. replace (-2 * k_factor self) with ((- k_factor self) * 2) by ring.
    rewrite Z.div_mul by lia. lia.
Qed.

Lemma far_weaker_opponent_update_witness :
  rating_after (update_rating coarse_libm (stored_elo 1%positive 9300 32) (PyInt 1) 1200
                  (world_of 1%positive (stored_elo 1%positive 9300 32) 100)) = Ok 9300 /\
  rating_after (update_rating coarse_libm (stored_elo 1%positive 9300 32) (PyInt 0) 1200
                  (world_of 1%positive (stored_elo 1%positive 9300 32) 100)) = Ok 9268.
Proof.
  split.
  - apply (far_weaker_opponent_update coarse_libm (stored_elo 1%positive 9300 32) (PyInt 1)
             1200 (world_of 1%positive (stored_elo 1%positive 9300 32) 100));
      cbn [rating k_factor stored_elo]; try reflexivity; lia.
  - apply (far_weaker_opponent_update coarse_libm (stored_elo 1%positive 9300 32) (PyInt 0)
             1200 (world_of 1%positive (stored_elo 1%positive 9300 32) 100));
      cbn [rating k_factor stored_elo]; try reflexivity; lia.
Defined.

(** X3. Between equal ratings and with an even k-factor a win adds exactly
    [K / 2] and a loss takes exactly [K / 2]: the expected score is 0.5 and
    no step of the computation rounds. *)
Theorem equal_ratings_even_k :
  forall (L : Libm) (self : Elo) (s : number) (w : World),
    0 <= k_factor self -> Z.even (k_factor self) = true ->
    Z.abs (rating self) + k_factor self < 2 ^ 52 ->
    (is_win s = true ->
     rating_after (update_rating L self s (rating self) w)
       = Ok (rating self + k_factor self / 2)) /\
    (is_loss s = true ->
     rating_after (update_rating L self s (rating self) w)
       = Ok (rating self - k_factor self / 2)).
Proof.
  intros L self s w HK Hev HRK.
  pose proof (expected_score_equal L self) as HE.
  assert (Hev1 : Z.even (1 * k_factor self) = true) by (rewrite Z.mul_1_l; exact Hev).
  assert (Hevm : Z.even (-1 * k_factor self) = true).
  { rewrite Z.even_mul, Hev. apply orb_true_r. }
  split; intros Hs.
  - rewrite (update_rating_exact L self s _ w half one 1 HE (is_win_float s Hs)
               finite_float_half finite_float_one HK HRK ltac:(lia) eq_refl Hev1).
    rewrite Z.mul_1_l. reflexivity.
  - destruct (is_loss_float s Hs) as [b Hfs].
    rewrite (update_rating_exact L self s _ w half (S754_zero b) (-1) HE Hfs
               finite_float_half (finite_float_zero b) HK HRK ltac:(lia) eq_refl Hevm).
    f_equal. apply Z.even_spec in Hev. destruct Hev as [k Hk]. rewrite Hk.
    replace (-1 * (2 * k)) with ((- k) * 2) by ring.
    replace (2 * k) with (k * 2) by ring. rewrite !Z.div_mul by lia. lia.
Qed.

Lemma equal_ratings_even_k_witness :
  rating_after (update_rating coarse_libm (stored_elo 1%positive 1500 24) (PyInt 1) 1500
                  (world_of 1%positive (stored_elo 1%positive 1500 24) 100)) = Ok 1512.
Proof.
  apply (equal_ratings_even_k coarse_libm (stored_elo 1%positive 1500 24) (PyInt 1)
           (world_of 1%positive (stored_elo 1%positive 1500 24) 100));
    cbn [rating k_factor stored_elo]; try reflexivity; lia.
Defined.

(* ===================================================================== *)
(** ** Scores that are no results, and a k-factor of 0 *)
(* ===================================================================== *)

(** The float of a non-zero integer below [2^53] is a finite non-zero
    number. *)
Lemma Z2F_nonzero (z : Z) :
  z <> 0 -> Z.abs z < 2 ^ 53 -> exists s m e, Z2F z = S754_finite s m e.
Proof.
  intros Hne Hz. destruct (Z2F_exact z Hne Hz) as (m & e & -> & _).
  eexists _, _, _. reflexivity.
Qed.

Lemma Z2F_zero_or_finite (z : Z) :
  Z.abs z < 2 ^ 53 ->
  (z = 0 /\ Z2F z = S754_zero false) \/ (z <> 0 /\ exists s m e, Z2F z = S754_finite s m e).
Proof.
  intros Hz. destruct (Z.eq_dec z 0) as [-> | Hne]; [left; split; reflexivity|right].
  split; [exact Hne|apply Z2F_nonzero; assumption].
Qed.

(** X7. A score that is no finite number is not refused on entry; it
    travels through the formula and [round] raises: [ValueError] for a NaN,
    [OverflowError] for an infinity, or [ValueError] when the k-factor is 0
    ([0 * inf] is a NaN). Nothing is assigned or saved. *)
Theorem non_finite_score_raises :
  forall (L : Libm) (self : Elo) (f : float) (O : Z) (w : World),
    Z.abs (O - rating self) < 51200 ->
    Z.abs (rating self) < 2 ^ 53 -> Z.abs (k_factor self) < 2 ^ 53 ->
    (is_nan f = true ->
     update_rating L self (PyFloat f) O w = Raise ValueError) /\
    (is_inf f = true ->
     update_rating L self (PyFloat f) O w =
       Raise (if k_factor self =? 0 then ValueError else OverflowError)).
Proof.
  intros L self f O w Hgap HR HK.
  destruct (expected_score_total L self O Hgap) as (m & e & HE & _).
  destruct (float_of_int_units _ HK) as (HKf & _).
  destruct (float_of_int_units _ HR) as (HRf & _).
  rewrite (update_rating_steps L self (PyFloat f) O w _ f _ _ HE eq_refl HKf HRf).
  destruct (Z2F_zero_or_finite _ HR) as [[_ ->] | [_ (sr & mr & er & ->)]];
    (destruct (Z2F_zero_or_finite _ HK) as [[-> ->] | [HK0 (sk & mk & ek & ->)]];
     [|apply Z.eqb_neq in HK0; rewrite HK0]);
    (split; intros Hf; destruct f as [sf | sf | | sf mf ef]; try discriminate Hf;
     reflexivity).
Qed.

Lemma non_finite_score_raises_witness :
  update_rating coarse_libm (stored_elo 1%positive 1200 32) (PyFloat S754_nan) 1300
    (world_of 1%positive (stored_elo 1%positive 1200 32) 100) = Raise ValueError /\
  update_rating coarse_libm (stored_elo 1%positive 1200 32) (PyFloat pinf) 1300
    (world_of 1%positive (stored_elo 1%positive 1200 32) 100) = Raise OverflowError.
Proof.
  split.
  - apply (non_finite_score_raises coarse_libm (stored_elo 1%positive 1200 32) S754_nan 1300
             (world_of 1%positive (stored_elo 1%positive 1200 32) 100));
      cbn [rating k_factor stored_elo]; try reflexivity; lia.
  - apply (non_finite_score_raises coarse_libm (stored_elo 1%positive 1200 32) pinf 1300
             (world_of 1%positive (stored_elo 1%positive 1200 32) 100));
      cbn [rating k_factor stored_elo]; try reflexivity; lia.
Defined.

(** X8. With a k-factor of 0 the rating is left as it is, for every finite
    score (below [2^1000]), permitted or not. *)
Theorem zero_k_factor_keeps_rating :
  forall (L : Libm) (self : Elo) (s : number) (fs : float) (O : Z) (w : World),
    k_factor self = 0 -> Z.abs (rating self) <= 2 ^ 53 ->
    Z.abs (O - rating self) < 51200 ->
    to_float s = Ok fs -> bounded_by 1000 fs ->
    rating_after (update_rating L self s O w) = Ok (rating self).
Proof.
  intros L self s fs O w HK HR Hgap Hs Hfs.
  destruct (expected_score_total L self O Hgap) as (m & e & HE & Hd & Hlo & Hhi).
  destruct (expected_score_shape_bounded m e Hd Hlo Hhi) as (HbE & _ & _).
  destruct (fadd_fsub_bounded 1000 1 fs _ Hfs HbE ltac:(lia)) as [_ Hd1].
  apply bounded_by_finite in Hd1.
  assert (HRf : float_of_int (rating self) = Ok (Z2F (rating self))).
  { destruct (Z.eq_dec (Z.abs (rating self)) (2 ^ 53)) as [Heq | Hne].
    - destruct (Z.abs_spec (rating self)) as [[_ Ha] | [_ Ha]]; rewrite Ha in Heq.
      + rewrite Heq. reflexivity.
      + replace (rating self) with (- 2 ^ 53) by lia. reflexivity.
    - apply float_of_int_units. lia. }
  rewrite (update_rating_steps L self s O w _ fs (S754_zero false) _ HE Hs
             ltac:(rewrite HK; reflexivity) HRf).
  unfold rating_after.
  assert (Hz : exists b, fmul (S754_zero false) (fsub fs (S754_finite false m e)) = S754_zero b).
  { destruct (fsub fs (S754_finite false m e)) as [b | b | | b m' e']; try discriminate;
      eexists; reflexivity. }
  destruct Hz as [b ->]. rewrite (Z2F_add_zero _ b HR).
  reflexivity.
Qed.

Lemma zero_k_factor_keeps_rating_witness :
  rating_after (update_rating coarse_libm (stored_elo 1%positive 1200 0) (PyInt 7) 1300
                  (world_of 1%positive (stored_elo 1%positive 1200 0) 100)) = Ok 1200.
Proof.
  apply (zero_k_factor_keeps_rating coarse_libm (stored_elo 1%positive 1200 0) (PyInt 7)
           (Z2F 7) 1300 (world_of 1%positive (stored_elo 1%positive 1200 0) 100));
    cbn [rating k_factor stored_elo]; try reflexivity; try lia.
  split; [reflexivity|vm_compute; discriminate].
Defined.

(* ===================================================================== *)
(** ** The order of the three results *)
(* ===================================================================== *)

(** [round] does not cross a half-integer the float is strictly below, or
    strictly above. *)
Lemma round_strict (x : float) (N n : Z) :
  finite_float x -> round x = Ok n ->
  (units x < N * half_unit -> 2 * n <= N) /\
  (N * half_unit < units x -> N <= 2 * n).
Proof.
  intros [Hv Hf] Hn.
  destruct (round_nearest x n Hn) as [Hnear _].
  pose proof half_unit_pos as HT.
  destruct x as [s | s | | s m e]; try discriminate.
  - cbn in Hnear. cbn [units]. subst n. set (T := half_unit) in *. split; intros H; nia.
  - destruct (valid_finite_range _ _ _ Hv) as (He & _).
    cbn [nearest_int] in Hnear. cbn [units].
    assert (Hcz : cond_Zopp s (Z.pos m * 2 ^ (e + 2148))
                  = cond_Zopp s (Z.pos m) * 2 ^ (e + 2148)) by (destruct s; cbn; ring).
    rewrite Hcz. clear Hcz.
    set (v := cond_Zopp s (Z.pos m)) in *.
    destruct (e <? 0) eqn:Eneg.
    + apply Z.ltb_lt in Eneg.
      pose proof (half_unit_split e ltac:(lia)) as E.
      assert (E2 : 2 ^ (- e) = 2 * 2 ^ (-1 - e)).
      { replace (- e) with (Z.succ (-1 - e)) at 1 by lia. apply Z.pow_succ_r. lia. }
      rewrite E. rewrite E2 in Hnear.
      pose proof (pow2_pos (e + 2148) ltac:(lia)) as HY.
      pose proof (pow2_pos (-1 - e) ltac:(lia)) as HP.
      clear E HT.
      set (Y := 2 ^ (e + 2148)) in *. set (P := 2 ^ (-1 - e)) in *.
      assert (Hn2 : Z.abs (2 * n * P - v) <= P) by lia.
      split; intros H.
      * assert (v < N * P) by nia. nia.
      * assert (N * P < v) by nia. nia.
    + apply Z.ltb_ge in Eneg. subst n.
      rewrite (unit_split_nonneg e) by lia. pose proof (pow2_pos e ltac:(lia)) as HP.
      set (T := half_unit) in *. set (P := 2 ^ e) in *.
      split; intros H; nia.
Qed.

(** A float of value [N / 2] with [N] odd. *)
Lemma units_half_int (x : float) (N : Z) :
  finite_float x -> units x = N * half_unit -> Z.odd N = true -> half_int x N.
Proof.
  intros [Hv Hf] Hu Hodd.
  pose proof half_unit_pos as HT.
  destruct x as [s | s | | s m e]; try discriminate.
  - cbn in Hu. assert (N = 0) by nia. subst N. discriminate.
  - destruct (valid_finite_range _ _ _ Hv) as (He & _).
    cbn [units] in Hu. cbn [half_int].
    assert (Hcz : cond_Zopp s (Z.pos m * 2 ^ (e + 2148))
                  = cond_Zopp s (Z.pos m) * 2 ^ (e + 2148)) by (destruct s; cbn; ring).
    rewrite Hcz in Hu. clear Hcz.
    set (v := cond_Zopp s (Z.pos m)) in *.
    destruct (Z.le_gt_cases e (-1)) as [Hneg | Hpos].
    + split; [exact Hneg|].
      rewrite (half_unit_split e) in Hu by lia. pose proof (pow2_pos (e + 2148) ltac:(lia)) as HY.
      set (Y := 2 ^ (e + 2148)) in *. set (P := 2 ^ (-1 - e)) in *. nia.
    + exfalso.
      rewrite (unit_split_nonneg e) in Hu by lia. set (T := half_unit) in *. set (P := 2 ^ e) in *.
      assert (N = 2 * (v * P)) by nia.
      rewrite H, Z.odd_mul in Hodd. discriminate.
Qed.

(** [round] is monotone across a half-integer. *)
Lemma round_mono_through (x1 x2 : float) (N n1 n2 : Z) :
  finite_float x1 -> finite_float x2 ->
  units x1 <= N * half_unit <= units x2 ->
  round x1 = Ok n1 -> round x2 = Ok n2 -> n1 <= n2.
Proof.
  intros H1 H2 [Hle1 Hle2] Hn1 Hn2.
  pose proof half_unit_pos as HT.
  destruct (round_strict x1 N n1 H1 Hn1) as [Hs1 _].
  destruct (round_strict x2 N n2 H2 Hn2) as [_ Hs2].
  destruct (round_strict x1 (N + 1) n1 H1 Hn1) as [Hu1 _].
  destruct (round_strict x2 (N - 1) n2 H2 Hn2) as [_ Hl2].
  destruct (round_strict x1 (N - 1) n1 H1 Hn1) as [_ Hl1].
  destruct (round_strict x2 (N + 1) n2 H2 Hn2) as [Hu2 _].
  assert (HuN : 2 * n1 <= N + 1) by (apply Hu1; nia).
  assert (HlN : N - 1 <= 2 * n2) by (apply Hl2; nia).
  destruct (Z.eq_dec (units x1) (N * half_unit)) as [E1 | Hne1];
    [|assert (2 * n1 <= N) by (apply Hs1; lia); lia].
  destruct (Z.eq_dec (units x2) (N * half_unit)) as [E2 | Hne2];
    [|assert (N <= 2 * n2) by (apply Hs2; lia); lia].
  assert (Hl1' : N - 1 <= 2 * n1) by (apply Hl1; nia).
  assert (Hu2' : 2 * n2 <= N + 1) by (apply Hu2; nia).
  destruct (Z.odd N) eqn:Hodd.
  - destruct (round_half_int x1 N n1 (units_half_int x1 N H1 E1 Hodd) Hn1) as [_ Hev1].
    destruct (round_half_int x2 N n2 (units_half_int x2 N H2 E2 Hodd) Hn2) as [_ Hev2].
    specialize (Hev1 Hodd). specialize (Hev2 Hodd).
    apply Z.even_spec in Hev1, Hev2. destruct Hev1 as [j1 ->]. destruct Hev2 as [j2 ->]. lia.
  - rewrite <- Z.negb_even in Hodd. apply negb_false_iff in Hodd.
    apply Z.even_spec in Hodd. destruct Hodd as [k ->]. lia.
Qed.

(** The unrounded value for a score [fs]: between [R + K * a/2] and
    [R + K * b/2] when [fs - E] lies between [a/2] and [b/2]. *)
Lemma unrounded_of_score (R K a b : Z) (fs E : float) :
  finite_float fs -> finite_float E ->
  0 <= K -> Z.abs R + K < 2 ^ 52 -> -2 <= a <= b -> b <= 2 ->
  a * half_unit <= units fs - units E <= b * half_unit ->
  let x := fadd (Z2F R) (fmul (Z2F K) (fsub fs E)) in
  finite_float x /\
  (2 * R + a * K) * half_unit <= units x <= (2 * R + b * K) * half_unit.
Proof.
  intros Hfs HE HK HRK Ha Hb Hd.
  destruct (half_units a ltac:(lia)) as (dlo & Hdlo & Hudlo).
  destruct (half_units b ltac:(lia)) as (dhi & Hdhi & Hudhi).
  destruct (fsub_between fs E dlo dhi Hfs HE Hdlo Hdhi ltac:(lia)) as [Hdf Hdu].
  rewrite Hudlo, Hudhi in Hdu.
  exact (unrounded_between R K a b _ HK HRK Ha Hb Hdf Hdu).
Qed.

(** X2. A better result never gives a lower rating: for one player, one
    opponent and the bounds of the previous theorem, the new ratings after a
    loss, after a draw and after a win are in this order. *)
Theorem better_score_never_lower :
  forall (L : Libm) (self : Elo) (sl sd sw : number) (O : Z) (w : World),
    0 <= k_factor self -> Z.abs (rating self) + k_factor self < 2 ^ 52 ->
    Z.abs (O - rating self) < 51200 ->
    is_loss sl = true -> is_draw sd = true -> is_win sw = true ->
    exists nl nd nw,
      rating_after (update_rating L self sl O w) = Ok nl /\
      rating_after (update_rating L self sd O w) = Ok nd /\
      rating_after (update_rating L self sw O w) = Ok nw /\
      nl <= nd <= nw.
Proof.
  intros L self sl sd sw O w HK HRK Hgap Hl Hd Hw.
  set (R := rating self) in *. set (K := k_factor self) in *.
  assert (H52 : 0 < 2 ^ 52 /\ 2 ^ 53 = 2 * 2 ^ 52) by (split; reflexivity).
  destruct (expected_score_units L self O Hgap) as (E & HE & HEf & HEu).
  destruct (is_loss_float sl Hl) as [b Hfl].
  pose proof (is_draw_float sd Hd) as Hfd. pose proof (is_win_float sw Hw) as Hfw.
  destruct (float_of_int_units K ltac:(lia)) as (HKf & _).
  destruct (float_of_int_units R ltac:(lia)) as (HRf & _).
  rewrite (update_rating_steps L self sl O w E _ _ _ HE Hfl HKf HRf).
  rewrite (update_rating_steps L self sd O w E _ _ _ HE Hfd HKf HRf).
  rewrite (update_rating_steps L self sw O w E _ _ _ HE Hfw HKf HRf).
  pose proof half_unit_pos as HT.
  assert (Hul : units (S754_zero b) = 0) by reflexivity.
  assert (Hud : units half = half_unit) by reflexivity.
  assert (Huw : units one = 2 * half_unit) by reflexivity.
  pose proof (fun a b' => unrounded_of_score R K a b' (S754_zero b) E
                            (finite_float_zero b) HEf HK HRK) as Bl.
  pose proof (fun a b' => unrounded_of_score R K a b' half E
                            finite_float_half HEf HK HRK) as Bd.
  pose proof (fun a b' => unrounded_of_score R K a b' one E
                            finite_float_one HEf HK HRK) as Bw.
  cbv zeta in Bl, Bd, Bw.
  set (xl := fadd (Z2F R) (fmul (Z2F K) (fsub (S754_zero b) E))) in *.
  set (xd := fadd (Z2F R) (fmul (Z2F K) (fsub half E))) in *.
  set (xw := fadd (Z2F R) (fmul (Z2F K) (fsub one E))) in *.
  destruct (Bl (-2) 0 ltac:(lia) ltac:(lia) ltac:(lia)) as [Hxl _].
  destruct (Bd (-1) 1 ltac:(lia) ltac:(lia) ltac:(lia)) as [Hxd _].
  destruct (Bw 0 2 ltac:(lia) ltac:(lia) ltac:(lia)) as [Hxw _].
  destruct (round_finite xl (proj2 Hxl)) as [nl Hnl].
  destruct (round_finite xd (proj2 Hxd)) as [nd Hnd].
  destruct (round_finite xw (proj2 Hxw)) as [nw Hnw].
  exists nl, nd, nw. rewrite Hnl, Hnd, Hnw.
  split; [reflexivity|]. split; [reflexivity|]. split; [reflexivity|].
  destruct (Z.le_gt_cases (units E) (half_unit)) as [Hlow | Hhigh].
  - split.
    + apply (round_mono_through xl xd (2 * R + 0 * K)); try assumption. split.
      * apply (Bl (-2) 0); lia.
      * apply (Bd 0 1); lia.
    + apply (round_mono_through xd xw (2 * R + 1 * K)); try assumption. split.
      * apply (Bd 0 1); lia.
      * apply (Bw 1 2); lia.
  - split.
    + apply (round_mono_through xl xd (2 * R + -1 * K)); try assumption. split.
      * apply (Bl (-2) (-1)); lia.
      * apply (Bd (-1) 0); lia.
    + apply (round_mono_through xd xw (2 * R + 0 * K)); try assumption. split.
      * apply (Bd (-1) 0); lia.
      * apply (Bw 0 2); lia.
Qed.

Lemma better_score_never_lower_witness :
  exists nl nd nw,
    rating_after (update_rating coarse_libm (stored_elo 1%positive 1200 32) (PyInt 0) 1300
                    (world_of 1%positive (stored_elo 1%positive 1200 32) 100)) = Ok nl /\
    rating_after (update_rating coarse_libm (stored_elo 1%positive 1200 32) (PyFloat half) 1300
                    (world_of 1%positive (stored_elo 1%positive 1200 32) 100)) = Ok nd /\
    rating_after (update_rating coarse_libm (stored_elo 1%positive 1200 32) (PyInt 1) 1300
                    (world_of 1%positive (stored_elo 1%positive 1200 32) 100)) = Ok nw /\
    nl <= nd <= nw.
Proof.
  apply (better_score_never_lower coarse_libm (stored_elo 1%positive 1200 32)
           (PyInt 0) (PyFloat half) (PyInt 1) 1300
           (world_of 1%positive (stored_elo 1%positive 1200 32) 100));
    cbn [rating k_factor stored_elo]; try reflexivity; lia.
Defined.

(* ===================================================================== *)
(** * The update: formula, zero sum, repeated calls, scores *)
(* ===================================================================== *)

(* ===================================================================== *)
(** ** The formula, step by step *)
(* ===================================================================== *)

(** The expected score for a lead of 8000 points or more, written with the
    float operations: [10 ** q] is below a quarter of the last place of 1.0
    and the sum and the quotient are exactly 1.0. *)
Lemma expected_score_steps_far (L : Libm) (self : Elo) (O : Z) :
  O - rating self <= -8000 -> Z.abs (O - rating self) < 2 ^ 1024 ->
  exists q,
    int_truediv (O - rating self) 400 = Ok q /\
    fdiv one (fadd one (if is_zero q then one else pow L ten q)) = one.
Proof.
  intros Hgap Hbig.
  destruct (int_truediv_400_finite (O - rating self) Hbig) as (q' & Hq' & _).
  clear Hbig.
  destruct (int_truediv_400_ge (O - rating self) 20 ltac:(split; reflexivity) ltac:(lia))
    as [Hr | (q & v & Hq & Hqf & Hv & Hu)]; [congruence|].
  exists q. split; [exact Hq|].
  replace (O - rating self <? 0) with true in Hu by (symmetry; apply Z.ltb_lt; lia).
  cbn [cond_Zopp] in Hu.
  assert (H20 : finite_float (Z2F (-20)) /\ units (Z2F (-20)) = -20 * (2 * half_unit))
    by (apply Z2F_units; reflexivity).
  destruct H20 as [H20 Hu20].
  assert (Hle : SFleb q (Z2F (-20)) = true).
  { apply SFleb_units; [exact Hqf|exact H20|]. rewrite Hu20, Hu. lia. }
  assert (Ht : tiny (pow L ten q) = true) by (apply pow_tiny; [apply Hqf|exact Hle]).
  assert (Hz : is_zero q = false).
  { pose proof half_unit_pos as HT.
    destruct q as [sq | sq | | sq mq eq]; try reflexivity.
    exfalso. cbn [units] in Hu. lia. }
  rewrite Hz, (fadd_one_tiny _ Ht). reflexivity.
Qed.

(** The expected score, written with the float operations, for every
    rating difference the laws of [pow] reach: any lead, and a deficit below
    51200 points.  It is a float in (0, 1]. *)
Lemma expected_score_steps (L : Libm) (self : Elo) (O : Z) :
  O - rating self < 51200 -> Z.abs (O - rating self) < 2 ^ 1024 ->
  exists q E,
    int_truediv (O - rating self) 400 = Ok q /\
    E = fdiv one (fadd one (if is_zero q then one else pow L ten q)) /\
    _get_expected_score L self O = Ok E /\
    finite_float E /\ 0 < units E <= 2 * half_unit.
Proof.
  intros Hgap Hbig.
  destruct (Z.le_gt_cases (O - rating self) (-8000)) as [Hfar | Hnear].
  - destruct (expected_score_steps_far L self O Hfar Hbig) as (q & Hq & HE).
    exists q, one. split; [exact Hq|]. split; [symmetry; exact HE|].
    split; [exact (expected_score_one L self O Hfar Hbig)|].
    split; [exact finite_float_one|]. pose proof half_unit_pos.
    change (units one) with (2 * half_unit). lia.
  - clear Hbig.
    assert (Habs : Z.abs (O - rating self) < 51200) by lia.
    destruct (expected_score_units L self O Habs) as (E & HE & HEf & HEu).
    unfold _get_expected_score in HE |- *.
    destruct (int_truediv_400 (O - rating self) 7) as (q & Hq & Hqb); [exact Habs|lia|].
    exists q, E. split; [exact Hq|]. split; [|split; [exact HE|split; assumption]].
    rewrite Hq, (bind_ok _ _ q eq_refl) in HE. unfold int_pow_float in HE.
    rewrite float_of_int_10, (bind_ok _ _ ten eq_refl) in HE.
    set (p := if is_zero q then one else pow L ten q).
    assert (Hp : float_pow L ten q = Ok p /\ bounded_by 1000 p /\ nonneg p = true).
    { unfold p. destruct q as [sq | sq | | sq mq eq] eqn:Eq.
      - split; [reflexivity|]. split; [|reflexivity].
        split; [reflexivity|]. vm_compute. discriminate.
      - destruct Hqb as [_ []].
      - destruct Hqb as [_ []].
      - cbn [float_pow is_zero]. rewrite <- Eq in *.
        pose proof (pow_moderate L q Hqb) as Hb.
        pose proof (pow_nonneg L q (bounded_by_finite _ _ Hqb)) as Hn.
        split; [|split; assumption].
        destruct Hb as [_ Hb]. destruct (pow L ten q); try contradiction; reflexivity. }
    destruct Hp as (Hp & Hpb & Hpn). rewrite Hp, (bind_ok _ _ p eq_refl) in HE.
    unfold int_add_float in HE. rewrite float_of_int_1, (bind_ok _ _ one eq_refl) in HE.
    destruct (fadd_one_nonneg p Hpb Hpn) as (ms & es & Es & Hds & Hes).
    rewrite (bind_ok _ _ (fadd one p) eq_refl) in HE.
    unfold int_div_float in HE. rewrite float_of_int_1, (bind_ok _ _ one eq_refl) in HE.
    unfold float_truediv in HE. rewrite Es in HE. cbn [is_zero] in HE.
    rewrite <- Es in HE. injection HE as <-. reflexivity.
Qed.

(** The integer a returning call has stored is the rounding of the
    unrounded float. *)
Lemma update_rating_round (L : Libm) (self : Elo) (s : number) (O : Z) (w : World)
    (E fs : float) (n : Z) :
  _get_expected_score L self O = Ok E -> to_float s = Ok fs ->
  Z.abs (rating self) < 2 ^ 53 -> Z.abs (k_factor self) < 2 ^ 53 ->
  update_rating L self s O w = Ok (save (set_rating self n) w) ->
  round (fadd (Z2F (rating self)) (fmul (Z2F (k_factor self)) (fsub fs E))) = Ok n.
Proof.
  intros HE Hfs HR HK.
  destruct (float_of_int_units (k_factor self) HK) as (HKf & _).
  destruct (float_of_int_units (rating self) HR) as (HRf & _).
  rewrite (update_rating_steps L self s O w E fs _ _ HE Hfs HKf HRf).
  destruct (round _) as [r|]; [|discriminate].
  rewrite (bind_ok _ _ r eq_refl). intros H.
  apply (f_equal (fun x => match x with Ok p => rating (fst p) | Raise _ => 0 end)) in H.
  cbn in H. rewrite H. reflexivity.
Qed.

(** A permitted score against the expected score: the call returns and
    moves the rating by at most [K], up after a win, down after a loss. *)
Lemma update_rating_within_k (L : Libm) (self : Elo) (s : number) (O : Z) (w : World) :
  0 <= k_factor self -> Z.abs (rating self) + k_factor self < 2 ^ 52 ->
  O - rating self < 51200 -> Z.abs (O - rating self) < 2 ^ 1024 ->
  permitted_score s = true ->
  exists n,
    update_rating L self s O w = Ok (save (set_rating self n) w) /\
    Z.abs (n - rating self) <= k_factor self /\
    (is_win s = true -> rating self <= n) /\
    (is_loss s = true -> n <= rating self).
Proof.
  intros HK HRK Hgap Hbig Hs.
  destruct (expected_score_steps L self O Hgap Hbig) as (q & E & _ & _ & HE & HEf & HEu).
  clear Hgap Hbig.
  destruct (permitted_score_units s Hs) as (fs & Hfs & Hfsf & Hcase).
  pose proof (update_rating_between L self s O w E fs) as Hmain.
  specialize (fun a b => Hmain a b HE Hfs HEf Hfsf HK HRK).
  pose proof half_unit_pos as HT.
  destruct Hcase as [(Hl & Hd & Hw & Hu) | [(Hl & Hd & Hw & Hu) | (Hl & Hd & Hw & Hu)]];
    rewrite Hl, Hw.
  - destruct (Hmain (-2) 0 ltac:(lia) ltac:(lia) ltac:(lia)) as (n & Hn & Hb2 & Hlo & Hhi).
    specialize (Hlo (even_mul_l (-2) _ eq_refl)). specialize (Hhi (even_mul_l 0 _ eq_refl)).
    exists n. split; [exact Hn|]. split; [lia|]. split; [discriminate|lia].
  - destruct (Hmain (-1) 1 ltac:(lia) ltac:(lia) ltac:(lia)) as (n & Hn & Hb2 & _).
    exists n. split; [exact Hn|]. split; [lia|]. split; discriminate.
  - destruct (Hmain 0 2 ltac:(lia) ltac:(lia) ltac:(lia)) as (n & Hn & Hb2 & Hlo & Hhi).
    specialize (Hlo (even_mul_l 0 _ eq_refl)). specialize (Hhi (even_mul_l 2 _ eq_refl)).
    exists n. split; [exact Hn|]. split; [lia|]. split; [lia|discriminate].
Qed.


Lemma gap_below_2_1024 (g : Z) : Z.abs g < 51200 -> Z.abs g < 2 ^ 1024.
Proof. intros H. apply Z.lt_trans with (1 := H). reflexivity. Qed.

(** Against an opponent 8000 points or more below, the expected score being
    1.0: a win leaves the rating, a loss takes the whole k-factor. *)
Lemma update_against_far_weaker (L : Libm) (self : Elo) (s : number) (O : Z) (w : World) :
  O - rating self <= -8000 -> Z.abs (O - rating self) < 51200 ->
  0 <= k_factor self -> Z.abs (rating self) + k_factor self < 2 ^ 52 ->
  (is_win s = true ->
   rating_after (update_rating L self s O w) = Ok (rating self)) /\
  (is_loss s = true ->
   rating_after (update_rating L self s O w) = Ok (rating self - k_factor self)).
Proof.
  intros Hgap Hbig HK HRK.
  pose proof (expected_score_one L self O Hgap (gap_below_2_1024 _ Hbig)) as HE.
  clear Hgap Hbig.
  split; intros Hs.
  - rewrite (update_rating_exact L self s O w one one 0 HE (is_win_float s Hs)
               finite_float_one finite_float_one HK HRK ltac:(lia) eq_refl eq_refl).
    rewrite Z.mul_0_l, Z.div_0_l, Z.add_0_r by lia. reflexivity.
  - destruct (is_loss_float s Hs) as [b Hfs].
    rewrite (update_rating_exact L self s O w one (S754_zero b) (-2) HE Hfs
               finite_float_one (finite_float_zero b) HK HRK ltac:(lia) eq_refl
               (even_mul_l (-2) _ eq_refl)).
    f_equal. replace (-2 * k_factor self) with ((- k_factor self) * 2) by ring.
    rewrite Z.div_mul by lia. lia.
Qed.

(* ===================================================================== *)
(** ** The formula of the update *)
(* ===================================================================== *)

(** C1, within the range of the arithmetic. For a positive k-factor [K], a
    rating [R] with [|R| + K < 2^52], a permitted score and an opponent
    rating [O] less than 51200 points above [R] (and less than [2^1024]
    away from it), [update_rating] computes the formula in binary64: with
    [q] the quotient [(O - R) / 400], the expected score is
    [E = 1 / (1 + 10 ** q)] and the stored rating is [round] of
    [R + K * (s - E)], an integer nearest to that float (the even one at a
    tie) and at most [K] away from [R].  With [R = O = 1200] and [K = 32]
    the result is 1216 for a win and 1184 for a loss; with [R = 9300]
    against [O = 1200] it is 9300 for a win and 9268 for a loss. *)
Theorem update_rating_formula :
  forall (L : Libm) (self : Elo) (s : number) (O : Z) (w : World),
    0 < k_factor self -> permitted_score s = true ->
    Z.abs (rating self) + k_factor self < 2 ^ 52 ->
    O - rating self < 51200 -> Z.abs (O - rating self) < 2 ^ 1024 ->
    (exists (q fs : float) (r : Z),
       int_truediv (O - rating self) 400 = Ok q /\
       to_float s = Ok fs /\
       let E := fdiv one (fadd one (if is_zero q then one else pow L ten q)) in
       let x := fadd (Z2F (rating self)) (fmul (Z2F (k_factor self)) (fsub fs E)) in
       _get_expected_score L self O = Ok E /\
       round x = Ok r /\
       nearest_int x r /\ (is_tie x -> Z.even r = true) /\
       update_rating L self s O w = Ok (save (set_rating self r) w) /\
       Z.abs (r - rating self) <= k_factor self) /\
    (rating self = 1200 -> k_factor self = 32 -> O = 1200 ->
     (s = PyInt 1 -> rating_after (update_rating L self s O w) = Ok 1216) /\
     (s = PyInt 0 -> rating_after (update_rating L self s O w) = Ok 1184)) /\
    (rating self = 9300 -> k_factor self = 32 -> O = 1200 ->
     (s = PyInt 1 -> rating_after (update_rating L self s O w) = Ok 9300) /\
     (s = PyInt 0 -> rating_after (update_rating L self s O w) = Ok 9268)).
Proof.
  intros L self s O w HK Hs HRK Hgap Hbig.
  split; [|split].
  - destruct (expected_score_steps L self O Hgap Hbig) as (q & E & Hq & -> & HE & _).
    destruct (permitted_score_bounded s Hs) as (fs & Hfs & _).
    destruct (update_rating_within_k L self s O w (Z.lt_le_incl _ _ HK) HRK Hgap Hbig Hs)
      as (n & Hn & Hb & _).
    clear Hgap Hbig.
    assert (H52 : 2 ^ 53 = 2 * 2 ^ 52) by reflexivity.
    pose proof (update_rating_round L self s O w _ fs n HE Hfs ltac:(lia) ltac:(lia) Hn)
      as Hr.
    exists q, fs, n. cbv zeta.
    split; [exact Hq|]. split; [exact Hfs|]. split; [exact HE|]. split; [exact Hr|].
    destruct (round_nearest _ _ Hr) as [Hnear Htie].
    split; [exact Hnear|]. split; [exact Htie|]. split; [exact Hn|exact Hb].
  - clear Hgap Hbig. intros HR HK' ->.
    split; intros ->; apply rating_after_ok; rewrite HR, HK'; reflexivity.
  - clear Hgap Hbig. intros HR HK' ->.
    destruct (update_against_far_weaker L self s 1200 w) as [Hwin Hloss]; try lia.
    split; intros ->.
    + rewrite Hwin by reflexivity. rewrite HR. reflexivity.
    + rewrite Hloss by reflexivity. rewrite HR, HK'. reflexivity.
Qed.

Lemma update_rating_formula_witness :
  exists (q fs : float) (r : Z),
    int_truediv (1201 - 1200) 400 = Ok q /\
    to_float (PyInt 1) = Ok fs /\
    _get_expected_score table_libm (stored_elo 1%positive 1200 32) 1201
      = Ok (fdiv one (fadd one (if is_zero q then one else pow table_libm ten q))) /\
    round (fadd (Z2F 1200)
             (fmul (Z2F 32)
                (fsub fs (fdiv one (fadd one (if is_zero q then one
                                              else pow table_libm ten q))))))
      = Ok r /\
    update_rating table_libm (stored_elo 1%positive 1200 32) (PyInt 1) 1201
      (world_of 1%positive (stored_elo 1%positive 1200 32) 100)
    = Ok (save (set_rating (stored_elo 1%positive 1200 32) r)
            (world_of 1%positive (stored_elo 1%positive 1200 32) 100)) /\
    Z.abs (r - 1200) <= 32 /\ r = 1216.
Proof.
  destruct (update_rating_formula table_libm (stored_elo 1%positive 1200 32) (PyInt 1) 1201
              (world_of 1%positive (stored_elo 1%positive 1200 32) 100))
    as [(q & fs & r & Hq & Hfs & HE & Hr & _ & _ & Hup & Hb) _];
    cbn [rating k_factor stored_elo]; try reflexivity; try lia.
  exists q, fs, r. cbn [rating k_factor stored_elo] in *.
  assert (Hv : r = 1216).
  { pose proof Hq as Hq'. pose proof Hfs as Hfs'. pose proof Hr as Hr'.
    vm_compute in Hq'. injection Hq' as <-.
    vm_compute in Hfs'. injection Hfs' as <-.
    vm_compute in Hr'. injection Hr' as <-. reflexivity. }
  auto 10.
Defined.

(** C1 fails as stated for an opponent rated 123600 points or more above
    the player: with [R = 1200], [K = 32] and [O = 124800] the quotient is
    309.0, [10 ** 309.0] is out of the binary64 range, and the call raises
    [OverflowError] instead of setting a rating. *)
Lemma update_rating_overflows_at_124800 :
  0 < 32 /\ permitted_score (PyInt 1) = true /\
  int_truediv (124800 - 1200) 400 = Ok (Z2F 309) /\
  forall (L : Libm) (w : World),
    update_rating L (stored_elo 1%positive 1200 32) (PyInt 1) 124800 w
      = Raise OverflowError.
Proof.
  split; [reflexivity|]. split; [reflexivity|]. split; [reflexivity|].
  intros L w. unfold update_rating.
  rewrite (expected_score_overflow L (stored_elo 1%positive 1200 32) 124800);
    [reflexivity|cbn [rating stored_elo]; lia].
Qed.

(* ===================================================================== *)
(** ** Zero sum *)
(* ===================================================================== *)

Lemma rating_after_inv (r : result (Elo * World)) (v : Z) :
  rating_after r = Ok v -> exists self' w', r = Ok (self', w') /\ rating self' = v.
Proof.
  destruct r as [[self' w']|]; [|discriminate].
  intros [= H]. exists self', w'. split; [reflexivity|exact H].
Qed.




(* ===================================================================== *)
(** ** A second call *)
(* ===================================================================== *)

(** C3, as the source has it. A second call of [update_rating] with the
    same arguments is an update like the first, applied to the row the first
    call left: it evaluates the same formula at that row's rating; for a
    permitted score, a k-factor [K >= 0], [|R'| + K < 2^52] and a rating
    difference below 51200 it returns, moving the rating by at most [K]
    again; a loss against an opponent 8000 points or more below costs [K]
    points each time, [2 * K] after the two calls; and like the first call
    it leaves the three counters untouched. *)
Theorem second_update_is_plain_update :
  forall (L : Libm) (self : Elo) (s : number) (O : Z) (w : World)
         (self1 : Elo) (w1 : World),
    update_rating L self s O w = Ok (self1, w1) ->
    update_rating L self1 s O w1 =
      (spec_new_rating L (rating self1) (k_factor self) s O ≫= fun r =>
       Ok (save (set_rating self1 r) w1)) /\
    (permitted_score s = true -> 0 <= k_factor self ->
     Z.abs (rating self1) + k_factor self < 2 ^ 52 ->
     Z.abs (O - rating self1) < 51200 ->
     exists self2 w2,
       update_rating L self1 s O w1 = Ok (self2, w2) /\
       Z.abs (rating self2 - rating self1) <= k_factor self) /\
    (is_loss s = true -> 0 <= k_factor self ->
     Z.abs (rating self) + 2 * k_factor self < 2 ^ 52 ->
     -51200 < O - rating self <= -8000 - k_factor self ->
     rating self1 = rating self - k_factor self /\
     exists self2 w2,
       update_rating L self1 s O w1 = Ok (self2, w2) /\
       rating self2 = rating self - 2 * k_factor self) /\
    (forall self2 w2, update_rating L self1 s O w1 = Ok (self2, w2) ->
       wins self2 = wins self /\ losses self2 = losses self /\
       draws self2 = draws self).
Proof.
  intros L self s O w self1 w1 H1.
  destruct (update_rating_fields _ _ _ _ _ _ _ H1)
    as (_ & _ & _ & Hw & Hl & Hd & Hk & _).
  split; [rewrite <- Hk; apply update_rating_refines|]. split; [|split].
  - intros Hs HK HRK Hgap.
    destruct (update_rating_within_k L self1 s O w1) as (n & Hn & Hb & _);
      [rewrite Hk; exact HK | rewrite Hk; exact HRK | lia
      | apply gap_below_2_1024; exact Hgap | exact Hs |].
    rewrite Hn. eexists _, _. split; [reflexivity|].
    cbn [save set_rating rating fst]. rewrite <- Hk. exact Hb.
  - intros Hs HK HRK Hgap.
    destruct (update_against_far_weaker L self s O w) as [_ Hloss]; try lia.
    specialize (Hloss Hs). rewrite H1 in Hloss. injection Hloss as Hr1.
    cbn [fst] in Hr1. split; [exact Hr1|].
    destruct (update_against_far_weaker L self1 s O w1) as [_ Hloss2];
      try (rewrite ?Hk, ?Hr1; lia).
    specialize (Hloss2 Hs).
    destruct (rating_after_inv _ _ Hloss2) as (self2 & w2 & H2 & Hr2).
    exists self2, w2. split; [exact H2|]. rewrite Hr2, Hk, Hr1. ring.
  - intros self2 w2 H2.
    destruct (update_rating_fields _ _ _ _ _ _ _ H2)
      as (_ & _ & _ & Hw2 & Hl2 & Hd2 & _).
    rewrite Hw2, Hl2, Hd2. auto.
Qed.

Lemma second_update_is_plain_update_witness :
  exists self2 w2,
    (update_rating coarse_libm (stored_elo 1%positive 9300 32) (PyInt 0) 1200
       (world_of 1%positive (stored_elo 1%positive 9300 32) 100) ≫= fun ew =>
     update_rating coarse_libm (fst ew) (PyInt 0) 1200 (snd ew)) = Ok (self2, w2) /\
    rating self2 = 9300 - 2 * 32.
Proof.
  destruct (second_update_is_plain_update coarse_libm (stored_elo 1%positive 9300 32)
              (PyInt 0) 1200 (world_of 1%positive (stored_elo 1%positive 9300 32) 100)
              _ _ eq_refl)
    as (_ & _ & Hloss & _).
  destruct Hloss as (_ & self2 & w2 & H2 & Hr2);
    cbn [rating k_factor stored_elo]; try reflexivity; try lia.
  exists self2, w2. split; [exact H2|exact Hr2].
Defined.

(** C3 fails as stated: a player rated 9300 with [K = 32] who loses to one
    rated 1200 goes to 9268, and the same call made a second time is
    accepted, raises nothing and takes the rating on to 9236 (whatever libm:
    the expected score is exactly 1.0 both times). *)
Lemma second_update_changes_rating :
  (forall (L : Libm) (w : World),
     rating_after (update_rating L (stored_elo 1%positive 9300 32) (PyInt 0) 1200 w)
       = Ok 9268 /\
     rating_after
       (update_rating L (stored_elo 1%positive 9300 32) (PyInt 0) 1200 w ≫= fun ew =>
        update_rating L (fst ew) (PyInt 0) 1200 (snd ew))
       = Ok 9236) /\
  9236 <> 9268.
Proof.
  split; [|lia]. intros L w.
  destruct (update_against_far_weaker L (stored_elo 1%positive 9300 32) (PyInt 0) 1200 w)
    as [_ H1]; cbn [rating k_factor stored_elo]; try lia.
  specialize (H1 eq_refl). cbn [rating k_factor stored_elo] in H1.
  split; [exact H1|].
  destruct (rating_after_inv _ _ H1) as (self1 & w1 & E1 & Hr1).
  rewrite E1, (bind_ok _ _ (self1, w1) eq_refl). cbn [fst snd].
  destruct (update_rating_fields _ _ _ _ _ _ _ E1) as (_ & _ & _ & _ & _ & _ & Hk & _).
  cbn [k_factor stored_elo] in Hk.
  destruct (update_against_far_weaker L self1 (PyInt 0) 1200 w1) as [_ H2];
    try (rewrite ?Hk, ?Hr1; lia).
  rewrite (H2 eq_refl), Hk, Hr1. reflexivity.
Qed.

(* ===================================================================== *)
(** ** Scores of any size *)
(* ===================================================================== *)

(** A float below [2^k] in magnitude, in units. *)
Lemma bounded_by_units (k : Z) (f : float) :
  0 <= k -> bounded_by k f ->
  finite_float f /\ Z.abs (units f) < 2 * 2 ^ k * half_unit.
Proof.
  intros Hk [Hv Hb].
  pose proof half_unit_pos as HT.
  pose proof (pow2_pos k Hk) as HP.
  destruct f as [s | s | | s m e]; try contradiction.
  - split; [split; reflexivity|]. cbn [units]. change (Z.abs 0) with 0.
    apply Z.mul_pos_pos; [lia|exact HT].
  - assert (Hf : finite_float (S754_finite s m e)) by (split; [exact Hv|reflexivity]).
    split; [exact Hf|].
    pose proof (finite_float_exp _ _ _ Hf) as He.
    pose proof (pos_lt_pow_mag m e) as Hm.
    pose proof (mag_lower m e) as Hlow.
    assert (Hm' : Z.pos m < 2 ^ (k - e)).
    { apply Z.lt_le_trans with (1 := Hm). apply Z.pow_le_mono_r; lia. }
    cbn [units]. rewrite cond_Zopp_abs.
    rewrite <- (unit_split_nonneg k Hk).
    assert (E : 2 ^ (k + 2148) = 2 ^ (k - e) * 2 ^ (e + 2148))
      by (rewrite <- Z.pow_add_r by lia; f_equal; lia).
    rewrite E.
    pose proof (pow2_pos (e + 2148) ltac:(lia)) as HY.
    rewrite Z.abs_eq by (apply Z.mul_nonneg_nonneg; lia).
    apply Z.mul_lt_mono_pos_r; assumption.
Qed.

(** The unrounded value [R + K * d] stays between [R + K * a/2] and
    [R + K * b/2] when [d] lies between [a/2] and [b/2], for [a] and [b] up
    to [2 * c] in magnitude. *)
Lemma unrounded_between_wide (R K a b c : Z) (d : float) :
  0 <= K -> 1 <= c <= 2 ^ 51 -> Z.abs R + c * K < 2 ^ 52 ->
  -2 * c <= a <= b -> b <= 2 * c ->
  finite_float d -> a * half_unit <= units d <= b * half_unit ->
  let x := fadd (Z2F R) (fmul (Z2F K) d) in
  finite_float x /\
  (2 * R + a * K) * half_unit <= units x <= (2 * R + b * K) * half_unit.
Proof.
  intros HK Hc HRK Ha Hb Hd Hud x.
  assert (H52 : 2 ^ 53 = 2 * 2 ^ 52) by reflexivity.
  assert (H51 : 2 ^ 52 = 2 * 2 ^ 51) by reflexivity.
  assert (H52' : 0 < 2 ^ 51) by reflexivity.
  set (T52 := 2 ^ 52) in *. set (T53 := 2 ^ 53) in *. set (T51 := 2 ^ 51) in *.
  assert (HKc : K <= c * K) by nia.
  assert (HaK : Z.abs (a * K) <= 2 * (c * K)) by nia.
  assert (HbK : Z.abs (b * K) <= 2 * (c * K)) by nia.
  destruct (Z2F_units K ltac:(fold T53; lia)) as [HKf HKu].
  destruct (Z2F_units R ltac:(fold T53; lia)) as [HRf HRu].
  destruct (half_units (a * K) ltac:(fold T53; lia)) as (tlo & Htlo & Hutlo).
  destruct (half_units (b * K) ltac:(fold T53; lia)) as (thi & Hthi & Huthi).
  pose proof half_unit_pos as HT.
  destruct (fmul_between (Z2F K) d tlo thi HKf Hd Htlo Hthi) as [Ht Hut].
  { rewrite HKu, Hutlo, Huthi.
    replace (a * K * half_unit * (2 * half_unit))
      with (K * (2 * half_unit) * (a * half_unit)) by ring.
    replace (b * K * half_unit * (2 * half_unit))
      with (K * (2 * half_unit) * (b * half_unit)) by ring.
    split; apply Z.mul_le_mono_nonneg_l; try apply Z.mul_nonneg_nonneg; lia. }
  destruct (half_units (2 * R + a * K) ltac:(fold T53; lia)) as (xlo & Hxlo & Huxlo).
  destruct (half_units (2 * R + b * K) ltac:(fold T53; lia)) as (xhi & Hxhi & Huxhi).
  destruct (fadd_between (Z2F R) (fmul (Z2F K) d) xlo xhi HRf Ht Hxlo Hxhi) as [Hx Hux].
  { rewrite HRu, Huxlo, Huxhi. rewrite Hutlo, Huthi in Hut. lia. }
  fold x in Hx, Hux. split; [exact Hx|]. rewrite <- Huxlo, <- Huxhi. exact Hux.
Qed.

(** The new rating for a score of any size: between the roundings of
    [R + K * a/2] and [R + K * b/2] when [s - E] lies between [a/2] and
    [b/2]. *)
Lemma update_rating_between_wide (L : Libm) (self : Elo) (s : number) (O : Z) (w : World)
    (E fs : float) (a b c : Z) :
  _get_expected_score L self O = Ok E -> to_float s = Ok fs ->
  finite_float E -> finite_float fs ->
  0 <= k_factor self -> 1 <= c <= 2 ^ 51 ->
  Z.abs (rating self) + c * k_factor self < 2 ^ 52 ->
  -2 * c <= a <= b -> b <= 2 * c ->
  a * half_unit <= units fs - units E <= b * half_unit ->
  exists n,
    update_rating L self s O w = Ok (save (set_rating self n) w) /\
    2 * rating self + a * k_factor self - 1 <= 2 * n
      <= 2 * rating self + b * k_factor self + 1.
Proof.
  intros HE Hfs HEf Hfsf HK Hc HRK Ha Hb Hd.
  set (R := rating self) in *. set (K := k_factor self) in *.
  assert (H52 : 2 ^ 53 = 2 * 2 ^ 52) by reflexivity.
  assert (H51 : 2 ^ 52 = 2 * 2 ^ 51) by reflexivity.
  assert (H52' : 0 < 2 ^ 51) by reflexivity.
  set (T52 := 2 ^ 52) in *. set (T53 := 2 ^ 53) in *. set (T51 := 2 ^ 51) in *.
  assert (HKc : K <= c * K) by nia.
  destruct (float_of_int_units K ltac:(fold T53; lia)) as (HKf & _).
  destruct (float_of_int_units R ltac:(fold T53; lia)) as (HRf & _).
  rewrite (update_rating_steps L self s O w E fs _ _ HE Hfs HKf HRf).
  destruct (half_units a ltac:(fold T53; lia)) as (dlo & Hdlo & Hudlo).
  destruct (half_units b ltac:(fold T53; lia)) as (dhi & Hdhi & Hudhi).
  destruct (fsub_between fs E dlo dhi Hfsf HEf Hdlo Hdhi ltac:(lia)) as [Hdf Hdu].
  rewrite Hudlo, Hudhi in Hdu.
  destruct (unrounded_between_wide R K a b c _ HK Hc HRK Ha Hb Hdf Hdu) as [Hx Hxu].
  destruct (round_between _ _ _ Hx Hxu) as (n & Hn & Hb2 & _).
  exists n. rewrite Hn. split; [reflexivity|exact Hb2].
Qed.

Lemma spec_new_rating_of_update (L : Libm) (self : Elo) (s : number) (O : Z) (w : World)
    (n : Z) :
  update_rating L self s O w = Ok (save (set_rating self n) w) ->
  spec_new_rating L (rating self) (k_factor self) s O = Ok n.
Proof.
  rewrite update_rating_refines.
  destruct (spec_new_rating L (rating self) (k_factor self) s O) as [r|]; [|discriminate].
  rewrite (bind_ok _ _ r eq_refl). intros H.
  apply (f_equal (fun x => match x with Ok p => rating (fst p) | Raise _ => 0 end)) in H.
  cbn in H. rewrite H. reflexivity.
Qed.

(** C4, as the source has it. [update_rating] does not look at the score
    beyond computing with it: for every score that is a number below [2^k]
    in magnitude, permitted or not, a k-factor [K >= 0], a rating [R] with
    [|R| + (2^k + 1) * K < 2^52] and a rating difference below 51200, the
    call returns with the rating the formula gives, at most [(2^k + 1) * K]
    away from [R]; with [R = O = 1200], [K = 32] and the score 2, which is
    not permitted, it stores 1248. *)
Theorem score_is_not_validated :
  forall (L : Libm) (self : Elo) (s : number) (O : Z) (w : World) (fs : float) (k : Z),
    to_float s = Ok fs -> bounded_by k fs -> 0 <= k <= 50 ->
    0 <= k_factor self ->
    Z.abs (rating self) + (2 ^ k + 1) * k_factor self < 2 ^ 52 ->
    Z.abs (O - rating self) < 51200 ->
    (exists (E : float) (r : Z),
       _get_expected_score L self O = Ok E /\
       round (fadd (Z2F (rating self)) (fmul (Z2F (k_factor self)) (fsub fs E))) = Ok r /\
       spec_new_rating L (rating self) (k_factor self) s O = Ok r /\
       update_rating L self s O w = Ok (save (set_rating self r) w) /\
       Z.abs (r - rating self) <= (2 ^ k + 1) * k_factor self) /\
    permitted_score (PyInt 2) = false /\
    rating_after (update_rating L (stored_elo 1%positive 1200 32) (PyInt 2) 1200 w) = Ok 1248.
Proof.
  intros L self s O w fs k Hfs Hb Hk HK HRK Hgap.
  split; [|split; reflexivity].
  destruct (expected_score_units L self O Hgap) as (E & HE & HEf & HEu).
  destruct (bounded_by_units k fs ltac:(lia) Hb) as [Hfsf Hfsu].
  assert (Hc : 1 <= 2 ^ k <= 2 ^ 50).
  { split; [pose proof (pow2_pos k ltac:(lia)); lia|apply Z.pow_le_mono_r; lia]. }
  assert (H51 : 2 ^ 51 = 2 * 2 ^ 50) by reflexivity.
  assert (H50 : 0 < 2 ^ 50) by reflexivity.
  set (c := 2 ^ k) in *. set (T50 := 2 ^ 50) in *. set (T51 := 2 ^ 51) in *.
  pose proof half_unit_pos as HT.
  destruct (update_rating_between_wide L self s O w E fs (-2 * (c + 1)) (2 * c) (c + 1)
              HE Hfs HEf Hfsf HK ltac:(lia) HRK ltac:(lia) ltac:(lia))
    as (n & Hn & Hb2).
  { split; nia. }
  assert (HKc : k_factor self <= (c + 1) * k_factor self) by nia.
  assert (H52 : 2 ^ 53 = 2 * 2 ^ 52) by reflexivity.
  exists E, n. split; [exact HE|].
  split; [apply (update_rating_round L self s O w E fs n HE Hfs); [lia|lia|exact Hn]|].
  split; [exact (spec_new_rating_of_update _ _ _ _ _ _ Hn)|].
  split; [exact Hn|]. nia.
Qed.

Lemma score_is_not_validated_witness :
  exists (E : float) (r : Z),
    _get_expected_score coarse_libm (stored_elo 1%positive 1200 32) 1200 = Ok E /\
    round (fadd (Z2F 1200) (fmul (Z2F 32) (fsub (Z2F 2) E))) = Ok r /\
    spec_new_rating coarse_libm 1200 32 (PyInt 2) 1200 = Ok r /\
    update_rating coarse_libm (stored_elo 1%positive 1200 32) (PyInt 2) 1200
      (world_of 1%positive (stored_elo 1%positive 1200 32) 100)
    = Ok (save (set_rating (stored_elo 1%positive 1200 32) r)
            (world_of 1%positive (stored_elo 1%positive 1200 32) 100)) /\
    Z.abs (r - 1200) <= (2 ^ 2 + 1) * 32.
Proof.
  apply (score_is_not_validated coarse_libm (stored_elo 1%positive 1200 32) (PyInt 2) 1200
           (world_of 1%positive (stored_elo 1%positive 1200 32) 100) (Z2F 2) 2).
  - reflexivity.
  - split; [reflexivity|vm_compute; discriminate].
  - lia.
  - cbn [k_factor stored_elo]. lia.
  - cbn [rating k_factor stored_elo]. lia.
  - cbn [rating stored_elo]. lia.
Defined.

(** C4 fails as stated: the score 2, outside {0, 0.5, 1}, is accepted and
    changes the rating from 1200 to 1248. *)
Lemma invalid_score_accepted :
  permitted_score (PyInt 2) = false /\
  rating_after
    (update_rating coarse_libm (stored_elo 1%positive 1200 32) (PyInt 2) 1200
       (world_of 1%positive (stored_elo 1%positive 1200 32) 100)) = Ok 1248.
Proof. split; reflexivity. Qed.

(* ===================================================================== *)
(** ** The [__str__] methods that read bare names *)
(* ===================================================================== *)

(** X9. [Player.__str__] never returns: the bare name [guest], read first,
    is bound neither in the method, nor in the module, nor among the
    builtins (the field is [self.guest]), so the call raises [NameError] for
    every player, guest or not. *)
Theorem player_str_raises_name_error :
  forall self : Player.t,
    Player.__str__ models_globals py_builtins self = NameError "guest"%string.
Proof. intros self. vm_compute. reflexivity. Qed.

(** X10. [Move.__str__] never returns: it raises [NameError] on the bare
    name [from_square] for every move. *)
Theorem move_str_raises_name_error :
  forall self : Move.t,
    Move.__str__ models_globals py_builtins self = NameError "from_square"%string.
Proof. intros self. vm_compute. reflexivity. Qed.

(** X11. [Position.__str__] never returns: it raises [NameError] on the bare
    name [piece_file] for every position. *)
Theorem position_str_raises_name_error :
  forall self : Position.t,
    Position.__str__ models_globals py_builtins self = NameError "piece_file"%string.
Proof. intros self. vm_compute. reflexivity. Qed.
